(** * BreachShield: the breach-detection-to-notification pipeline

    A shallow embedding of the pipeline's Python sources
    ([backend/scoring/severity_engine.py], [backend/alerts/sms_alert.py],
    [backend/alerts/email_alert.py], [backend/remediation/llm_advisor.py],
    [backend/workers/scan_tasks.py], [backend/ingestion/hibp_client.py],
    [backend/utils/crypto.py], [backend/database/models.py],
    [backend/database/connection.py] and the routes of [backend/api/routes]
    that call the pipeline) and the properties of its specification, stated
    over that embedding.

    The first half of the file holds the definitions, module by module in the
    order of the sources' dependencies; the second half holds the theorems. *)

From Stdlib Require Import Ascii String DecimalString.
From Stdlib Require Import List ZArith NArith Lia Bool.
From Stdlib Require Import Permutation Sorted.
Import ListNotations.

Local Open Scope Z_scope.

(* ================================================================== *)
(** * Python values *)
(* ================================================================== *)

Module Py.

(** A Python [str] is a sequence of Unicode code points; [len] counts code
    points, [==] compares them one by one and [<] is lexicographic on them. *)
Definition char := N.
Definition str := list char.

(** A string literal of the source. *)
Definition lit (s : string) : str := map N_of_ascii (list_ascii_of_string s).

Fixpoint str_eqb (a b : str) : bool :=
  match a, b with
  | [], [] => true
  | x :: a', y :: b' => N.eqb x y && str_eqb a' b'
  | _, _ => false
  end.

(** [len(s)], a Python [int]. *)
Definition len {A} (s : list A) : Z := Z.of_nat (length s).

(** [x in xs] for a list (or a set literal) of strings. *)
Definition contains (xs : list str) (x : str) : bool := existsb (str_eqb x) xs.

(** [s[:k]]: a negative bound counts from the end, and bounds outside the
    string are clamped. *)
Definition slice_to {A} (s : list A) (k : Z) : list A :=
  if 0 <=? k then firstn (Z.to_nat k) s
  else firstn (Z.to_nat (len s + k)) s.

(** [s[k:]] for a non-negative [k]. *)
Definition slice_from {A} (s : list A) (k : nat) : list A := skipn k s.

(** [sep.join(parts)]. *)
Fixpoint join (sep : str) (parts : list str) : str :=
  match parts with
  | [] => []
  | [p] => p
  | p :: rest => p ++ sep ++ join sep rest
  end.

(** [str(n)] for a non-negative [int] that is a length. *)
Definition str_of_nat (n : nat) : str := lit (NilEmpty.string_of_uint (Nat.to_uint n)).

(** A [dict] with string keys, as the list of its items; the keys of every
    dict literal of the sources are distinct. *)
Definition dict (V : Type) := list (str * V).

(** [d.get(k)]: [None] when the key is absent. *)
Fixpoint dict_get {V} (d : dict V) (k : str) : option V :=
  match d with
  | [] => None
  | (k', v) :: d' => if str_eqb k k' then Some v else dict_get d' k
  end.

(** [d.get(k, default)]. *)
Definition dict_get_default {V} (d : dict V) (k : str) (default : V) : V :=
  match dict_get d k with Some v => v | None => default end.

(** [k in d]. *)
Definition dict_mem {V} (d : dict V) (k : str) : bool :=
  match dict_get d k with Some _ => true | None => false end.

(** The exceptions the pipeline can see.  Every handler of the sources is an
    [except Exception], so the classes only document where a failure comes
    from. *)
Inductive exn : Type :=
| AssertionError      (* a failed [assert] *)
| FormatError         (* ValueError, IndexError or KeyError of [str.format] *)
| UnicodeEncodeError  (* [str.encode] on a lone surrogate *)
| DecryptError        (* [decrypt_email] on a token it cannot read *)
| FeedError           (* the breach feed: ValueError or RuntimeError *)
| ApiError            (* the text generator *)
| BrokerError         (* the task queue refused a job *)
| DatabaseError       (* a flush or a commit refused by the store *)
| AttributeError      (* an attribute of [None] *)
| Retry               (* the task queue's signal: the task was sent again *)
| Reject.             (* the task queue's signal: the task could not be sent again *)

(** What running a piece of code ends in: a value, or a raised exception. *)
Inductive outcome (A : Type) : Type :=
| Ok (a : A)
| Raise (e : exn).
Arguments Ok {A} a.
Arguments Raise {A} e.

Definition left_brace : char := 123%N.
Definition right_brace : char := 125%N.

(** [template.format(arg)] with the single positional argument [arg], for a
    template whose last replacement field is its only automatic field [{}],
    as [base_structure] of [build_sms_message] is.  The doubled braces stand
    for one brace, the first [{}] takes [arg].  Any other field ahead of the
    last [{}] makes [format] raise: a second automatic field pushes the last
    one to index 1 (IndexError), a numbered one forbids the automatic one
    that follows (ValueError), a named one has no keyword (KeyError), and a
    lone brace is a ValueError.  [used] tells whether [{}] was met already. *)
Fixpoint format_with (used : bool) (arg : str) (template : str) : outcome str :=
  let emit (c : char) (k : outcome str) : outcome str :=
    match k with Ok s => Ok (c :: s) | Raise e => Raise e end in
  match template with
  | [] => Ok []
  | c :: rest =>
      if N.eqb c left_brace then
        match rest with
        | c2 :: rest2 =>
            if N.eqb c2 left_brace then emit left_brace (format_with used arg rest2)
            else if N.eqb c2 right_brace then
              if used then Raise FormatError
              else match format_with true arg rest2 with
                   | Ok s => Ok (arg ++ s)
                   | Raise e => Raise e
                   end
            else Raise FormatError
        | [] => Raise FormatError
        end
      else if N.eqb c right_brace then
        match rest with
        | c2 :: rest2 =>
            if N.eqb c2 right_brace then emit right_brace (format_with used arg rest2)
            else Raise FormatError
        | [] => Raise FormatError
        end
      else emit c (format_with used arg rest)
  end.

Definition format (template arg : str) : outcome str := format_with false arg template.

End Py.
Import Py.

(* ================================================================== *)
(** * backend/scoring/severity_engine.py *)
(* ================================================================== *)

Module SeverityEngine.

Definition DATA_CLASS_WEIGHTS : dict Z :=
  [ (lit "Passwords", 25);
    (lit "Password hints", 20);
    (lit "Auth tokens", 20);
    (lit "Credit cards", 25);
    (lit "Bank account numbers", 25);
    (lit "Social security numbers", 25);
    (lit "Passport numbers", 20);
    (lit "Government issued IDs", 20);
    (lit "Private messages", 15);
    (lit "Security questions and answers", 18);
    (lit "Biometric data", 22);
    (lit "Health insurance information", 18);
    (lit "Medical records", 20);
    (lit "Financial transactions", 18);
    (lit "Purchases", 10);
    (lit "Phone numbers", 8);
    (lit "Physical addresses", 8);
    (lit "Dates of birth", 7);
    (lit "Genders", 3);
    (lit "Geographic locations", 5);
    (lit "Ethnicities", 5);
    (lit "Email addresses", 5);
    (lit "Usernames", 4);
    (lit "Names", 3);
    (lit "IP addresses", 4);
    (lit "Device information", 3);
    (lit "Browser user agent details", 2);
    (lit "Avatars", 1);
    (lit "Website activity", 3) ].

Definition SEVERITY_THRESHOLDS : dict Z :=
  [ (lit "CRITICAL", 25); (lit "HIGH", 12); (lit "MEDIUM", 6); (lit "LOW", 0) ].

(** [SEVERITY_THRESHOLDS[k]]; the source subscripts it with the literal keys
    of the table only, so the [KeyError] branch is never taken. *)
Definition threshold (k : string) : Z := dict_get_default SEVERITY_THRESHOLDS (lit k) 0.

Record SeverityResult := mkSeverityResult {
  label : str;
  score : Z;
  matched_classes : list str;
  top_risk : str;
  description : str
}.

(** [DATA_CLASS_WEIGHTS.get(c, 2)] *)
Definition weight_of (c : str) : Z := dict_get_default DATA_CLASS_WEIGHTS c 2.

(** [is_critical_breach]: the set literal [critical_types] and the loop with
    its early [return True]. *)
Definition critical_types : list str :=
  [ lit "Passwords"; lit "Credit cards"; lit "Bank account numbers";
    lit "Social security numbers"; lit "Auth tokens"; lit "Biometric data" ].

Fixpoint is_critical_breach (data_classes : list str) : bool :=
  match data_classes with
  | [] => false
  | c :: rest => if contains critical_types c then true else is_critical_breach rest
  end.

(** The four locals the scoring loop of [calculate_severity] updates. *)
Record scan := mkScan {
  raw_score : Z;
  matched : list str;
  top : str;
  highest_weight : Z
}.

Definition scan_init : scan := mkScan 0 [] (lit "None") (-1).

(** One iteration of [for c in data_classes]. *)
Definition scan_class (st : scan) (c : str) : scan :=
  let weight := weight_of c in
  let raw := raw_score st + weight in
  let m := if dict_mem DATA_CLASS_WEIGHTS c then matched st ++ [c] else matched st in
  if highest_weight st <? weight
  then mkScan raw m c weight
  else mkScan raw m (top st) (highest_weight st).

Definition describe (data_classes : list str) (first : str) : str :=
  if contains data_classes (lit "Passwords")
  then lit "Your login credentials were directly exposed."
  else if contains data_classes (lit "Credit cards")
          || contains data_classes (lit "Bank account numbers")
  then lit "Your financial data was exposed."
  else str_of_nat (length data_classes)
         ++ lit " types of personal data were exposed including "
         ++ first ++ lit ".".

Definition calculate_severity (data_classes : list str) : SeverityResult :=
  match data_classes with
  | [] => mkSeverityResult (lit "LOW") 0 [] (lit "None") (lit "No data classes reported")
  | first :: _ =>
      let st := fold_left scan_class data_classes scan_init in
      let score := Z.min (raw_score st) 100 in
      let '(label, score) :=
        if is_critical_breach data_classes || (threshold "CRITICAL" <=? score)
        then (lit "CRITICAL", Z.max score (threshold "CRITICAL"))
        else if threshold "HIGH" <=? score then (lit "HIGH", score)
        else if threshold "MEDIUM" <=? score then (lit "MEDIUM", score)
        else (lit "LOW", score) in
      mkSeverityResult label score (matched st) (top st) (describe data_classes first)
  end.

End SeverityEngine.

(* ================================================================== *)
(** * backend/alerts/sms_alert.py: the message body *)
(* ================================================================== *)

Module SmsBody.

(** The f-string of [build_sms_message]; its [{{}}] leaves the two
    characters [{}] in the string, for [format] to fill. *)
Definition base_structure (severity email_preview : str) : str :=
  lit "[BreachShield] " ++ severity ++ lit " ALERT: " ++ email_preview
  ++ lit " found in {} breach. Change your password NOW. Reply STOP to unsubscribe.".

(** [build_sms_message]; the [assert] is executed, as the interpreter does
    unless it is started with [-O]. *)
Definition build_sms_message (breach_name severity email_preview : str) : outcome str :=
  let base := base_structure severity email_preview in
  let available_length := 160 - (len base - 2) in
  let formatted :=
    if available_length <? len breach_name
    then
      let truncated_name := slice_to breach_name (available_length - 3) ++ lit "..." in
      format base truncated_name
    else format base breach_name in
  match formatted with
  | Ok message => if len message <=? 160 then Ok message else Raise AssertionError
  | Raise e => Raise e
  end.

End SmsBody.

(* ================================================================== *)
(** * backend/database/models.py *)
(* ================================================================== *)

(** A [datetime] is a reading of the clock, a [date] a day number. *)
Definition datetime := nat.
Definition date := nat.

(** The tables, one record per model class, with the columns the pipeline
    reads or writes; the columns it leaves to their defaults ([created_at],
    [added_at], [sent_at], [email_hash], ...) are left out. *)

Module User.
(** [phone_number] is no column of the class: [dispatch_alerts] reads it
    with [getattr(owner, "phone_number", None)], so it is [None] on a row of
    the declared schema. *)
Record row := mk {
  id : nat;
  email : str;
  is_active : bool;
  phone_number : option str
}.
End User.

Module MonitoredEmail.
Record row := mk {
  id : nat;
  email_encrypted : str;
  email_preview : str;
  user_id : nat;
  is_active : bool;
  last_scanned_at : option datetime;
  scan_count : Z
}.

Definition mark_scanned (now : datetime) (r : row) : row :=
  mk (id r) (email_encrypted r) (email_preview r) (user_id r) (is_active r)
     (Some now) (scan_count r + 1).
End MonitoredEmail.

Module BreachEvent.
Record row := mk {
  id : nat;
  monitored_email_id : nat;
  breach_name : str;
  breach_domain : str;
  breach_date : option date;
  detected_at : datetime;
  data_classes : list str;
  pwn_count : Z;
  severity : str;
  severity_score : Z;
  is_verified : bool;
  is_notified : bool;
  notified_at : option datetime;
  is_fabricated : bool;
  is_sensitive : bool;
  remediation_text : option str
}.

Definition mark_notified (now : datetime) (r : row) : row :=
  mk (id r) (monitored_email_id r) (breach_name r) (breach_domain r) (breach_date r)
     (detected_at r) (data_classes r) (pwn_count r) (severity r) (severity_score r)
     (is_verified r) true (Some now) (is_fabricated r) (is_sensitive r)
     (remediation_text r).
End BreachEvent.

Module AlertLog.
Record row := mk {
  id : nat;
  breach_event_id : nat;
  channel : str;
  recipient : str;
  status : str;
  error_message : option str
}.
End AlertLog.

Module RemediationCache.
Record row := mk {
  id : nat;
  cache_key : str;
  breach_name : str;
  data_classes_json : list str;
  remediation_text : str;
  hit_count : Z
}.

Definition hit (r : row) : row :=
  mk (id r) (cache_key r) (breach_name r) (data_classes_json r) (remediation_text r)
     (hit_count r + 1).
End RemediationCache.

Module Store.

(** The content of the five tables. *)
Record Db := mkDb {
  users : list User.row;
  monitored_emails : list MonitoredEmail.row;
  breach_events : list BreachEvent.row;
  alert_logs : list AlertLog.row;
  remediation_cache : list RemediationCache.row
}.

(** The key an [autoincrement] column gives the next row. *)
Definition next_id (ids : list nat) : nat := S (fold_right Nat.max 0%nat ids).

Definition with_monitored_emails (d : Db) (t : list MonitoredEmail.row) : Db :=
  mkDb (users d) t (breach_events d) (alert_logs d) (remediation_cache d).
Definition with_breach_events (d : Db) (t : list BreachEvent.row) : Db :=
  mkDb (users d) (monitored_emails d) t (alert_logs d) (remediation_cache d).
Definition with_alert_logs (d : Db) (t : list AlertLog.row) : Db :=
  mkDb (users d) (monitored_emails d) (breach_events d) t (remediation_cache d).
Definition with_remediation_cache (d : Db) (t : list RemediationCache.row) : Db :=
  mkDb (users d) (monitored_emails d) (breach_events d) (alert_logs d) t.

(** [query(User)], [query(MonitoredEmail)], [query(BreachEvent)] filtered on
    the primary key, then [.first()]; also the lazy loads of the
    relationships [monitored_email] and [owner]. *)
Definition user_by_id (d : Db) (i : nat) : option User.row :=
  find (fun r => Nat.eqb (User.id r) i) (users d).
Definition monitored_email_by_id (d : Db) (i : nat) : option MonitoredEmail.row :=
  find (fun r => Nat.eqb (MonitoredEmail.id r) i) (monitored_emails d).
Definition breach_event_by_id (d : Db) (i : nat) : option BreachEvent.row :=
  find (fun r => Nat.eqb (BreachEvent.id r) i) (breach_events d).

(** [query(BreachEvent).filter_by(monitored_email_id=..., breach_name=...).first()] *)
Definition breach_event_by_name (d : Db) (email_id : nat) (name : str)
  : option BreachEvent.row :=
  find (fun r => Nat.eqb (BreachEvent.monitored_email_id r) email_id
                 && str_eqb (BreachEvent.breach_name r) name)
       (breach_events d).

(** [query(RemediationCache).filter_by(cache_key=...).first()] *)
Definition cache_by_key (d : Db) (key : str) : option RemediationCache.row :=
  find (fun r => str_eqb (RemediationCache.cache_key r) key) (remediation_cache d).

(** Writing back the attributes of a loaded object: the row of that primary
    key is replaced. *)
Definition update_monitored_email (d : Db) (i : nat)
    (f : MonitoredEmail.row -> MonitoredEmail.row) : Db :=
  with_monitored_emails d
    (map (fun r => if Nat.eqb (MonitoredEmail.id r) i then f r else r) (monitored_emails d)).
Definition update_breach_event (d : Db) (i : nat)
    (f : BreachEvent.row -> BreachEvent.row) : Db :=
  with_breach_events d
    (map (fun r => if Nat.eqb (BreachEvent.id r) i then f r else r) (breach_events d)).
Definition update_cache (d : Db) (i : nat)
    (f : RemediationCache.row -> RemediationCache.row) : Db :=
  with_remediation_cache d
    (map (fun r => if Nat.eqb (RemediationCache.id r) i then f r else r)
         (remediation_cache d)).

End Store.
Import Store.

(* ================================================================== *)
(** * The collaborators and the state the workers run in *)
(* ================================================================== *)

Module Runtime.

(** A breach as the feed's JSON gives it, with the types the feed documents;
    any key may be missing. *)
Record RawBreach := mkRawBreach {
  Name : option str;
  Domain : option str;
  BreachDate : option str;
  PwnCount : option Z;
  DataClasses : option (list str);
  IsVerified : option bool;
  IsFabricated : option bool;
  IsSensitive : option bool
}.

(** What [session.get] of the feed client ends in. *)
Inductive http_reply : Type :=
| Response (status_code : Z) (json : list RawBreach)
| RequestError.

(** A mail handed to the mail provider, by the arguments of
    [send_breach_alert] that make it up. *)
Record EmailCall := mkEmailCall {
  to_email : str;
  subject : str;
  mail_breach_name : str;
  mail_severity : str;
  mail_data_classes : list str;
  mail_remediation_text : str;
  mail_email_preview : str;
  mail_breach_date : str
}.

(** [client.messages.create(body=..., from_=..., to=...)] *)
Record SmsCall := mkSmsCall {
  body : str;
  from_ : str;
  to : str
}.

Inductive mail_reply : Type :=
| MailResponse (status_code : Z)
| MailRaises (message : str).

Inductive sms_reply : Type :=
| SmsCreated (sid : str)
| SmsRaises (message : str).

(** The collaborators, as scripts: what each answers when it is called at a
    given instant.  The instant is the count of calls made so far, so two
    calls of one run can be answered differently. *)
Record Env := mkEnv {
  (* [utils.crypto.decrypt_email]; [None] when it raises *)
  decrypt_email : str -> option str;
  (* the feed, asked for the breaches of an email *)
  http_get : nat -> str -> http_reply;
  (* [datetime.strptime(s, "%Y-%m-%d").date()]; [None] for ValueError *)
  strptime_date : str -> option date;
  (* [d.strftime("%Y-%m-%d")] *)
  strftime_date : date -> str;
  (* [hashlib.sha256(bytes).hexdigest()] *)
  sha256_hexdigest : list N -> str;
  (* [client.messages.create] of the text generator, asked about a breach
     name and its data classes; [None] when it raises *)
  claude_create : nat -> str -> list str -> option str;
  (* [sg.send(message)] *)
  sendgrid_send : nat -> EmailCall -> mail_reply;
  (* [client.messages.create] of the SMS provider *)
  twilio_create : nat -> SmsCall -> sms_reply;
  (* [str.isdigit] *)
  isdigit : str -> bool;
  (* [settings.TWILIO_FROM_NUMBER] *)
  TWILIO_FROM_NUMBER : str;
  (* whether the store takes the flush or the commit made at an instant *)
  store_accepts : nat -> bool;
  (* whether the broker takes the job handed over at an instant *)
  broker_accepts : nat -> bool;
  (* [datetime.utcnow()] *)
  utcnow : nat -> datetime;
  (* what [self.retry(exc=e)] of the task queue's library raises: [e] itself
     when the task was called directly or has used up its retries, and the
     library's own signal otherwise *)
  task_retry : exn -> exn
}.

(** The state outside the running function: the committed store, the view
    of the open session (the store plus the session's own uncommitted
    changes), the instant, the jobs handed to the queue by [delay], each by
    its argument, and what was handed to the two channel providers. *)
Record World := mkWorld {
  store : Db;
  pending : Db;
  tick : nat;
  queue : list nat;
  email_outbox : list EmailCall;
  sms_outbox : list SmsCall
}.

Definition with_pending (w : World) (d : Db) : World :=
  mkWorld (store w) d (tick w) (queue w) (email_outbox w) (sms_outbox w).
Definition with_store (w : World) (d : Db) : World :=
  mkWorld d (pending w) (tick w) (queue w) (email_outbox w) (sms_outbox w).
Definition advance (w : World) : World :=
  mkWorld (store w) (pending w) (S (tick w)) (queue w) (email_outbox w) (sms_outbox w).
Definition enqueue (job : nat) (w : World) : World :=
  mkWorld (store w) (pending w) (tick w) (queue w ++ [job]) (email_outbox w) (sms_outbox w).
Definition record_email (call : EmailCall) (w : World) : World :=
  mkWorld (store w) (pending w) (tick w) (queue w) (email_outbox w ++ [call]) (sms_outbox w).
Definition record_sms (call : SmsCall) (w : World) : World :=
  mkWorld (store w) (pending w) (tick w) (queue w) (email_outbox w) (sms_outbox w ++ [call]).

(** Code that runs in a world, with the locals [L] its exception handler
    reads afterwards; an exception leaves both as they are at the raise. *)
Definition M (L A : Type) : Type := World * L -> outcome A * (World * L).

Definition ret {L A} (a : A) : M L A := fun s => (Ok a, s).

Definition bind {L A B} (m : M L A) (k : A -> M L B) : M L B :=
  fun s => match m s with
           | (Ok a, s') => k a s'
           | (Raise e, s') => (Raise e, s')
           end.

Definition raise {L A} (e : exn) : M L A := fun s => (Raise e, s).

(** [try: m  except Exception as e: h e] *)
Definition try_except {L A} (m : M L A) (h : exn -> M L A) : M L A :=
  fun s => match m s with
           | (Ok a, s') => (Ok a, s')
           | (Raise e, s') => h e s'
           end.

Definition lift {L A} (o : outcome A) : M L A := fun s => (o, s).

Definition get_world {L} : M L World := fun s => (Ok (fst s), s).
Definition modify {L} (f : World -> World) : M L unit := fun s => (Ok tt, (f (fst s), snd s)).
Definition get_local {L} : M L L := fun s => (Ok (snd s), s).
Definition put_local {L} (l : L) : M L unit := fun s => (Ok tt, (fst s, l)).

End Runtime.
Import Runtime.

Declare Scope py_scope.
Delimit Scope py_scope with py.
Notation "x <- m ;; k" := (bind m (fun x => k))
  (at level 61, m at next level, right associativity) : py_scope.
Notation "m ;; k" := (bind m (fun _ => k))
  (at level 61, right associativity) : py_scope.
Local Open Scope py_scope.

Module Session.
Section WithEnv.
Variable env : Env.
Context {L : Type}.

(** One more call to a collaborator: its instant. *)
Definition next_tick : M L nat :=
  w <- get_world ;; modify advance ;; ret (tick w).

(** [datetime.utcnow()] *)
Definition now : M L datetime := t <- next_tick ;; ret (utcnow env t).

(** A query reads the session's view. *)
Definition query {A} (q : Db -> A) : M L A := w <- get_world ;; ret (q (pending w)).

(** [session.add] and attribute writes change the session's view only. *)
Definition change (f : Db -> Db) : M L unit :=
  modify (fun w => with_pending w (f (pending w))).

(** [session.flush()]: the statements reach the store, which may refuse
    them; the transaction stays open. *)
Definition flush : M L unit :=
  t <- next_tick ;;
  if store_accepts env t then ret tt else raise DatabaseError.

(** [session.commit()]: the session's view becomes the store, unless the
    store refuses it.  A refused commit leaves the view as it is until the
    [rollback] of the handler; the script is free to accept a later commit
    of the same session, which the library would refuse, so the scripts
    cover more runs than the library allows. *)
Definition commit : M L unit :=
  t <- next_tick ;;
  if store_accepts env t
  then modify (fun w => with_store w (pending w))
  else raise DatabaseError.

(** [session.rollback()]: the view falls back to the store. *)
Definition rollback : M L unit :=
  modify (fun w => with_pending w (store w)).

(** [with get_db() as db_session: m]: a fresh session, closed on the way
    out, which drops whatever it had not committed. *)
Definition with_get_db {A} (m : M L A) : M L A :=
  fun s => let '(w, l) := s in
           let '(r, (w', l')) := m (with_pending w (store w), l) in
           (r, (with_pending w' (store w'), l')).

(** [task.delay(arg)]: the job is handed to the broker. *)
Definition delay (job : nat) : M L unit :=
  t <- next_tick ;;
  if broker_accepts env t then modify (enqueue job) else raise BrokerError.

(** [for x in xs: body x] *)
Fixpoint for_each {A} (xs : list A) (body : A -> M L unit) : M L unit :=
  match xs with
  | [] => ret tt
  | x :: rest => body x ;; for_each rest body
  end.

End WithEnv.
End Session.
Import Session.

(* ================================================================== *)
(** * backend/alerts/sms_alert.py and email_alert.py: the senders *)
(* ================================================================== *)

Module Alerts.

(** The dict a sender returns, by its keys: each is set or absent. *)
Record send_result := mkResult {
  status : option str;
  error : option str;
  reason : option str;
  sid : option str;
  code : option Z
}.

Definition skipped (why : str) : send_result :=
  mkResult (Some (lit "skipped")) None (Some why) None None.
Definition failed (err : str) : send_result :=
  mkResult (Some (lit "failed")) (Some err) None None None.

Section WithEnv.
Variable env : Env.
Context {L : Type}.

(** [to_phone.startswith("+")] *)
Definition starts_with_plus (s : str) : bool :=
  match s with
  | c :: _ => N.eqb c 43%N
  | [] => false
  end.

(** [SMSAlertSender.send_breach_sms] *)
Definition send_breach_sms (to_phone breach_name severity email_preview : str)
  : M L send_result :=
  if negb (contains [lit "CRITICAL"; lit "HIGH"] severity)
  then ret (skipped (lit "severity_below_threshold"))
  else if negb (starts_with_plus to_phone) || negb (isdigit env (slice_from to_phone 1))
  then ret (failed (lit "Invalid phone number format"))
  else
    msg_body <- lift (SmsBody.build_sms_message breach_name severity email_preview) ;;
    t <- next_tick ;;
    let call := mkSmsCall msg_body (TWILIO_FROM_NUMBER env) to_phone in
    modify (record_sms call) ;;
    match twilio_create env t call with
    | SmsCreated i => ret (mkResult (Some (lit "sent")) None None (Some i) None)
    | SmsRaises msg => ret (failed msg)
    end.

(** The subject line of [send_breach_alert]; the three emoji are written by
    their code points. *)
Definition subject_for (breach_name severity : str) : str :=
  if contains [lit "CRITICAL"; lit "HIGH"] severity
  then [128680%N] ++ lit " URGENT: Your credentials found in the "
       ++ breach_name ++ lit " breach"
  else if str_eqb severity (lit "MEDIUM")
  then [9888%N; 65039%N] ++ lit " Alert: Your data found in the "
       ++ breach_name ++ lit " breach"
  else [8505%N; 65039%N] ++ lit " Notice: Your email found in the "
       ++ breach_name ++ lit " breach".

(** [EmailAlertSender.send_breach_alert]; the HTML body is a function of
    the arguments the call records. *)
Definition send_breach_alert (to_email breach_name severity : str)
    (data_classes : list str) (remediation_text email_preview breach_date : str)
  : M L send_result :=
  let call := mkEmailCall to_email (subject_for breach_name severity) breach_name
                severity data_classes remediation_text email_preview breach_date in
  t <- next_tick ;;
  modify (record_email call) ;;
  match sendgrid_send env t call with
  | MailResponse c =>
      if c =? 202
      then ret (mkResult (Some (lit "sent")) None None None (Some c))
      else ret (failed (lit "Unexpected code " ++ str_of_nat (Z.to_nat c)))
  | MailRaises msg => ret (failed msg)
  end.

End WithEnv.
End Alerts.

(* ================================================================== *)
(** * backend/ingestion/hibp_client.py *)
(* ================================================================== *)

Module HibpClient.

Record Breach := mkBreach {
  name : str;
  domain : str;
  breach_date : str;
  pwn_count : Z;
  data_classes : list str;
  is_verified : bool;
  is_fabricated : bool;
  is_sensitive : bool
}.

Definition get_or {A} (o : option A) (default : A) : A :=
  match o with Some a => a | None => default end.

(** [HIBPClient.normalize_breach] *)
Definition normalize_breach (raw_breach : RawBreach) : Breach :=
  mkBreach (get_or (Name raw_breach) [])
           (get_or (Domain raw_breach) [])
           (get_or (BreachDate raw_breach) [])
           (get_or (PwnCount raw_breach) 0)
           (get_or (DataClasses raw_breach) [])
           (get_or (IsVerified raw_breach) true)
           (get_or (IsFabricated raw_breach) false)
           (get_or (IsSensitive raw_breach) false).

Section WithEnv.
Variable env : Env.
Context {L : Type}.

(** [self.session.get(url, headers=self.headers)], a [RequestError] turned
    into the [RuntimeError] of the handler. *)
Definition session_get (email : str) : M L (Z * list RawBreach) :=
  t <- next_tick ;;
  match http_get env t email with
  | Response c json => ret (c, json)
  | RequestError => raise FeedError
  end.

(** [HIBPClient.get_breaches_for_email]: one retry on 429, then the status
    code decides. *)
Definition get_breaches_for_email (email : str) : M L (list RawBreach) :=
  first <- session_get email ;;
  response <- (if fst first =? 429 then session_get email else ret first) ;;
  if fst response =? 404 then ret []
  else if fst response =? 401 then raise FeedError
  else if fst response =? 200 then ret (snd response)
  else raise FeedError.

End WithEnv.
End HibpClient.

(* ================================================================== *)
(** * backend/remediation/llm_advisor.py *)
(* ================================================================== *)

Module LLMAdvisor.

(** [a <= b] on strings: lexicographic on the code points. *)
Fixpoint str_leb (a b : str) : bool :=
  match a, b with
  | [], _ => true
  | _ :: _, [] => false
  | x :: a', y :: b' =>
      if N.ltb x y then true
      else if N.eqb x y then str_leb a' b'
      else false
  end.

Fixpoint insert_sorted (x : str) (l : list str) : list str :=
  match l with
  | [] => [x]
  | y :: rest => if str_leb x y then x :: l else y :: insert_sorted x rest
  end.

(** [sorted(data_classes)]: the ascending arrangement of the strings; on
    strings, equal keys are equal values, so the arrangement does not depend
    on the sorting method. *)
Fixpoint sorted (l : list str) : list str :=
  match l with
  | [] => []
  | x :: rest => insert_sorted x (sorted rest)
  end.

(** The bytes of one code point in UTF-8; a surrogate has none. *)
Definition utf8_char (c : char) : option (list N) :=
  (if c <? 128 then Some [c]
   else if c <? 2048 then Some [192 + c / 64; 128 + c mod 64]
   else if c <? 65536 then
     if (55296 <=? c) && (c <=? 57343) then None
     else Some [224 + c / 4096; 128 + (c / 64) mod 64; 128 + c mod 64]
   else if c <? 1114112 then
     Some [240 + c / 262144; 128 + (c / 4096) mod 64; 128 + (c / 64) mod 64; 128 + c mod 64]
   else None)%N.

(** [s.encode("utf-8")] *)
Fixpoint encode_utf8 (s : str) : option (list N) :=
  match s with
  | [] => Some []
  | c :: rest =>
      match utf8_char c, encode_utf8 rest with
      | Some bs, Some bs' => Some (bs ++ bs')
      | _, _ => None
      end
  end.

Definition fallback_text : str :=
  lit "Please change your password for this service immediately and enable two-factor authentication.".

Section WithEnv.
Variable env : Env.

(** [LLMAdvisor._build_cache_key] *)
Definition _build_cache_key (breach_name : str) (data_classes : list str) : outcome str :=
  let sorted_classes := sorted data_classes in
  let joined_classes := join (lit ",") sorted_classes in
  let raw_key := breach_name ++ lit "|" ++ joined_classes in
  match encode_utf8 raw_key with
  | Some bytes => Ok (sha256_hexdigest env bytes)
  | None => Raise UnicodeEncodeError
  end.

Context {L : Type}.

(** [LLMAdvisor.generate_remediation]; the text generator is asked with the
    prompt [_build_prompt] makes of the breach name and the data classes. *)
Definition generate_remediation (breach_name : str) (data_classes : list str) : M L str :=
  cache_key <- lift (_build_cache_key breach_name data_classes) ;;
  cached <- try_except
              (existing <- query (fun d => cache_by_key d cache_key) ;;
               match existing with
               | Some e =>
                   change (fun d => update_cache d (RemediationCache.id e)
                                      RemediationCache.hit) ;;
                   commit env ;;
                   ret (Some (RemediationCache.remediation_text e))
               | None => ret None
               end)
              (fun _ => ret None) ;;
  match cached with
  | Some text => ret text
  | None =>
      try_except
        (t <- next_tick ;;
         match claude_create env t breach_name data_classes with
         | None => raise ApiError
         | Some remediation_text =>
             try_except
               (change (fun d =>
                  with_remediation_cache d
                    (remediation_cache d
                     ++ [RemediationCache.mk
                           (next_id (map RemediationCache.id (remediation_cache d)))
                           cache_key breach_name data_classes remediation_text 1])) ;;
                commit env)
               (fun _ => rollback) ;;
             ret remediation_text
         end)
        (fun _ => ret fallback_text)
  end.

End WithEnv.
End LLMAdvisor.

(* ================================================================== *)
(** * backend/workers/scan_tasks.py *)
(* ================================================================== *)

Module ScanTasks.

(** What [process_single_email] returns: the dict of a finished scan.  A
    failed scan returns nothing, see [retry]. *)
Inductive scan_result : Type :=
| ScanDone (email_id : nat) (new_breaches : Z).

(** What [dispatch_alerts] returns: the dict of a dispatch that ran to its
    end or met its guard. *)
Inductive dispatch_result : Type :=
| Dispatched (breach_event_id : nat) (channels_notified : list str).

Section WithEnv.
Variable env : Env.

(** [self.retry(exc=e)] in the handler of a task.  The call never returns:
    it raises [e] itself when the task was called directly or has used up
    its retries, and the signal of the task queue otherwise, in which case
    the library has sent the task again by itself (a message of its own,
    not a job of [delay]).  It raises MaxRetriesExceededError only when no
    [exc] is given, so the [except self.MaxRetriesExceededError] around the
    call catches nothing, and neither the [return] of that clause nor the
    [return] after the [try] is reached. *)
Definition retry {L A} (exc : exn) : M L A := raise (task_retry env exc).

(** [breach_data["breach_date"]] parsed, [None] when empty or malformed. *)
Definition parse_breach_date (s : str) : option date :=
  match s with
  | [] => None
  | _ => strptime_date env s
  end.

(** The body of [for raw_breach in breaches]; the local [count] is the
    frame of the function. *)
Definition ingest_breach (monitored_email_id : nat) (raw_breach : RawBreach) : M Z unit :=
  let breach_data := HibpClient.normalize_breach raw_breach in
  existing <- query (fun d => breach_event_by_name d monitored_email_id
                                (HibpClient.name breach_data)) ;;
  match existing with
  | Some _ => ret tt
  | None =>
      let severity_result :=
        SeverityEngine.calculate_severity (HibpClient.data_classes breach_data) in
      remediation <- LLMAdvisor.generate_remediation env
                       (HibpClient.name breach_data)
                       (HibpClient.data_classes breach_data) ;;
      let parsed_breach_date := parse_breach_date (HibpClient.breach_date breach_data) in
      detected <- now env ;;
      d <- query (fun d => d) ;;
      let new_id := next_id (map BreachEvent.id (breach_events d)) in
      let new_breach :=
        BreachEvent.mk new_id monitored_email_id
          (HibpClient.name breach_data) (HibpClient.domain breach_data)
          parsed_breach_date detected
          (HibpClient.data_classes breach_data) (HibpClient.pwn_count breach_data)
          (SeverityEngine.label severity_result) (SeverityEngine.score severity_result)
          (HibpClient.is_verified breach_data) false None
          (HibpClient.is_fabricated breach_data) (HibpClient.is_sensitive breach_data)
          (Some remediation) in
      change (fun d => with_breach_events d (breach_events d ++ [new_breach])) ;;
      flush env ;;
      count <- get_local ;;
      put_local (count + 1) ;;
      delay env new_id
  end.

(** [process_single_email], the task body, started with [count = 0]. *)
Definition process_single_email (monitored_email_id : nat) : M Z scan_result :=
  with_get_db
    (try_except
       (monitored_email <- query (fun d => monitored_email_by_id d monitored_email_id) ;;
        match monitored_email with
        | None => ret (ScanDone monitored_email_id 0)
        | Some me =>
            if negb (MonitoredEmail.is_active me)
            then ret (ScanDone monitored_email_id 0)
            else
              decrypted_email <-
                match decrypt_email env (MonitoredEmail.email_encrypted me) with
                | Some e => ret e
                | None => raise DecryptError
                end ;;
              breaches <- HibpClient.get_breaches_for_email env decrypted_email ;;
              for_each breaches (ingest_breach monitored_email_id) ;;
              scanned <- now env ;;
              change (fun d => update_monitored_email d monitored_email_id
                                 (MonitoredEmail.mark_scanned scanned)) ;;
              commit env ;;
              count <- get_local ;;
              ret (ScanDone monitored_email_id count)
        end)
       (fun e =>
          rollback ;;
          retry e)).

(** [if phone_number:] *)
Definition truthy (s : option str) : option str :=
  match s with
  | Some (c :: rest) => Some (c :: rest)
  | _ => None
  end.

Definition add_alert_log (breach_event_id : nat) (channel recipient : str)
    (r : Alerts.send_result) : M (list str) unit :=
  change (fun d =>
    with_alert_logs d
      (alert_logs d
       ++ [AlertLog.mk (next_id (map AlertLog.id (alert_logs d)))
             breach_event_id channel recipient
             (HibpClient.get_or (Alerts.status r) (lit "failed"))
             (Alerts.error r)])).

Definition sent (r : Alerts.send_result) : bool :=
  match Alerts.status r with
  | Some s => str_eqb s (lit "sent")
  | None => false
  end.

(** [channels.append(c)] *)
Definition channels_append (c : str) : M (list str) unit :=
  channels <- get_local ;; put_local (channels ++ [c]).

(** [dispatch_alerts], the task body, started with [channels = []]. *)
Definition dispatch_alerts (breach_event_id : nat) : M (list str) dispatch_result :=
  with_get_db
    (try_except
       (breach_event <- query (fun d => breach_event_by_id d breach_event_id) ;;
        match breach_event with
        | None => channels <- get_local ;; ret (Dispatched breach_event_id channels)
        | Some be =>
            if BreachEvent.is_notified be
            then channels <- get_local ;; ret (Dispatched breach_event_id channels)
            else
              monitored_email <-
                (r <- query (fun d => monitored_email_by_id d
                                        (BreachEvent.monitored_email_id be)) ;;
                 match r with Some me => ret me | None => raise AttributeError end) ;;
              owner <-
                (r <- query (fun d => user_by_id d (MonitoredEmail.user_id monitored_email)) ;;
                 match r with Some u => ret u | None => raise AttributeError end) ;;
              let preview_address := MonitoredEmail.email_preview monitored_email in
              let date_str :=
                match BreachEvent.breach_date be with
                | Some d => strftime_date env d
                | None => lit "Unknown"
                end in
              email_result <-
                Alerts.send_breach_alert env (User.email owner)
                  (BreachEvent.breach_name be) (BreachEvent.severity be)
                  (BreachEvent.data_classes be)
                  (HibpClient.get_or (BreachEvent.remediation_text be) [])
                  preview_address date_str ;;
              add_alert_log breach_event_id (lit "email") (User.email owner) email_result ;;
              (if sent email_result then channels_append (lit "email") else ret tt) ;;
              match truthy (User.phone_number owner) with
              | Some phone_number =>
                  sms_result <-
                    Alerts.send_breach_sms env phone_number
                      (BreachEvent.breach_name be) (BreachEvent.severity be)
                      preview_address ;;
                  add_alert_log breach_event_id (lit "sms") phone_number sms_result ;;
                  if sent sms_result then channels_append (lit "sms") else ret tt
              | None => ret tt
              end ;;
              notified <- now env ;;
              change (fun d => update_breach_event d breach_event_id
                                 (BreachEvent.mark_notified notified)) ;;
              commit env ;;
              channels <- get_local ;;
              ret (Dispatched breach_event_id channels)
        end)
       (fun e =>
          rollback ;;
          retry e)).

(** A task run from a world: its result and the world it leaves. *)
Definition run {L A} (task : M L A) (locals : L) (w : World) : outcome A * World :=
  let '(r, (w', _)) := task (w, locals) in (r, w').

Definition run_scan (monitored_email_id : nat) (w : World) : outcome scan_result * World :=
  run (process_single_email monitored_email_id) 0 w.

Definition run_dispatch (breach_event_id : nat) (w : World)
  : outcome dispatch_result * World :=
  run (dispatch_alerts breach_event_id) [] w.

End WithEnv.
End ScanTasks.

(* ================================================================== *)
(** * backend/scoring/severity_engine.py: the badge *)
(* ================================================================== *)

Module SeverityBadge.

(** [get_severity_badge]; the five emoji are written by their code
    points. *)
Definition get_severity_badge (label : str) : str :=
  if str_eqb label (lit "CRITICAL") then 128308%N :: lit " CRITICAL"
  else if str_eqb label (lit "HIGH") then 128992%N :: lit " HIGH"
  else if str_eqb label (lit "MEDIUM") then 128993%N :: lit " MEDIUM"
  else if str_eqb label (lit "LOW") then 128994%N :: lit " LOW"
  else 9898%N :: lit " UNKNOWN".

End SeverityBadge.

(* ================================================================== *)
(** * backend/utils/crypto.py: the preview *)
(* ================================================================== *)

Module Crypto.

Definition at_sign : char := 64%N.

(** [a, b = s.split(sep, 1)]: the text before the first [sep] and the text
    after it; [None] is the ValueError of the unpacking, when [s] holds no
    [sep] and the split gives one part only. *)
Fixpoint split_once (sep : char) (s : str) : option (str * str) :=
  match s with
  | [] => None
  | c :: rest =>
      if N.eqb c sep then Some ([], rest)
      else match split_once sep rest with
           | Some (a, b) => Some (c :: a, b)
           | None => None
           end
  end.

(** [generate_email_preview] *)
Definition generate_email_preview (email : str) : option str :=
  match split_once at_sign email with
  | None => None
  | Some (local_part, domain) =>
      let preview :=
        if len local_part <=? 3
        then slice_to local_part 1 ++ lit "***"
        else slice_to local_part 3 ++ lit "***" in
      Some (preview ++ lit "@" ++ domain)
  end.

End Crypto.

(* ================================================================== *)
(** * backend/workers/scan_tasks.py: the periodic tasks *)
(* ================================================================== *)

Module PeriodicTasks.

(** What [scan_all_monitored_emails] returns: the dict of a sweep that
    dispatched its jobs.  A failed sweep returns nothing, see
    [ScanTasks.retry]. *)
Inductive sweep_result : Type :=
| SweepDispatched (email_count : Z).

(** The figures of a weekly digest, the [summary_stats] dict, with its
    recipient. *)
Record Digest := mkDigest {
  digest_to : str;
  total_monitored : Z;
  total_breaches : Z;
  new_this_week : Z;
  risk_score : Z
}.

(** The three counters of the loops of [send_weekly_summaries]. *)
Record tally := mkTally {
  breaches_seen : Z;
  new_seen : Z;
  highest_score : Z
}.

(** What [send_weekly_summaries] hands back. *)
Inductive weekly_result : Type :=
| WeeklyDone (users_notified : Z)
| WeeklyFailed (users_notified : Z) (e : exn).

(** The frame of [send_weekly_summaries]: its local
    [total_users_notified], and the digests handed to the mail provider so
    far. *)
Record weekly_frame := mkWeekly {
  total_users_notified : Z;
  digest_outbox : list Digest
}.

Section WithEnv.
Variable env : Env.

(** [scan_all_monitored_emails], the task body: one [process_single_email]
    job per active identity, by its key. *)
Definition scan_all_monitored_emails : M unit sweep_result :=
  with_get_db
    (try_except
       (active_emails <- query (fun d => filter MonitoredEmail.is_active
                                           (monitored_emails d)) ;;
        for_each active_emails (fun email => delay env (MonitoredEmail.id email)) ;;
        ret (SweepDispatched (len active_emails)))
       (fun e => ScanTasks.retry env e)).

(** [sg.send(message)] for a digest. *)
Variable sendgrid_send_digest : nat -> Digest -> mail_reply.

(** [datetime - timedelta(days=7)] *)
Variable seven_days_before : datetime -> datetime.

(** [EmailAlertSender.send_weekly_summary]; the HTML body is a function of
    the figures the call records. *)
Definition send_weekly_summary (digest : Digest) : M weekly_frame Alerts.send_result :=
  t <- next_tick ;;
  frame <- get_local ;;
  put_local (mkWeekly (total_users_notified frame) (digest_outbox frame ++ [digest])) ;;
  match sendgrid_send_digest t digest with
  | MailResponse c =>
      if c =? 202
      then ret (Alerts.mkResult (Some (lit "sent")) None None None (Some c))
      else ret (Alerts.failed (lit "Unexpected code " ++ str_of_nat (Z.to_nat c)))
  | MailRaises msg => ret (Alerts.failed msg)
  end.

(** The relationships [user.monitored_emails] and [account.breach_events]. *)
Definition monitored_emails_of (d : Db) (user : User.row) : list MonitoredEmail.row :=
  filter (fun m => Nat.eqb (MonitoredEmail.user_id m) (User.id user)) (monitored_emails d).

Definition breach_events_of (d : Db) (account : MonitoredEmail.row)
  : list BreachEvent.row :=
  filter (fun b => Nat.eqb (BreachEvent.monitored_email_id b) (MonitoredEmail.id account))
         (breach_events d).

(** One iteration of [for breach in account.breach_events]. *)
Definition tally_breach (seven_days_ago : datetime) (t : tally) (breach : BreachEvent.row)
  : tally :=
  let total := breaches_seen t + 1 in
  let new := if Nat.leb seven_days_ago (BreachEvent.detected_at breach)
             then new_seen t + 1 else new_seen t in
  let highest := if highest_score t <? BreachEvent.severity_score breach
                 then BreachEvent.severity_score breach else highest_score t in
  mkTally total new highest.

(** The two nested loops over the accounts of a user and their events. *)
Definition tally_user (d : Db) (seven_days_ago : datetime)
    (accounts : list MonitoredEmail.row) : tally :=
  fold_left (fun t account =>
               fold_left (tally_breach seven_days_ago) (breach_events_of d account) t)
            accounts (mkTally 0 0 0).

(** The body of [for user in active_users]; the relationships are loaded
    from the session's view. *)
Definition summarize_user (seven_days_ago : datetime) (user : User.row)
  : M weekly_frame unit :=
  d <- query (fun d => d) ;;
  let monitored_emails := monitored_emails_of d user in
  let total_monitored := len monitored_emails in
  if total_monitored =? 0 then ret tt
  else
    let t := tally_user d seven_days_ago monitored_emails in
    send_weekly_summary (mkDigest (User.email user) total_monitored
                           (breaches_seen t) (new_seen t) (highest_score t)) ;;
    frame <- get_local ;;
    put_local (mkWeekly (total_users_notified frame + 1) (digest_outbox frame)).

(** [send_weekly_summaries], the task body, started with
    [total_users_notified = 0]. *)
Definition send_weekly_summaries : M weekly_frame weekly_result :=
  with_get_db
    (try_except
       (active_users <- query (fun d => filter User.is_active (users d)) ;;
        current <- now env ;;
        let seven_days_ago := seven_days_before current in
        for_each active_users (summarize_user seven_days_ago) ;;
        frame <- get_local ;;
        ret (WeeklyDone (total_users_notified frame)))
       (fun e =>
          frame <- get_local ;;
          ret (WeeklyFailed (total_users_notified frame) e))).

End WithEnv.
End PeriodicTasks.

(* ================================================================== *)
(** * backend/api/routes and backend/database/connection.py *)
(* ================================================================== *)

Module Routes.

(** What a route hands back: the body of its response, or the
    [HTTPException] it raised, by its status code. *)
Inductive response (A : Type) : Type :=
| Returned (body : A)
| HTTPException (status_code : Z).
Arguments Returned {A} body.
Arguments HTTPException {A} status_code.

(** [get_current_user], the mock dependency: the user of key 1. *)
Definition get_current_user : nat := 1%nat.

(** [query(BreachEvent).join(MonitoredEmail).filter(BreachEvent.id == breach_id,
    MonitoredEmail.user_id == user_id).first()] *)
Definition owned_breach (d : Db) (breach_id user_id : nat) : option BreachEvent.row :=
  find (fun b =>
          Nat.eqb (BreachEvent.id b) breach_id
          && existsb (fun m =>
                        Nat.eqb (MonitoredEmail.id m) (BreachEvent.monitored_email_id b)
                        && Nat.eqb (MonitoredEmail.user_id m) user_id)
                     (monitored_emails d))
       (breach_events d).

(** [query(MonitoredEmail).filter(MonitoredEmail.id == email_id,
    MonitoredEmail.user_id == user_id).first()] *)
Definition owned_email (d : Db) (email_id user_id : nat) : option MonitoredEmail.row :=
  find (fun m => Nat.eqb (MonitoredEmail.id m) email_id
                 && Nat.eqb (MonitoredEmail.user_id m) user_id)
       (monitored_emails d).

(** [email.is_active = False] *)
Definition deactivate (r : MonitoredEmail.row) : MonitoredEmail.row :=
  MonitoredEmail.mk (MonitoredEmail.id r) (MonitoredEmail.email_encrypted r)
    (MonitoredEmail.email_preview r) (MonitoredEmail.user_id r) false
    (MonitoredEmail.last_scanned_at r) (MonitoredEmail.scan_count r).




(** The body of [BreachStatsResponse]. *)
Record BreachStats := mkBreachStats {
  total_breaches : Z;
  critical_count : Z;
  high_count : Z;
  medium_count : Z;
  low_count : Z;
  emails_monitored : Z;
  newest_breach_date : option datetime;
  risk_score : Z
}.

(** [sum(1 for b in breaches if b.severity == label)] *)
Definition count_severity (label : string) (breaches : list BreachEvent.row) : Z :=
  len (filter (fun b => str_eqb (BreachEvent.severity b) (lit label)) breaches).

(** [max(breaches, key=lambda b: b.detected_at)]: the first of the latest. *)
Fixpoint latest (best : BreachEvent.row) (breaches : list BreachEvent.row)
  : BreachEvent.row :=
  match breaches with
  | [] => best
  | b :: rest =>
      latest (if Nat.ltb (BreachEvent.detected_at best) (BreachEvent.detected_at b)
              then b else best) rest
  end.

(** [query(BreachEvent).join(MonitoredEmail).filter(MonitoredEmail.user_id ==
    user_id).all()] *)
Definition breaches_of_user (d : Db) (user_id : nat) : list BreachEvent.row :=
  filter (fun b =>
            existsb (fun m =>
                       Nat.eqb (MonitoredEmail.id m) (BreachEvent.monitored_email_id b)
                       && Nat.eqb (MonitoredEmail.user_id m) user_id)
                    (monitored_emails d))
         (breach_events d).

(** The computation of [get_breach_stats] on the rows it loaded. *)
Definition breach_stats (d : Db) (user_id : nat) : BreachStats :=
  let emails_monitored :=
    len (filter (fun m => Nat.eqb (MonitoredEmail.user_id m) user_id
                          && MonitoredEmail.is_active m)
                (monitored_emails d)) in
  let breaches := breaches_of_user d user_id in
  let total_breaches := len breaches in
  let critical_count := count_severity "CRITICAL" breaches in
  let high_count := count_severity "HIGH" breaches in
  let medium_count := count_severity "MEDIUM" breaches in
  let low_count := count_severity "LOW" breaches in
  let newest_breach_date :=
    match breaches with
    | [] => None
    | b :: rest => Some (BreachEvent.detected_at (latest b rest))
    end in
  let raw_risk_score :=
    critical_count * 25 + high_count * 10 + medium_count * 5 + low_count * 1 in
  let risk_score := Z.min raw_risk_score 100 in
  mkBreachStats total_breaches critical_count high_count medium_count low_count
                emails_monitored newest_breach_date risk_score.

Section WithEnv.
Variable env : Env.
Context {L : Type}.

(** [Depends(get_db_session)] around a route: a fresh session, committed
    when the route returns, rolled back when it raises, closed on the way
    out. *)
Definition with_get_db_session {A} (route : M L (response A)) : M L (response A) :=
  with_get_db
    (try_except
       (r <- route ;;
        match r with
        | Returned _ => commit env ;; ret r
        | HTTPException _ => rollback ;; ret r
        end)
       (fun e => rollback ;; raise e)).

(** [resend_breach_alert]; the task id of the response is the broker's. *)
Definition resend_breach_alert (breach_id : nat) : M L (response str) :=
  with_get_db_session
    (breach <- query (fun d => owned_breach d breach_id get_current_user) ;;
     match breach with
     | None => ret (HTTPException 404)
     | Some b =>
         delay env (BreachEvent.id b) ;;
         ret (Returned (lit "Alert dispatch queued successfully."))
     end).

(** [stop_monitoring_email] *)
Definition stop_monitoring_email (email_id : nat) : M L (response unit) :=
  with_get_db_session
    (email <- query (fun d => owned_email d email_id get_current_user) ;;
     match email with
     | None => ret (HTTPException 404)
     | Some m =>
         change (fun d => update_monitored_email d (MonitoredEmail.id m) deactivate) ;;
         commit env ;;
         ret (Returned tt)
     end).


(** [get_breach_stats] *)
Definition get_breach_stats : M L (response BreachStats) :=
  with_get_db_session
    (d <- query (fun d => d) ;;
     ret (Returned (breach_stats d get_current_user))).

End WithEnv.
End Routes.

(* ================================================================== *)
(** * The vocabulary of the statements *)
(* ================================================================== *)

(** ** The SMS body *)

Module SmsBodySpec.
Import SmsBody.

(** The fixed text of the body, on either side of the breach name. *)
Definition boilerplate_head (severity email_preview : str) : str :=
  lit "[BreachShield] " ++ severity ++ lit " ALERT: " ++ email_preview ++ lit " found in ".

Definition boilerplate_tail : str :=
  lit " breach. Change your password NOW. Reply STOP to unsubscribe.".

(** No [{] and no [}]: the strings [format] copies unchanged. *)
Definition brace_free (s : str) : bool :=
  forallb (fun c => negb (N.eqb c left_brace) && negb (N.eqb c right_brace)) s.

(** The room [build_sms_message] computes for the breach name. *)
Definition room (severity email_preview : str) : Z :=
  66 - len severity - len email_preview.

(** The name as the body shows it: whole when it fits, else cut three short
    of the room and closed by an ellipsis. *)
Definition shown_name (breach_name severity email_preview : str) : str :=
  if room severity email_preview <? len breach_name
  then slice_to breach_name (room severity email_preview - 3) ++ lit "..."
  else breach_name.

End SmsBodySpec.

(** ** The severity score *)

Module SeverityEngineSpec.
Import SeverityEngine.

Fixpoint total_weight (cs : list str) : Z :=
  match cs with
  | [] => 0
  | c :: rest => weight_of c + total_weight rest
  end.

(** The score field, as a function of the summed weight and of the
    allowlist test. *)
Definition final_score (raw : Z) (critical : bool) : Z :=
  let s := Z.min raw 100 in
  if critical || (25 <=? s) then Z.max s 25 else s.

(** The reading of the specification's sentence on the top-risk category,
    kept apart from the code: the first category of greatest weight among the
    recognized ones (the keys of [DATA_CLASS_WEIGHTS]). *)
Fixpoint first_heaviest (best : option str) (cs : list str) : option str :=
  match cs with
  | [] => best
  | c :: rest =>
      match best with
      | None => first_heaviest (Some c) rest
      | Some b => first_heaviest (if weight_of b <? weight_of c then Some c else Some b) rest
      end
  end.

Definition spec_top_risk_of_matches (data_classes : list str) : option str :=
  first_heaviest None (filter (dict_mem DATA_CLASS_WEIGHTS) data_classes).

End SeverityEngineSpec.

(** ** Runs *)

Module RunSpec.

(** [wp m Q w l]: running [m] from the world [w] with the locals [l] ends in
    an outcome, a world and locals that satisfy [Q]. *)
Definition wp {L A} (m : M L A) (Q : outcome A -> World -> L -> Prop)
    (w : World) (l : L) : Prop :=
  Q (fst (m (w, l))) (fst (snd (m (w, l)))) (snd (snd (m (w, l)))).

(** The session's two stores are left as they were. *)
Definition db_kept (w w' : World) : Prop :=
  store w' = store w /\ pending w' = pending w.

(** What [generate_remediation] does to the session: it touches the cache
    table only, and either leaves the transaction as it is, or commits it,
    or, when the store refuses the new cache row, rolls it back. *)
Inductive advisor_effect (w w' : World) : Prop :=
| advisor_kept :
    breach_events (pending w') = breach_events (pending w) ->
    store w' = store w \/ store w' = pending w' ->
    advisor_effect w w'
| advisor_rolled_back :
    store w' = store w -> pending w' = store w -> advisor_effect w w'.

Definition store_never_refuses (env : Env) : Prop :=
  forall t, store_accepts env t = true.

End RunSpec.

(** ** Alert dispatch *)

Module DispatchSpec.
Import ScanTasks.

Definition dispatch_post (id : nat) (w : World) (r : outcome dispatch_result) (w' : World)
  : Prop :=
  match breach_event_by_id (store w) id with
  | None => r = Ok (Dispatched id []) /\ w' = with_pending w (store w)
  | Some be =>
      if BreachEvent.is_notified be
      then r = Ok (Dispatched id []) /\ w' = with_pending w (store w)
      else (exists e, r = Raise e /\ store w' = store w)
           \/ (exists ch t,
                 r = Ok (Dispatched id ch)
                 /\ breach_events (store w')
                    = breach_events (update_breach_event (store w) id
                                       (BreachEvent.mark_notified t)))
  end.

End DispatchSpec.

(** ** Ingestion *)

Module ScanSpec.
Import ScanTasks RunSpec.

(** A row a scan of identity [id] may add to the events of [s0]: it is of
    that identity, not notified, and [s0] has no event of its name for the
    identity. *)
Definition fresh_row (s0 : Db) (id : nat) (r : BreachEvent.row) : Prop :=
  BreachEvent.monitored_email_id r = id
  /\ BreachEvent.is_notified r = false
  /\ breach_event_by_name s0 id (BreachEvent.breach_name r) = None.

Definition fresh_rows (s0 : Db) (id : nat) (added : list BreachEvent.row) : Prop :=
  Forall (fresh_row s0 id) added /\ NoDup (map BreachEvent.breach_name added).

(** The events of the store and of the session during a scan that started
    from [s0]: those of [s0], then the rows already committed, then, in the
    session only, the rows not committed yet. *)
Definition scan_inv (s0 : Db) (id : nat) (w : World) : Prop :=
  exists committed uncommitted,
    breach_events (store w) = breach_events s0 ++ committed
    /\ breach_events (pending w) = breach_events s0 ++ committed ++ uncommitted
    /\ fresh_rows s0 id (committed ++ uncommitted).

Definition absent (d : Db) (id : nat) (name : str) : Prop :=
  breach_event_by_name d id name = None.





(** The identity is not scanned: it is missing or inactive. *)
Definition not_scanned (d : Db) (id : nat) : Prop :=
  match monitored_email_by_id d id with
  | None => True
  | Some me => MonitoredEmail.is_active me = false
  end.




End ScanSpec.

(** ** The notification state *)

Module NotificationSpec.

(** The event of key [i] is NOTIFIED in [d]. *)
Definition notified_in (d : Db) (i : nat) : Prop :=
  exists r, In r (breach_events d)
            /\ BreachEvent.id r = i /\ BreachEvent.is_notified r = true.


End NotificationSpec.

(** ** The order of the cache key *)

Module CacheKeySpec.
Import LLMAdvisor.

Definition ascending : list str -> Prop :=
  Sorted (fun a b => str_leb a b = true).

End CacheKeySpec.

(** ** The severity ladder *)

Module SeverityLadderSpec.
Import SeverityEngine.

(** The label the thresholds give a score. *)
Definition label_of_score (s : Z) : str :=
  if threshold "CRITICAL" <=? s then lit "CRITICAL"
  else if threshold "HIGH" <=? s then lit "HIGH"
  else if threshold "MEDIUM" <=? s then lit "MEDIUM"
  else lit "LOW".

Definition recognized (c : str) : bool := dict_mem DATA_CLASS_WEIGHTS c.

End SeverityLadderSpec.

(** ** The breach feed *)

Module FeedSpec.

(** The reply that decides a lookup started at the instant [t]: the first
    one, or the second one when the first is a 429. *)
Definition deciding_reply (env : Env) (t : nat) (email : str) : http_reply :=
  match http_get env t email with
  | Response c json => if c =? 429 then http_get env (S t) email else Response c json
  | RequestError => RequestError
  end.

Definition rate_limited (r : http_reply) : bool :=
  match r with
  | Response c _ => c =? 429
  | RequestError => false
  end.

End FeedSpec.

(** ** The advisor *)

Module AdvisorSpec.

(** The collaborators of [env] with another text generator. *)
Definition with_generator (env : Env) (g : nat -> str -> list str -> option str) : Env :=
  mkEnv (decrypt_email env) (http_get env) (strptime_date env) (strftime_date env)
        (sha256_hexdigest env) g (sendgrid_send env) (twilio_create env) (isdigit env)
        (TWILIO_FROM_NUMBER env) (store_accepts env) (broker_accepts env) (utcnow env)
        (task_retry env).

End AdvisorSpec.

(** ** What a scan leaves behind *)

Module ScanFrameSpec.
Import ScanTasks RunSpec.

(** An event as [process_single_email] creates it: scored by
    [calculate_severity] on its own data classes, not notified, with a
    remediation text. *)
Definition scored (r : BreachEvent.row) : Prop :=
  BreachEvent.severity r
  = SeverityEngine.label (SeverityEngine.calculate_severity (BreachEvent.data_classes r))
  /\ BreachEvent.severity_score r
     = SeverityEngine.score (SeverityEngine.calculate_severity (BreachEvent.data_classes r))
  /\ BreachEvent.is_notified r = false
  /\ BreachEvent.notified_at r = None
  /\ BreachEvent.remediation_text r <> None.

(** The tables a scan and the advisor never write. *)
Definition tables_kept (d0 d : Db) : Prop :=
  users d = users d0
  /\ monitored_emails d = monitored_emails d0
  /\ alert_logs d = alert_logs d0.

Definition channels_kept (w0 w : World) : Prop :=
  email_outbox w = email_outbox w0 /\ sms_outbox w = sms_outbox w0.

(** Two views that differ in the remediation cache at most. *)
Definition same_but_cache (d d' : Db) : Prop :=
  users d' = users d
  /\ monitored_emails d' = monitored_emails d
  /\ breach_events d' = breach_events d
  /\ alert_logs d' = alert_logs d.

(** What [generate_remediation] does to the world: it writes the cache
    table only, and either leaves the transaction open, or commits it, or,
    when the store refused a write, rolls it back. *)
Definition advisor_step (env : Env) (w w' : World) : Prop :=
  queue w' = queue w /\ channels_kept w w'
  /\ ((same_but_cache (pending w) (pending w')
       /\ (store w' = store w \/ store w' = pending w'))
      \/ (store w' = store w /\ pending w' = store w
          /\ exists t, store_accepts env t = false)).

(** The primary key of the events: no two rows share an [id]. *)
Definition keys_distinct (d : Db) : Prop :=
  NoDup (map BreachEvent.id (breach_events d)).

(** The state of a scan started from [w0], between two breaches, with
    [count] the local of that name: the jobs it enqueued, one per counted
    breach, and the events it added, committed or not. *)
Definition scan_frame (env : Env) (w0 w : World) (count : Z) : Prop :=
  tables_kept (store w0) (store w) /\ tables_kept (store w0) (pending w)
  /\ channels_kept w0 w
  /\ (keys_distinct (store w0) -> keys_distinct (store w) /\ keys_distinct (pending w))
  /\ exists jobs committed uncommitted,
       queue w = queue w0 ++ jobs /\ len jobs = count
       /\ breach_events (store w) = breach_events (store w0) ++ committed
       /\ breach_events (pending w) = breach_events (store w0) ++ committed ++ uncommitted
       /\ Forall scored (committed ++ uncommitted)
       /\ len (committed ++ uncommitted) <= count
       /\ (store_never_refuses env ->
           jobs = map BreachEvent.id (committed ++ uncommitted)).

(** The same at a raise, where the handler is about to roll back: the
    events that reached the store are no more than the jobs enqueued. *)
Definition scan_frame_raised (w0 w : World) : Prop :=
  tables_kept (store w0) (store w)
  /\ channels_kept w0 w
  /\ (keys_distinct (store w0) -> keys_distinct (store w))
  /\ exists jobs committed,
       queue w = queue w0 ++ jobs
       /\ breach_events (store w) = breach_events (store w0) ++ committed
       /\ Forall scored committed
       /\ len committed <= len jobs.

(** What a scan leaves behind. *)
Definition scan_post (env : Env) (id : nat) (w : World)
    (r : outcome scan_result) (w' : World) : Prop :=
  users (store w') = users (store w)
  /\ alert_logs (store w') = alert_logs (store w)
  /\ channels_kept w w'
  /\ pending w' = store w'
  /\ (keys_distinct (store w) -> keys_distinct (store w'))
  /\ exists jobs added,
       queue w' = queue w ++ jobs
       /\ breach_events (store w') = breach_events (store w) ++ added
       /\ Forall scored added
       /\ ((exists n, r = Ok (ScanDone id n)
              /\ len jobs = n /\ len added <= n
              /\ (store_never_refuses env -> jobs = map BreachEvent.id added)
              /\ match monitored_email_by_id (store w) id with
                 | None => store w' = store w /\ n = 0
                 | Some me =>
                     if MonitoredEmail.is_active me
                     then exists t,
                            monitored_emails (store w')
                            = monitored_emails
                                (update_monitored_email (store w) id
                                   (MonitoredEmail.mark_scanned t))
                     else store w' = store w /\ n = 0
                 end)
           \/ (exists e, r = Raise e
                 /\ len added <= len jobs
                 /\ monitored_emails (store w') = monitored_emails (store w))).

End ScanFrameSpec.

(** ** What a dispatch leaves behind *)

Module DispatchFrameSpec.
Import ScanTasks.

(** The channels of the delivery records whose status is sent. *)
Definition sent_channels (logs : list AlertLog.row) : list str :=
  map AlertLog.channel
      (filter (fun a => str_eqb (AlertLog.status a) (lit "sent")) logs).

(** Who a delivery record is about: its channel and its recipient. *)
Definition addressed (a : AlertLog.row) : str * str :=
  (AlertLog.channel a, AlertLog.recipient a).

(** The records a dispatch that ran to its end leaves for an owner: one
    for the email channel, and one for the SMS channel when the owner has a
    phone number. *)
Definition attempts_for (owner : User.row) : list (str * str) :=
  (lit "email", User.email owner)
  :: match truthy (User.phone_number owner) with
     | Some phone_number => [(lit "sms", phone_number)]
     | None => []
     end.

(** What a dispatch did outside the store: the mails and the text messages
    it handed to the two providers, each to an address or a number of a
    user. *)
Definition handed_over (w w' : World) (mails : list EmailCall) (texts : list SmsCall)
  : Prop :=
  email_outbox w' = email_outbox w ++ mails /\ (length mails <= 1)%nat
  /\ sms_outbox w' = sms_outbox w ++ texts /\ (length texts <= 1)%nat
  /\ Forall (fun m => exists u, In u (users (store w)) /\ to_email m = User.email u) mails
  /\ Forall (fun t => exists u, In u (users (store w))
                                /\ User.phone_number u = Some (to t)) texts.

(** What a dispatch leaves behind. *)
Definition dispatch_frame (id : nat) (w : World)
    (r : outcome dispatch_result) (w' : World) : Prop :=
  users (store w') = users (store w)
  /\ monitored_emails (store w') = monitored_emails (store w)
  /\ remediation_cache (store w') = remediation_cache (store w)
  /\ queue w' = queue w
  /\ pending w' = store w'
  /\ exists mails texts logs,
       handed_over w w' mails texts
       /\ alert_logs (store w') = alert_logs (store w) ++ logs
       /\ Forall (fun a => AlertLog.breach_event_id a = id) logs
       /\ ((exists ch,
              r = Ok (Dispatched id ch) /\ ch = sent_channels logs
              /\ match breach_event_by_id (store w) id with
                 | None => logs = [] /\ mails = [] /\ texts = []
                 | Some be =>
                     if BreachEvent.is_notified be
                     then logs = [] /\ mails = [] /\ texts = []
                     else exists owner,
                            In owner (users (store w))
                            /\ map addressed logs = attempts_for owner
                            /\ length mails = 1%nat
                 end)
           \/ (exists e, r = Raise e /\ logs = [] /\ store w' = store w)).

End DispatchFrameSpec.

(** ** The periodic tasks *)

Module PeriodicSpec.
Import PeriodicTasks.

(** The events of all the monitored emails of a user, active or not. *)
Definition events_of_user (d : Db) (user : User.row) : list BreachEvent.row :=
  flat_map (breach_events_of d) (monitored_emails_of d user).

Definition detected_since (seven_days_ago : datetime) (b : BreachEvent.row) : bool :=
  Nat.leb seven_days_ago (BreachEvent.detected_at b).

(** The greatest of the scores, and 0 when there is none above it. *)
Definition highest_of (scores : list Z) : Z := fold_left Z.max scores 0.

(** The digest of a user, from the tables. *)
Definition digest_of (d : Db) (seven_days_ago : datetime) (user : User.row) : Digest :=
  mkDigest (User.email user)
           (len (monitored_emails_of d user))
           (len (events_of_user d user))
           (len (filter (detected_since seven_days_ago) (events_of_user d user)))
           (highest_of (map BreachEvent.severity_score (events_of_user d user))).

(** The user has a monitored email, active or not. *)
Definition has_monitored (d : Db) (u : User.row) : bool :=
  negb (len (monitored_emails_of d u) =? 0).

(** The users a weekly run writes to: the active ones with a monitored
    email. *)
Definition digest_recipients (d : Db) : list User.row :=
  filter (has_monitored d) (filter User.is_active (users d)).

(** What the steps of a weekly run leave alone. *)
Definition world_kept (w w' : World) : Prop :=
  store w' = store w /\ pending w' = pending w /\ queue w' = queue w
  /\ email_outbox w' = email_outbox w /\ sms_outbox w' = sms_outbox w.

(** The keys of the active identities, in the order of the table. *)
Definition active_ids (d : Db) : list nat :=
  map MonitoredEmail.id (filter MonitoredEmail.is_active (monitored_emails d)).

Definition broker_never_refuses (env : Env) : Prop :=
  forall t, broker_accepts env t = true.

End PeriodicSpec.

(* ================================================================== *)
(** * A test environment *)
(* ================================================================== *)

Module Fixture.

(** [str.isdigit] on ASCII digits. *)
Definition ascii_digits (s : str) : bool :=
  match s with
  | [] => false
  | _ => forallb (fun c => (48 <=? c)%N && (c <=? 57)%N) s
  end.

(** Two breaches the feed lists for the identity. *)
Definition breach_a : RawBreach :=
  mkRawBreach (Some (lit "Adobe")) (Some (lit "adobe.com")) (Some (lit "2013-10-04"))
    (Some 152445165) (Some [lit "Email addresses"; lit "Passwords"])
    (Some true) (Some false) (Some false).

Definition breach_b : RawBreach :=
  mkRawBreach (Some (lit "Canva")) (Some (lit "canva.com")) (Some (lit "2019-05-24"))
    (Some 137272116) (Some [lit "Names"; lit "Usernames"])
    (Some true) (Some false) (Some false).

(** Collaborators that answer: the feed lists the two breaches, the text
    generator succeeds, the mail provider answers 500, the SMS provider
    accepts, decryption and the digest are the identity; the store and the
    broker follow the two scripts given.  The tasks are called directly, so
    a retry raises the exception it is given. *)
Definition env_scripted (store_script broker_script : nat -> bool) : Env :=
  mkEnv (fun s => Some s)
        (fun _ _ => Response 200 [breach_a; breach_b])
        (fun _ => Some 0%nat)
        (fun _ => lit "2013-10-04")
        (fun bytes => bytes)
        (fun _ _ _ => Some (lit "1. Change your password."))
        (fun _ _ => MailResponse 500)
        (fun _ _ => SmsCreated (lit "SM1"))
        ascii_digits
        (lit "+15550100")
        store_script
        broker_script
        (fun t => t)
        (fun e => e).

(** The store never refuses; the broker takes jobs until the instant
    [broker_down]. *)
Definition env_with (broker_down : nat) : Env :=
  env_scripted (fun _ => true) (fun t => Nat.ltb t broker_down).

(** The broker is up; the store refuses the write made at the instant
    [refused]. *)
Definition env_refusing (refused : nat) : Env :=
  env_scripted (fun t => negb (Nat.eqb t refused)) (fun _ => true).

(** The collaborators of [env] for a task run by a worker with retries
    left: a retry sends the task again and raises the signal of the task
    queue. *)
Definition in_worker (env : Env) : Env :=
  mkEnv (decrypt_email env) (http_get env) (strptime_date env) (strftime_date env)
        (sha256_hexdigest env) (claude_create env) (sendgrid_send env)
        (twilio_create env) (isdigit env) (TWILIO_FROM_NUMBER env)
        (store_accepts env) (broker_accepts env) (utcnow env)
        (fun _ => Retry).

(** The two channel providers raise. *)
Definition env_failing_channels : Env :=
  mkEnv (fun s => Some s)
        (fun _ _ => Response 200 [breach_a; breach_b])
        (fun _ => Some 0%nat)
        (fun _ => lit "2013-10-04")
        (fun bytes => bytes)
        (fun _ _ _ => Some (lit "1. Change your password."))
        (fun _ _ => MailRaises (lit "HTTP Error 401: Unauthorized"))
        (fun _ _ => SmsRaises (lit "Unable to create record"))
        ascii_digits
        (lit "+15550100")
        (fun _ => true)
        (fun _ => true)
        (fun t => t)
        (fun e => e).

(** One user, one active identity never scanned, no event. *)
Definition owner : User.row := User.mk 1 (lit "owner@example.org") true None.

Definition identity : MonitoredEmail.row :=
  MonitoredEmail.mk 1 (lit "john@gmail.com") (lit "joh***@gmail.com") 1 true None 0.

Definition db0 : Db := mkDb [owner] [identity] [] [] [].

Definition world_of (d : Db) : World := mkWorld d d 0 [] [] [].

(** An owner with a phone on file and one CRITICAL event, notified or not. *)
Definition owner_with_phone : User.row :=
  User.mk 1 (lit "owner@example.org") true (Some (lit "+15550123")).

Definition adobe_event (notified : bool) : BreachEvent.row :=
  BreachEvent.mk 1 1 (lit "Adobe") (lit "adobe.com") (Some 0%nat) 3%nat
    [lit "Email addresses"; lit "Passwords"] 152445165 (lit "CRITICAL") 30
    true notified (if notified then Some 7%nat else None) false false
    (Some (lit "1. Change your password.")).

Definition db_with_event (notified : bool) : Db :=
  mkDb [owner_with_phone] [identity] [adobe_event notified] [] [].

End Fixture.

Module AdvisorFixture.
Import Fixture.

(** The advice on the Adobe breach, cached once. *)
Definition adobe_advice : RemediationCache.row :=
  RemediationCache.mk 1 (lit "Adobe|Email addresses,Passwords") (lit "Adobe")
    [lit "Email addresses"; lit "Passwords"] (lit "1. Change your password.") 1.

Definition db_with_advice : Db := mkDb [owner] [identity] [] [] [adobe_advice].

(** The collaborators of [env_with], with a text generator that raises. *)
Definition env_generator_down : Env :=
  AdvisorSpec.with_generator (env_with 100) (fun _ _ _ => None).

End AdvisorFixture.

Module RouteFixture.
Import Fixture.

(** The notified Adobe event of the owner, with its advice in the cache. *)
Definition db_with_notified_event : Db :=
  mkDb [owner_with_phone] [identity] [adobe_event true] []
       [AdvisorFixture.adobe_advice].

End RouteFixture.

(* ================================================================== *)
(** * Theorems *)
(* ================================================================== *)

(** ** Strings and dicts *)

Module PyFacts.

Lemma str_eqb_eq (a b : str) : str_eqb a b = true <-> a = b.
Proof.
  revert b; induction a as [|x a IH]; intros [|y b]; simpl; split; intro H;
    try discriminate; try reflexivity.
  - apply andb_true_iff in H as [Hx Hs].
    apply N.eqb_eq in Hx. apply IH in Hs. now subst.
  - injection H as -> ->. apply andb_true_iff. split.
    + apply N.eqb_refl.
    + now apply IH.
Qed.

Lemma str_eqb_refl (a : str) : str_eqb a a = true.
Proof. now apply str_eqb_eq. Qed.

Lemma contains_In (xs : list str) (x : str) : contains xs x = true <-> In x xs.
Proof.
  unfold contains. rewrite existsb_exists. split.
  - intros [y [Hy He]]. apply str_eqb_eq in He. now subst.
  - intro H. exists x. split; [assumption | apply str_eqb_refl].
Qed.

Lemma dict_get_default_Forall {V} (P : V -> Prop) (d : dict V) (k : str) (dflt : V) :
  Forall (fun kv => P (snd kv)) d -> P dflt -> P (dict_get_default d k dflt).
Proof.
  unfold dict_get_default. intros Hd Hdflt.
  induction Hd as [|[k' v] d' Hv _ IH]; simpl; [assumption|].
  destruct (str_eqb k k'); [exact Hv | exact IH].
Qed.

End PyFacts.

Module SmsBodyFacts.
Import SmsBody SmsBodySpec.

Lemma base_structure_split (severity email_preview : str) :
  base_structure severity email_preview
  = boilerplate_head severity email_preview
    ++ left_brace :: right_brace :: boilerplate_tail.
Proof.
  unfold base_structure, boilerplate_head. rewrite <- !app_assoc. reflexivity.
Qed.

Lemma brace_free_app (a b : str) :
  brace_free (a ++ b) = brace_free a && brace_free b.
Proof. unfold brace_free. apply forallb_app. Qed.

Lemma format_with_brace_free (used : bool) (arg s : str) :
  brace_free s = true -> format_with used arg s = Ok s.
Proof.
  induction s as [|c s IH]; [reflexivity|]. intro H.
  cbn [brace_free forallb] in H.
  apply andb_true_iff in H as [Hc Hs]. apply andb_true_iff in Hc as [Hl Hr].
  apply negb_true_iff in Hl, Hr.
  cbn [format_with]. rewrite Hl, Hr, (IH Hs). reflexivity.
Qed.

Lemma format_with_prefix (used : bool) (arg p t : str) :
  brace_free p = true ->
  format_with used arg (p ++ t)
  = match format_with used arg t with
    | Ok s => Ok (p ++ s)
    | Raise e => Raise e
    end.
Proof.
  induction p as [|c p IH]; intro H.
  - simpl. destruct (format_with used arg t); reflexivity.
  - cbn [brace_free forallb] in H.
    apply andb_true_iff in H as [Hc Hp]. apply andb_true_iff in Hc as [Hl Hr].
    apply negb_true_iff in Hl, Hr.
    change ((c :: p) ++ t) with (c :: (p ++ t)).
    cbn [format_with]. rewrite Hl, Hr, (IH Hp).
    destruct (format_with used arg t); reflexivity.
Qed.

Lemma format_base_structure (severity email_preview arg : str) :
  brace_free severity = true -> brace_free email_preview = true ->
  format (base_structure severity email_preview) arg
  = Ok (boilerplate_head severity email_preview ++ arg ++ boilerplate_tail).
Proof.
  intros Hs Hp. unfold format. rewrite base_structure_split.
  rewrite format_with_prefix.
  - cbn [format_with]. change (N.eqb left_brace left_brace) with true.
    change (N.eqb right_brace left_brace) with false.
    change (N.eqb right_brace right_brace) with true.
    cbn iota. rewrite format_with_brace_free; reflexivity.
  - unfold boilerplate_head. rewrite !brace_free_app, Hs, Hp. reflexivity.
Qed.

Lemma len_app {A} (a b : list A) : len (a ++ b) = len a + len b.
Proof. unfold len. rewrite length_app. lia. Qed.

Lemma len_nonneg {A} (a : list A) : 0 <= len a.
Proof. unfold len. lia. Qed.

Lemma len_base_structure (severity email_preview : str) :
  len (base_structure severity email_preview) = 96 + len severity + len email_preview.
Proof.
  unfold base_structure. rewrite !len_app.
  change (len (lit "[BreachShield] ")) with 15.
  change (len (lit " ALERT: ")) with 8.
  change (len (lit " found in {} breach. Change your password NOW. Reply STOP to unsubscribe."))
    with 73.
  lia.
Qed.

Lemma len_boilerplate (severity email_preview shown : str) :
  len (boilerplate_head severity email_preview ++ shown ++ boilerplate_tail)
  = 94 + len severity + len email_preview + len shown.
Proof.
  unfold boilerplate_head. rewrite !len_app.
  change (len (lit "[BreachShield] ")) with 15.
  change (len (lit " ALERT: ")) with 8.
  change (len (lit " found in ")) with 10.
  change (len boilerplate_tail) with 61.
  lia.
Qed.

Lemma len_slice_to_nonneg {A} (s : list A) (k : Z) :
  0 <= k -> k <= len s -> len (slice_to s k) = k.
Proof.
  intros H0 Hk. unfold slice_to.
  destruct (0 <=? k) eqn:E; [|apply Z.leb_gt in E; lia].
  unfold len in *. rewrite length_firstn. lia.
Qed.

Lemma build_sms_message_unfold (breach_name severity email_preview : str) :
  brace_free severity = true -> brace_free email_preview = true ->
  build_sms_message breach_name severity email_preview
  = let message := boilerplate_head severity email_preview
                   ++ shown_name breach_name severity email_preview
                   ++ boilerplate_tail in
    if len message <=? 160 then Ok message else Raise AssertionError.
Proof.
  intros Hs Hp. unfold build_sms_message, shown_name, room.
  rewrite len_base_structure.
  replace (160 - (96 + len severity + len email_preview - 2))
    with (66 - len severity - len email_preview) by lia.
  destruct (66 - len severity - len email_preview <? len breach_name);
    rewrite format_base_structure by assumption; reflexivity.
Qed.

(** C1, as the code has it: when the severity and the preview hold no
    format brace and leave at least three characters of room for the name
    (their lengths sum to 63 at most), or the name fits the room as it is,
    the assertion holds and the body is the boilerplate around the shown
    name, of length 160 at most; a name that does not fit is cut and ends in
    an ellipsis. *)
Theorem build_sms_message_capped (breach_name severity email_preview : str) :
  brace_free severity = true -> brace_free email_preview = true ->
  len severity + len email_preview <= 63
  \/ len breach_name <= room severity email_preview ->
  let shown := shown_name breach_name severity email_preview in
  let message := boilerplate_head severity email_preview ++ shown ++ boilerplate_tail in
  build_sms_message breach_name severity email_preview = Ok message
  /\ len message <= 160
  /\ (room severity email_preview < len breach_name ->
      shown = slice_to breach_name (room severity email_preview - 3) ++ lit "..."
      /\ len message = 160)
  /\ (len breach_name <= room severity email_preview -> shown = breach_name).
Proof.
  intros Hs Hp Hroom shown message.
  assert (Hlen : len message <= 160
                 /\ (room severity email_preview < len breach_name -> len message = 160)).
  { subst message shown. rewrite len_boilerplate. unfold shown_name.
    destruct (room severity email_preview <? len breach_name) eqn:E.
    - apply Z.ltb_lt in E. unfold room in *.
      destruct Hroom as [Hroom | Hroom]; [|lia].
      rewrite len_app, len_slice_to_nonneg by lia.
      change (len (lit "...")) with 3. lia.
    - apply Z.ltb_ge in E. unfold room in *. lia. }
  destruct Hlen as [Hle Heq].
  split; [|split; [exact Hle | split]].
  - rewrite build_sms_message_unfold by assumption. cbn zeta.
    fold shown. fold message.
    apply Z.leb_le in Hle. rewrite Hle. reflexivity.
  - intro E. split; [|exact (Heq E)].
    subst shown. unfold shown_name. apply Z.ltb_lt in E. rewrite E. reflexivity.
  - intro E. subst shown. unfold shown_name. apply Z.ltb_ge in E. rewrite E. reflexivity.
Qed.

Lemma build_sms_message_capped_witness :
  let breach_name := lit "Exactis Marketing And Data Aggregation Services" in
  let severity := lit "CRITICAL" in
  let email_preview := lit "joh***@mail.example.org" in
  let shown := shown_name breach_name severity email_preview in
  let message := boilerplate_head severity email_preview ++ shown ++ boilerplate_tail in
  build_sms_message breach_name severity email_preview = Ok message
  /\ len message <= 160
  /\ (room severity email_preview < len breach_name ->
      shown = slice_to breach_name (room severity email_preview - 3) ++ lit "..."
      /\ len message = 160)
  /\ (len breach_name <= room severity email_preview -> shown = breach_name).
Proof.
  apply (build_sms_message_capped
           (lit "Exactis Marketing And Data Aggregation Services")
           (lit "CRITICAL") (lit "joh***@mail.example.org")).
  - reflexivity.
  - reflexivity.
  - left. vm_compute. discriminate.
Defined.

(** Past that room the assertion fails whenever the name needs cutting: the
    slice bound is negative and the ellipsis alone overflows. *)
Lemma build_sms_message_overflow (breach_name severity email_preview : str) :
  brace_free severity = true -> brace_free email_preview = true ->
  63 < len severity + len email_preview ->
  room severity email_preview < len breach_name ->
  build_sms_message breach_name severity email_preview = Raise AssertionError.
Proof.
  intros Hs Hp Hlong Hcut.
  rewrite build_sms_message_unfold by assumption. cbn zeta.
  rewrite len_boilerplate. unfold shown_name.
  apply Z.ltb_lt in Hcut. rewrite Hcut.
  rewrite len_app. change (len (lit "...")) with 3.
  pose proof (len_nonneg (slice_to breach_name (room severity email_preview - 3))).
  destruct (_ <=? 160) eqn:E; [|reflexivity].
  apply Z.leb_le in E. unfold room in *. lia.
Qed.

(** Whatever the arguments, a body that is returned passed the length
    check. *)
Lemma build_sms_message_checked (breach_name severity email_preview message : str) :
  build_sms_message breach_name severity email_preview = Ok message ->
  len message <= 160.
Proof.
  unfold build_sms_message.
  destruct (if _ <? _ then _ else _) as [m|e]; [|discriminate].
  destruct (len m <=? 160) eqn:E; [|discriminate].
  intro H. injection H as <-. now apply Z.leb_le.
Qed.

(** C1, as the specification words it, fails: a 56-character preview with
    the severity CRITICAL leaves two characters of room, the slice bound is
    -1, the name loses its last character only and gains the ellipsis, the
    body is 168 characters long and the assertion fails.  And a preview that
    holds [{}] takes the name for itself and leaves the field of the
    template without an argument. *)
Lemma build_sms_message_assertion_fails :
  let breach_name := lit "LinkedIn" in
  let severity := lit "CRITICAL" in
  let email_preview := lit "joh***@mail.corporate-subsidiary-holdings.example.org.uk" in
  len email_preview = 56
  /\ build_sms_message breach_name severity email_preview = Raise AssertionError
  /\ format (base_structure severity email_preview)
            (slice_to breach_name (room severity email_preview - 3) ++ lit "...")
     = Ok (lit "[BreachShield] CRITICAL ALERT: joh***@mail.corporate-subsidiary-holdings.example.org.uk found in LinkedI... breach. Change your password NOW. Reply STOP to unsubscribe.")
  /\ len (lit "[BreachShield] CRITICAL ALERT: joh***@mail.corporate-subsidiary-holdings.example.org.uk found in LinkedI... breach. Change your password NOW. Reply STOP to unsubscribe.") = 168
  /\ ~ (exists message,
          build_sms_message breach_name severity email_preview = Ok message
          /\ len message <= 160)
  /\ build_sms_message breach_name (lit "HIGH") (lit "{}@example.org")
     = Raise FormatError.
Proof.
  cbv zeta. split; [vm_compute; reflexivity|].
  split; [vm_compute; reflexivity|].
  split; [vm_compute; reflexivity|].
  split; [vm_compute; reflexivity|].
  split; [|vm_compute; reflexivity].
  intros [message [H _]]. vm_compute in H. discriminate.
Qed.

Example sms_linkedin :
  build_sms_message (lit "LinkedIn") (lit "CRITICAL") (lit "joh***@gmail.com")
  = Ok (lit "[BreachShield] CRITICAL ALERT: joh***@gmail.com found in LinkedIn breach. Change your password NOW. Reply STOP to unsubscribe.").
Proof. vm_compute. reflexivity. Qed.

Example sms_long_preview :
  build_sms_message (lit "LinkedIn") (lit "CRITICAL") (repeat 120%N 60) = Raise AssertionError.
Proof. vm_compute. reflexivity. Qed.

Example sms_braces :
  build_sms_message (lit "LinkedIn") (lit "HIGH") (lit "{}@x.org") = Raise FormatError
  /\ build_sms_message (lit "{0}") (lit "HIGH") (lit "a{{@x.org")
     = Ok (lit "[BreachShield] HIGH ALERT: a{@x.org found in {0} breach. Change your password NOW. Reply STOP to unsubscribe.").
Proof. vm_compute. split; reflexivity. Qed.

End SmsBodyFacts.

Module SeverityEngineFacts.
Import SeverityEngine SeverityEngineSpec PyFacts.

(** ** The weights and the scoring loop *)

Lemma weight_of_bounds (c : str) : 1 <= weight_of c <= 25.
Proof.
  unfold weight_of. apply dict_get_default_Forall; [|lia].
  apply Forall_forall. intros kv Hin.
  assert (Hb : forallb (fun kv : str * Z => (1 <=? snd kv) && (snd kv <=? 25))
                 DATA_CLASS_WEIGHTS = true) by (vm_compute; reflexivity).
  rewrite forallb_forall in Hb. specialize (Hb kv Hin).
  apply andb_true_iff in Hb as [H1 H2]. lia.
Qed.

Lemma total_weight_app (a b : list str) :
  total_weight (a ++ b) = total_weight a + total_weight b.
Proof. induction a as [|c a IH]; simpl; lia. Qed.

Lemma total_weight_nonneg (cs : list str) : 0 <= total_weight cs.
Proof.
  induction cs as [|c cs IH]; simpl; [lia|].
  pose proof (weight_of_bounds c). lia.
Qed.

Lemma raw_score_fold (cs : list str) (st : scan) :
  raw_score (fold_left scan_class cs st) = raw_score st + total_weight cs.
Proof.
  revert st; induction cs as [|c cs IH]; intro st; simpl; [lia|].
  rewrite IH. unfold scan_class.
  destruct (highest_weight st <? weight_of c); simpl; lia.
Qed.

Lemma is_critical_breach_true (cs : list str) :
  is_critical_breach cs = true <-> exists c, In c cs /\ In c critical_types.
Proof.
  induction cs as [|c cs IH].
  - simpl. split; [discriminate | intros [c [[] _]]].
  - change (is_critical_breach (c :: cs))
      with (if contains critical_types c then true else is_critical_breach cs).
    destruct (contains critical_types c) eqn:Hc.
    + split; [|reflexivity]. intros _. exists c. split; [now left|].
      now apply contains_In.
    + rewrite IH. split.
      * intros [d [Hd Hcrit]]. exists d. split; [now right | assumption].
      * intros [d [[->|Hd] Hcrit]].
        -- apply contains_In in Hcrit. congruence.
        -- exists d. now split.
Qed.

Lemma is_critical_breach_app (a b : list str) :
  is_critical_breach a = true -> is_critical_breach (a ++ b) = true.
Proof.
  rewrite !is_critical_breach_true. intros [c [Hin Hcrit]].
  exists c. split; [apply in_or_app; now left | assumption].
Qed.

Lemma score_calculate_severity (c : str) (cs : list str) :
  score (calculate_severity (c :: cs))
  = final_score (total_weight (c :: cs)) (is_critical_breach (c :: cs)).
Proof.
  unfold calculate_severity, final_score.
  rewrite raw_score_fold.
  change (raw_score scan_init) with 0. rewrite Z.add_0_l.
  change (threshold "CRITICAL") with 25.
  change (threshold "HIGH") with 12.
  change (threshold "MEDIUM") with 6.
  set (raw := total_weight (c :: cs)).
  set (crit := is_critical_breach (c :: cs)).
  destruct (crit || (25 <=? Z.min raw 100)); [reflexivity|].
  destruct (12 <=? Z.min raw 100); [reflexivity|].
  destruct (6 <=? Z.min raw 100); reflexivity.
Qed.

Lemma final_score_bounds (raw : Z) (critical : bool) :
  0 <= raw -> 0 <= final_score raw critical <= 100.
Proof.
  unfold final_score. intro H.
  destruct (critical || (25 <=? Z.min raw 100)); lia.
Qed.

Lemma final_score_mono (raw raw' : Z) (critical critical' : bool) :
  raw <= raw' -> (critical = true -> critical' = true) ->
  final_score raw critical <= final_score raw' critical'.
Proof.
  unfold final_score. intros Hraw Hcrit.
  destruct critical.
  - rewrite (Hcrit eq_refl). simpl. lia.
  - simpl. destruct (25 <=? Z.min raw 100) eqn:E.
    + apply Z.leb_le in E.
      assert (E' : (25 <=? Z.min raw' 100) = true) by (apply Z.leb_le; lia).
      rewrite E', orb_true_r. lia.
    + apply Z.leb_gt in E.
      destruct (critical' || (25 <=? Z.min raw' 100)); lia.
Qed.

(** C5: for every category list the score lies in [0, 100], and appending a
    category to the list never decreases the score. *)
Theorem score_bounded_and_monotone (data_classes : list str) :
  0 <= score (calculate_severity data_classes) <= 100
  /\ forall c : str,
       score (calculate_severity data_classes)
       <= score (calculate_severity (data_classes ++ [c])).
Proof.
  destruct data_classes as [|d ds].
  - split; [simpl; lia|]. intro c.
    change ([] ++ [c]) with [c]. rewrite score_calculate_severity.
    pose proof (final_score_bounds (total_weight [c]) (is_critical_breach [c])
                  (total_weight_nonneg [c])).
    simpl score. lia.
  - split.
    + rewrite score_calculate_severity.
      apply final_score_bounds, total_weight_nonneg.
    + intro c. change ((d :: ds) ++ [c]) with (d :: (ds ++ [c])).
      rewrite !score_calculate_severity.
      apply final_score_mono.
      * change (d :: ds ++ [c]) with ((d :: ds) ++ [c]).
        rewrite total_weight_app.
        pose proof (total_weight_nonneg [c]). lia.
      * apply (is_critical_breach_app (d :: ds) [c]).
Qed.

Lemma label_calculate_severity_critical (cs : list str) :
  is_critical_breach cs = true -> label (calculate_severity cs) = lit "CRITICAL".
Proof.
  destruct cs as [|c cs]; [discriminate|]. intro H.
  unfold calculate_severity. rewrite H. reflexivity.
Qed.

(** C3: a category list that holds at least one category of the critical
    allowlist (the six strings of [critical_types]) is labelled CRITICAL and
    scores at least the CRITICAL threshold, 25, whatever its summed weight. *)
Theorem critical_allowlist_forces_critical (data_classes : list str) :
  (exists c, In c data_classes /\ In c critical_types) ->
  label (calculate_severity data_classes) = lit "CRITICAL"
  /\ threshold "CRITICAL" = 25
  /\ threshold "CRITICAL" <= score (calculate_severity data_classes).
Proof.
  intro H. apply is_critical_breach_true in H.
  split; [now apply label_calculate_severity_critical|].
  split; [reflexivity|].
  destruct data_classes as [|c cs]; [discriminate|].
  rewrite score_calculate_severity, H.
  change (threshold "CRITICAL") with 25.
  unfold final_score. simpl. lia.
Qed.

Lemma critical_allowlist_forces_critical_witness :
  label (calculate_severity [lit "Avatars"; lit "Auth tokens"]) = lit "CRITICAL"
  /\ threshold "CRITICAL" = 25
  /\ threshold "CRITICAL" <= score (calculate_severity [lit "Avatars"; lit "Auth tokens"]).
Proof.
  apply (critical_allowlist_forces_critical [lit "Avatars"; lit "Auth tokens"]).
  exists (lit "Auth tokens"). split.
  - simpl. right. left. reflexivity.
  - simpl. right. right. right. right. left. reflexivity.
Defined.

(** ** The top-risk category *)

Lemma scan_class_top (st : scan) (c : str) :
  (highest_weight st < weight_of c
   /\ top (scan_class st c) = c /\ highest_weight (scan_class st c) = weight_of c)
  \/ (weight_of c <= highest_weight st
      /\ top (scan_class st c) = top st
      /\ highest_weight (scan_class st c) = highest_weight st).
Proof.
  unfold scan_class. destruct (highest_weight st <? weight_of c) eqn:E.
  - apply Z.ltb_lt in E. left. simpl. auto.
  - apply Z.ltb_ge in E. right. simpl. auto.
Qed.

(** What the loop leaves in [top]: either no category outweighs the incoming
    [highest_weight] and [top] is untouched, or [top] is the first category
    of greatest weight. *)
Lemma fold_scan_class_top (cs : list str) : forall st : scan,
  let st' := fold_left scan_class cs st in
  (Forall (fun d => weight_of d <= highest_weight st) cs
   /\ top st' = top st /\ highest_weight st' = highest_weight st)
  \/ (exists before after,
        cs = before ++ top st' :: after
        /\ highest_weight st' = weight_of (top st')
        /\ highest_weight st < weight_of (top st')
        /\ Forall (fun d => weight_of d < weight_of (top st')) before
        /\ Forall (fun d => weight_of d <= weight_of (top st')) after).
Proof.
  induction cs as [|c cs IH]; intro st; cbn zeta.
  - left. simpl. auto.
  - change (fold_left scan_class (c :: cs) st)
      with (fold_left scan_class cs (scan_class st c)).
    specialize (IH (scan_class st c)). cbn zeta in IH.
    set (st' := fold_left scan_class cs (scan_class st c)) in *.
    destruct (scan_class_top st c) as [[Hlt [Ht Hw]] | [Hle [Ht Hw]]];
      rewrite Ht, Hw in IH.
    + right. destruct IH as [[Hall [Htop Hhw]] | [before [after [Hcs [Hhw [Hgt [Hb Ha]]]]]]].
      * exists [], cs. rewrite Htop. simpl. repeat split; auto; lia.
      * exists (c :: before), after. rewrite Hcs at 1. simpl.
        repeat split; auto; try lia.
    + destruct IH as [[Hall [Htop Hhw]] | [before [after [Hcs [Hhw [Hgt [Hb Ha]]]]]]].
      * left. repeat split; auto.
      * right. exists (c :: before), after. rewrite Hcs at 1. simpl.
        repeat split; auto. constructor; [lia | assumption].
Qed.

Lemma top_risk_calculate_severity (c : str) (cs : list str) :
  top_risk (calculate_severity (c :: cs)) = top (fold_left scan_class (c :: cs) scan_init).
Proof.
  unfold calculate_severity.
  destruct (is_critical_breach (c :: cs) || _); [reflexivity|].
  destruct (threshold "HIGH" <=? _); [reflexivity|].
  destruct (threshold "MEDIUM" <=? _); reflexivity.
Qed.

(** C9, as the code has it: for a non-empty category list the top-risk
    category is the first category of greatest weight among all the
    categories of the input, recognized or not (an unrecognized one weighs
    the default 2): every category before it is strictly lighter, every
    category after it is no heavier. *)
Theorem top_risk_first_heaviest (data_classes : list str) :
  data_classes <> [] ->
  let t := top_risk (calculate_severity data_classes) in
  exists before after,
    data_classes = before ++ t :: after
    /\ Forall (fun d => weight_of d < weight_of t) before
    /\ Forall (fun d => weight_of d <= weight_of t) after.
Proof.
  destruct data_classes as [|c cs]; [congruence|]. intros _ t.
  subst t. rewrite top_risk_calculate_severity.
  destruct (fold_scan_class_top (c :: cs) scan_init)
    as [[Hall _] | [before [after [Hcs [_ [_ [Hb Ha]]]]]]].
  - exfalso. inversion Hall as [|? ? Hc _]; subst.
    pose proof (weight_of_bounds c). simpl in Hc. lia.
  - exists before, after. auto.
Qed.

Lemma top_risk_first_heaviest_witness :
  exists before after,
    [lit "IP addresses"; lit "Credit cards"; lit "Names"]
    = before
      ++ top_risk (calculate_severity [lit "IP addresses"; lit "Credit cards"; lit "Names"])
      :: after
    /\ Forall (fun d => weight_of d
                        < weight_of (top_risk (calculate_severity
                            [lit "IP addresses"; lit "Credit cards"; lit "Names"]))) before
    /\ Forall (fun d => weight_of d
                        <= weight_of (top_risk (calculate_severity
                            [lit "IP addresses"; lit "Credit cards"; lit "Names"]))) after.
Proof.
  apply (top_risk_first_heaviest [lit "IP addresses"; lit "Credit cards"; lit "Names"]).
  discriminate.
Defined.

(** C9, as the specification words it, fails: with an unrecognized category
    ahead of the lightest recognized one, the loop keeps the unrecognized
    category (default weight 2 against 1), which is no match at all. *)
Lemma top_risk_not_among_matches :
  let cs := [lit "Foo"; lit "Avatars"] in
  top_risk (calculate_severity cs) = lit "Foo"
  /\ matched_classes (calculate_severity cs) = [lit "Avatars"]
  /\ spec_top_risk_of_matches cs = Some (lit "Avatars")
  /\ Some (top_risk (calculate_severity cs)) <> spec_top_risk_of_matches cs.
Proof.
  vm_compute. repeat split; discriminate.
Qed.

Example severity_usernames_passwords :
  let r := calculate_severity [lit "Usernames"; lit "Passwords"] in
  label r = lit "CRITICAL" /\ score r = 29 /\ top_risk r = lit "Passwords".
Proof. vm_compute. auto. Qed.

End SeverityEngineFacts.

(** ** Reasoning about runs *)

Module Runs.
Import RunSpec.

Lemma wp_bind {L A B} (m : M L A) (k : A -> M L B) Q w l :
  wp m (fun r w' l' => match r with
                       | Ok a => wp (k a) Q w' l'
                       | Raise e => Q (Raise e) w' l'
                       end) w l ->
  wp (bind m k) Q w l.
Proof.
  unfold wp, bind. destruct (m (w, l)) as [[a|e] [w' l']]; simpl; auto.
Qed.

Lemma wp_try {L A} (m : M L A) (h : exn -> M L A) Q w l :
  wp m (fun r w' l' => match r with
                       | Ok a => Q (Ok a) w' l'
                       | Raise e => wp (h e) Q w' l'
                       end) w l ->
  wp (try_except m h) Q w l.
Proof.
  unfold wp, try_except. destruct (m (w, l)) as [[a|e] [w' l']]; simpl; auto.
Qed.

Lemma wp_mono {L A} (m : M L A) (Q Q' : outcome A -> World -> L -> Prop) w l :
  wp m Q w l -> (forall r w' l', Q r w' l' -> Q' r w' l') -> wp m Q' w l.
Proof. unfold wp. auto. Qed.

Lemma wp_ret {L A} (a : A) (Q : outcome A -> World -> L -> Prop) w l :
  Q (Ok a) w l -> wp (ret a) Q w l.
Proof. auto. Qed.

Lemma wp_raise {L A} (e : exn) (Q : outcome A -> World -> L -> Prop) w l :
  Q (Raise e) w l -> wp (raise e) Q w l.
Proof. auto. Qed.

Lemma wp_retry {L A} env (e : exn) (Q : outcome A -> World -> L -> Prop) w l :
  Q (Raise (task_retry env e)) w l -> wp (ScanTasks.retry env e) Q w l.
Proof. auto. Qed.

Section Primitives.
Context {L : Type}.
Variable env : Env.
Variables (w : World) (l : L).

Lemma wp_lift {A} (o : outcome A) (Q : outcome A -> World -> L -> Prop) :
  Q o w l -> wp (lift o) Q w l.
Proof. auto. Qed.

Lemma wp_get_local (Q : outcome L -> World -> L -> Prop) :
  Q (Ok l) w l -> wp get_local Q w l.
Proof. auto. Qed.

Lemma wp_put_local (l0 : L) (Q : outcome unit -> World -> L -> Prop) :
  Q (Ok tt) w l0 -> wp (put_local l0) Q w l.
Proof. auto. Qed.

Lemma wp_modify (f : World -> World) (Q : outcome unit -> World -> L -> Prop) :
  Q (Ok tt) (f w) l -> wp (modify f) Q w l.
Proof. auto. Qed.

Lemma wp_next_tick (Q : outcome nat -> World -> L -> Prop) :
  Q (Ok (tick w)) (advance w) l -> wp next_tick Q w l.
Proof. auto. Qed.

Lemma wp_now (Q : outcome datetime -> World -> L -> Prop) :
  Q (Ok (utcnow env (tick w))) (advance w) l -> wp (now env) Q w l.
Proof. auto. Qed.

Lemma wp_query {A} (q : Db -> A) (Q : outcome A -> World -> L -> Prop) :
  Q (Ok (q (pending w))) w l -> wp (query q) Q w l.
Proof. auto. Qed.

Lemma wp_change (f : Db -> Db) (Q : outcome unit -> World -> L -> Prop) :
  Q (Ok tt) (with_pending w (f (pending w))) l -> wp (change f) Q w l.
Proof. auto. Qed.

Lemma wp_rollback (Q : outcome unit -> World -> L -> Prop) :
  Q (Ok tt) (with_pending w (store w)) l -> wp rollback Q w l.
Proof. auto. Qed.

Lemma wp_flush (Q : outcome unit -> World -> L -> Prop) :
  (store_accepts env (tick w) = true -> Q (Ok tt) (advance w) l) ->
  (store_accepts env (tick w) = false -> Q (Raise DatabaseError) (advance w) l) ->
  wp (flush env) Q w l.
Proof.
  intros Hy Hn. unfold wp, flush, next_tick, bind, get_world, modify, ret, raise.
  cbn [fst snd]. destruct (store_accepts env (tick w)); cbn [fst snd]; auto.
Qed.

Lemma wp_commit (Q : outcome unit -> World -> L -> Prop) :
  (store_accepts env (tick w) = true ->
   Q (Ok tt) (with_store (advance w) (pending w)) l) ->
  (store_accepts env (tick w) = false -> Q (Raise DatabaseError) (advance w) l) ->
  wp (commit env) Q w l.
Proof.
  intros Hy Hn. unfold wp, commit, next_tick, bind, get_world, modify, ret, raise.
  cbn [fst snd]. destruct (store_accepts env (tick w)); cbn [fst snd]; auto.
Qed.

Lemma wp_delay (job : nat) (Q : outcome unit -> World -> L -> Prop) :
  (broker_accepts env (tick w) = true -> Q (Ok tt) (enqueue job (advance w)) l) ->
  (broker_accepts env (tick w) = false -> Q (Raise BrokerError) (advance w) l) ->
  wp (delay env job) Q w l.
Proof.
  intros Hy Hn. unfold wp, delay, next_tick, bind, get_world, modify, ret, raise.
  cbn [fst snd]. destruct (broker_accepts env (tick w)); cbn [fst snd]; auto.
Qed.

End Primitives.

Lemma db_kept_refl w : db_kept w w.
Proof. split; reflexivity. Qed.

Lemma db_kept_trans w1 w2 w3 : db_kept w1 w2 -> db_kept w2 w3 -> db_kept w1 w3.
Proof. intros [A B] [C D]. split; congruence. Qed.

(** Unfolding the primitives of a run down to pairs. *)
Ltac exec :=
  cbv [wp bind try_except ret raise lift get_world modify get_local put_local
       next_tick now query change flush commit rollback delay
       with_pending with_store advance enqueue record_email record_sms];
  cbn [fst snd store pending tick queue email_outbox sms_outbox].

Ltac branch :=
  match goal with
  | |- context [match ?x with _ => _ end] =>
      lazymatch x with
      | context [match _ with _ => _ end] => fail
      | _ => destruct x eqn:?
      end
  end;
  cbn [fst snd store pending tick queue email_outbox sms_outbox].

Ltac kept := split; reflexivity.

Lemma send_breach_alert_frame {L} env to_email n sev dc rem prev date (w : World) (l : L) :
  wp (Alerts.send_breach_alert env to_email n sev dc rem prev date)
     (fun r w' l' => db_kept w w' /\ l' = l /\ exists res, r = Ok res) w l.
Proof.
  unfold Alerts.send_breach_alert. exec.
  repeat branch; (split; [kept | split; [reflexivity | eauto]]).
Qed.

Lemma send_breach_sms_frame {L} env to_phone n sev prev (w : World) (l : L) :
  wp (Alerts.send_breach_sms env to_phone n sev prev)
     (fun r w' l' => db_kept w w' /\ l' = l) w l.
Proof.
  unfold Alerts.send_breach_sms.
  destruct (negb (contains _ sev)); [exec; split; [kept | reflexivity]|].
  destruct (_ || _); [exec; split; [kept | reflexivity]|].
  exec. destruct (SmsBody.build_sms_message n sev prev);
    cbn [fst snd store pending];
    [|split; [kept | reflexivity]].
  destruct (twilio_create _ _ _); cbn [fst snd store pending];
    (split; [kept | reflexivity]).
Qed.

Lemma get_breaches_for_email_frame {L} env email (w : World) (l : L) :
  wp (HibpClient.get_breaches_for_email env email)
     (fun r w' l' => db_kept w w' /\ l' = l) w l.
Proof.
  unfold HibpClient.get_breaches_for_email, HibpClient.session_get. exec.
  repeat branch; (split; [kept | reflexivity]).
Qed.

Lemma generate_remediation_effect {L} env n dc (w : World) (l : L) :
  wp (LLMAdvisor.generate_remediation env n dc)
     (fun r w' l' =>
        l' = l /\ advisor_effect w w'
        /\ (store_never_refuses env ->
            breach_events (pending w') = breach_events (pending w)
            /\ monitored_emails (pending w') = monitored_emails (pending w))) w l.
Proof.
  unfold LLMAdvisor.generate_remediation. exec.
  repeat branch;
    cbv [update_cache with_remediation_cache];
    cbn [fst snd store pending breach_events monitored_emails];
    (split; [reflexivity|]; split;
     [ first [ apply advisor_kept; cbn [store pending breach_events];
               [reflexivity | first [left; reflexivity | right; reflexivity]]
             | apply advisor_rolled_back; reflexivity ]
     | intro Hok; try (split; reflexivity);
       match goal with
       | Hf : store_accepts _ ?t = false |- _ => rewrite Hok in Hf; discriminate
       end ]).
Qed.


Lemma wp_exact {L A} (m : M L A) w l r w' l' :
  wp m (fun r0 w0 l0 => r0 = r /\ w0 = w' /\ l0 = l') w l ->
  m (w, l) = (r, (w', l')).
Proof.
  unfold wp. destruct (m (w, l)) as [r0 [w0 l0]]. cbn [fst snd].
  intros (-> & -> & ->). reflexivity.
Qed.


Lemma wp_with_get_db {L A} (m : M L A) Q w l :
  wp m (fun r w' l' => Q r (with_pending w' (store w')) l') (with_pending w (store w)) l ->
  wp (with_get_db m) Q w l.
Proof.
  unfold wp, with_get_db.
  destruct (m (with_pending w (store w), l)) as [r [w' l']]. simpl. auto.
Qed.

Lemma wp_run {L A} (task : M L A) (locals : L) (w : World)
    (Q : outcome A -> World -> Prop) :
  wp task (fun r w' _ => Q r w') w locals ->
  Q (fst (ScanTasks.run task locals w)) (snd (ScanTasks.run task locals w)).
Proof.
  unfold wp, ScanTasks.run. destruct (task (w, locals)) as [r [w' l']]. simpl. auto.
Qed.

Ltac simpl_world :=
  cbn [store pending tick fst snd
       advance with_pending with_store enqueue record_email record_sms] in *.

Ltac wp_prim :=
  lazymatch goal with
  | |- wp (ret _) _ _ _ => apply wp_ret
  | |- wp (raise _) _ _ _ => apply wp_raise
  | |- wp (ScanTasks.retry _ _) _ _ _ => apply wp_retry
  | |- wp (lift _) _ _ _ => apply wp_lift
  | |- wp get_local _ _ _ => apply wp_get_local
  | |- wp (put_local _) _ _ _ => apply wp_put_local
  | |- wp (modify _) _ _ _ => apply wp_modify
  | |- wp next_tick _ _ _ => apply wp_next_tick
  | |- wp (now _) _ _ _ => apply wp_now
  | |- wp (query _) _ _ _ => apply wp_query
  | |- wp (change _) _ _ _ => apply wp_change
  | |- wp rollback _ _ _ => apply wp_rollback
  | |- wp (flush _) _ _ _ => apply wp_flush; intro
  | |- wp (commit _) _ _ _ => apply wp_commit; intro
  | |- wp (delay _ _) _ _ _ => apply wp_delay; intro
  end.

(** One step of a run: the head of the code decides. *)
Ltac wp_step :=
  lazymatch goal with
  | |- wp (bind _ _) _ _ _ => apply wp_bind
  | |- wp (try_except _ _) _ _ _ => apply wp_try
  | |- wp (with_get_db _) _ _ _ => apply wp_with_get_db
  | |- wp (match ?x with _ => _ end) _ _ _ => destruct x eqn:?; cbv beta iota
  | |- wp _ _ _ _ => wp_prim; cbv beta iota
  end.

Lemma wp_for_each {L A} (body : A -> M L unit) (Inv : World -> L -> Prop) :
  (forall x w l, Inv w l -> wp (body x) (fun _ w' l' => Inv w' l') w l) ->
  forall xs w l, Inv w l -> wp (for_each xs body) (fun _ w' l' => Inv w' l') w l.
Proof.
  intros Hbody. induction xs as [|x xs IH]; intros w l HI.
  - exact HI.
  - cbn [for_each]. apply wp_bind.
    eapply wp_mono; [apply (Hbody x w l HI)|].
    intros [[]|e] w' l' HI'; [apply IH; exact HI' | exact HI'].
Qed.

End Runs.

(** ** Alert dispatch *)

Module DispatchFacts.
Import ScanTasks RunSpec DispatchSpec Runs.

Lemma dispatch_alerts_summary env id w :
  dispatch_post id w (fst (run_dispatch env id w)) (snd (run_dispatch env id w)).
Proof.
  unfold run_dispatch.
  apply (wp_run (dispatch_alerts env id) [] w (dispatch_post id w)).
  unfold dispatch_alerts, dispatch_post.
  do 4 wp_step. simpl_world.
  destruct (breach_event_by_id (store w) id) as [be|] eqn:Hbe; cbv beta iota.
  2:{ do 3 wp_step. simpl_world. split; reflexivity. }
  destruct (BreachEvent.is_notified be) eqn:Hn; cbv beta iota.
  { do 3 wp_step. simpl_world. split; reflexivity. }
  unfold add_alert_log, channels_append.
  repeat first
    [ wp_step
    | eapply wp_mono; [apply send_breach_alert_frame|];
      cbv beta; intros ? ? ? [[? ?] [-> [? ->]]]
    | eapply wp_mono; [apply send_breach_sms_frame|];
      cbv beta; intros [?|?] ? ? [[? ?] ->] ];
    simpl_world;
    cbv [update_breach_event with_alert_logs with_breach_events];
    cbn [breach_events alert_logs];
    try (left; eexists; split; [reflexivity | congruence]);
    (right; do 2 eexists; split; [reflexivity|]);
    repeat match goal with
           | H : pending ?w0 = _ |- context [pending ?w0] =>
               rewrite H; cbv [with_alert_logs]; cbn [breach_events]
           end;
    reflexivity.
Qed.

End DispatchFacts.

(** ** Ingestion *)

Module ScanFacts.
Import ScanTasks RunSpec ScanSpec Runs.

Lemma find_app_none {A} (f : A -> bool) (a b : list A) :
  find f (a ++ b) = None <-> find f a = None /\ find f b = None.
Proof.
  induction a as [|x a IH]; simpl.
  - split; [auto | intros [_ H]; exact H].
  - destruct (f x); [|exact IH].
    split; [discriminate | intros [H _]; discriminate].
Qed.

Lemma fresh_rows_app_l s0 id a b : fresh_rows s0 id (a ++ b) -> fresh_rows s0 id a.
Proof.
  intros [HF HN]. split.
  - apply Forall_app in HF. tauto.
  - rewrite map_app in HN. eapply NoDup_app_remove_r; eauto.
Qed.

Lemma scan_inv_start s0 id w : store w = s0 -> pending w = s0 -> scan_inv s0 id w.
Proof.
  intros Hs Hp. exists [], []. rewrite Hs, Hp, !app_nil_r.
  repeat split; constructor.
Qed.

Lemma scan_inv_frame s0 id w w' :
  scan_inv s0 id w ->
  breach_events (store w') = breach_events (store w) ->
  breach_events (pending w') = breach_events (pending w) ->
  scan_inv s0 id w'.
Proof.
  intros (c & u & Hs & Hp & Hf) Es Ep. exists c, u. rewrite Es, Ep. auto.
Qed.

Lemma scan_inv_commit s0 id w w' :
  scan_inv s0 id w ->
  breach_events (store w') = breach_events (pending w) ->
  breach_events (pending w') = breach_events (pending w) ->
  scan_inv s0 id w'.
Proof.
  intros (c & u & Hs & Hp & Hf) Es Ep. exists (c ++ u), [].
  rewrite Es, Ep, Hp, !app_nil_r. auto.
Qed.

Lemma scan_inv_rollback s0 id w w' :
  scan_inv s0 id w ->
  breach_events (store w') = breach_events (store w) ->
  breach_events (pending w') = breach_events (store w) ->
  scan_inv s0 id w'.
Proof.
  intros (c & u & Hs & Hp & Hf) Es Ep. exists c, [].
  rewrite Es, Ep, Hs, !app_nil_r. repeat split; auto.
  - apply (fresh_rows_app_l _ _ _ _ Hf).
  - apply (fresh_rows_app_l _ _ _ _ Hf).
Qed.

Lemma absent_in_store s0 id w name :
  scan_inv s0 id w -> absent (pending w) id name -> absent (store w) id name.
Proof.
  intros (c & u & Hs & Hp & _). unfold absent, breach_event_by_name.
  rewrite Hs, Hp, !find_app_none. tauto.
Qed.

Lemma scan_inv_advisor s0 id w w' name :
  scan_inv s0 id w -> absent (pending w) id name -> advisor_effect w w' ->
  scan_inv s0 id w' /\ absent (pending w') id name.
Proof.
  intros HI Ha [Hp [Hs | Hs] | Hs Hp].
  - split.
    + apply (scan_inv_frame _ _ _ _ HI); congruence.
    + unfold absent, breach_event_by_name in *. now rewrite Hp.
  - split.
    + apply (scan_inv_commit _ _ _ _ HI); congruence.
    + unfold absent, breach_event_by_name in *. now rewrite Hp.
  - split.
    + apply (scan_inv_rollback _ _ _ _ HI); congruence.
    + rewrite Hp. apply (absent_in_store _ _ _ _ HI Ha).
Qed.

Lemma scan_inv_insert s0 id w w' row :
  scan_inv s0 id w ->
  absent (pending w) id (BreachEvent.breach_name row) ->
  BreachEvent.monitored_email_id row = id ->
  BreachEvent.is_notified row = false ->
  breach_events (store w') = breach_events (store w) ->
  breach_events (pending w') = breach_events (pending w) ++ [row] ->
  scan_inv s0 id w'.
Proof.
  intros (c & u & Hs & Hp & HF & HN) Ha Hid Hnot Es Ep.
  exists c, (u ++ [row]). rewrite Es, Ep, Hp, Hs.
  split; [reflexivity|]. split; [now rewrite <- !app_assoc|].
  unfold absent, breach_event_by_name in Ha. rewrite Hp in Ha.
  apply find_app_none in Ha as [Ha0 Hacu].
  rewrite app_assoc. split.
  - apply Forall_app. split; [assumption|].
    repeat constructor; assumption.
  - rewrite map_app. apply NoDup_app; [assumption | repeat constructor; intros [] |].
    intros a Hin [<- | []].
    apply in_map_iff in Hin as (r & Hname & Hr).
    pose proof (find_none _ _ Hacu r Hr) as Hfalse. cbv beta in Hfalse.
    rewrite Forall_forall in HF. destruct (HF r Hr) as [Hrid _].
    rewrite Hrid, Nat.eqb_refl, Hname, PyFacts.str_eqb_refl in Hfalse. discriminate.
Qed.

Ltac wp_call lemma :=
  eapply wp_mono; [apply lemma | cbv beta].

Lemma ingest_breach_inv env s0 id raw (w : World) (count : Z) :
  scan_inv s0 id w ->
  wp (ingest_breach env id raw) (fun _ w' _ => scan_inv s0 id w') w count.
Proof.
  intro HI. unfold ingest_breach.
  do 2 wp_step.
  destruct (breach_event_by_name (pending w) id _) eqn:Hex; cbv beta iota.
  { wp_step. exact HI. }
  wp_step. wp_call @generate_remediation_effect.
  intros [remediation|e] w1 l1 (-> & Heff & _).
  2:{ apply (scan_inv_advisor _ _ _ _ _ HI Hex Heff). }
  destruct (scan_inv_advisor _ _ _ _ _ HI Hex Heff) as [HI1 Ha1].
  assert (HI2 : forall w2,
             breach_events (store w2) = breach_events (store w1) ->
             breach_events (pending w2)
             = breach_events (pending w1)
               ++ [BreachEvent.mk
                     (next_id (map BreachEvent.id (breach_events (pending w1))))
                     id
                     (HibpClient.name (HibpClient.normalize_breach raw))
                     (HibpClient.domain (HibpClient.normalize_breach raw))
                     (parse_breach_date env
                        (HibpClient.breach_date (HibpClient.normalize_breach raw)))
                     (utcnow env (tick w1))
                     (HibpClient.data_classes (HibpClient.normalize_breach raw))
                     (HibpClient.pwn_count (HibpClient.normalize_breach raw))
                     (SeverityEngine.label
                        (SeverityEngine.calculate_severity
                           (HibpClient.data_classes (HibpClient.normalize_breach raw))))
                     (SeverityEngine.score
                        (SeverityEngine.calculate_severity
                           (HibpClient.data_classes (HibpClient.normalize_breach raw))))
                     (HibpClient.is_verified (HibpClient.normalize_breach raw))
                     false None
                     (HibpClient.is_fabricated (HibpClient.normalize_breach raw))
                     (HibpClient.is_sensitive (HibpClient.normalize_breach raw))
                     (Some remediation)] ->
             scan_inv s0 id w2).
  { intros w2 Es Ep.
    eapply scan_inv_insert; [exact HI1 | | | | exact Es | exact Ep];
      [exact Ha1 | reflexivity | reflexivity]. }
  repeat wp_step; apply HI2; reflexivity.
Qed.

Lemma scan_loop_inv env s0 id breaches (w : World) (count : Z) :
  scan_inv s0 id w ->
  wp (for_each breaches (ingest_breach env id)) (fun _ w' _ => scan_inv s0 id w') w count.
Proof.
  apply (wp_for_each (ingest_breach env id) (fun w' _ => scan_inv s0 id w')).
  intros x w0 l0. apply ingest_breach_inv.
Qed.

(** What a scan leaves in the store, whatever the collaborators do: the
    events it found there, followed by fresh rows of the scanned identity. *)
Lemma process_single_email_summary env id w :
  exists added,
    breach_events (store (snd (run_scan env id w))) = breach_events (store w) ++ added
    /\ fresh_rows (store w) id added.
Proof.
  assert (H : scan_inv (store w) id (snd (run_scan env id w))).
  { unfold run_scan.
    apply (wp_run (process_single_email env id) 0 w
             (fun _ w' => scan_inv (store w) id w')).
    unfold process_single_email.
    assert (H0 : scan_inv (store w) id (with_pending w (store w)))
      by (apply scan_inv_start; reflexivity).
    assert (Hclose : forall w', scan_inv (store w) id w' ->
                       scan_inv (store w) id (with_pending w' (store w'))).
    { intros w' HI. apply (scan_inv_rollback _ _ _ _ HI); reflexivity. }
    assert (Hhandler : forall e w' l',
               scan_inv (store w) id w' ->
               wp (rollback ;; retry env e)
                  (fun (_ : outcome scan_result) w'' (_ : Z) =>
                     scan_inv (store w) id (with_pending w'' (store w'')))
                  w' l').
    { intros e w' l' HI. repeat wp_step. apply Hclose, Hclose, HI. }
    do 4 wp_step. simpl_world.
    destruct (monitored_email_by_id (store w) id) as [me|]; cbv beta iota.
    2:{ wp_step. apply Hclose, H0. }
    destruct (negb (MonitoredEmail.is_active me)); cbv beta iota.
    { wp_step. apply Hclose, H0. }
    wp_step.
    destruct (decrypt_email env (MonitoredEmail.email_encrypted me)); cbv beta iota.
    2:{ wp_step. apply Hhandler, H0. }
    wp_step. wp_step.
    wp_call @get_breaches_for_email_frame.
    intros [breaches|e] w1 l1 [[Hs Hp] ->].
    2:{ apply Hhandler. apply (scan_inv_frame _ _ _ _ H0); congruence. }
    wp_step.
    eapply wp_mono;
      [apply (scan_loop_inv env (store w) id breaches w1);
       apply (scan_inv_frame _ _ _ _ H0); congruence | cbv beta].
    intros [[]|e] w2 l2 HI2.
    2:{ apply Hhandler, HI2. }
    repeat wp_step.
    - apply Hclose. apply (scan_inv_commit _ _ _ _ HI2); reflexivity.
    - apply Hclose, Hclose. apply (scan_inv_frame _ _ _ _ HI2); reflexivity. }
  destruct H as (c & u & Hs & _ & Hf).
  exists c. split; [exact Hs | apply (fresh_rows_app_l _ _ _ _ Hf)].
Qed.

(** *** The dedup check *)









(** *** Two scans in a row *)


Lemma run_scan_not_scanned env id w :
  not_scanned (store w) id ->
  run_scan env id w = (Ok (ScanDone id 0), with_pending w (store w)).
Proof.
  unfold not_scanned, run_scan, run. intro H.
  rewrite (wp_exact (process_single_email env id) w 0
             (Ok (ScanDone id 0)) (with_pending w (store w)) 0); [reflexivity|].
  unfold process_single_email. do 4 wp_step. simpl_world.
  destruct (monitored_email_by_id (store w) id) as [me|]; cbv beta iota.
  - rewrite H. cbn [negb]. wp_step. auto.
  - wp_step. auto.
Qed.




(** *** The unique constraint *)




End ScanFacts.

Module ScanExamples.
Import ScanTasks ScanSpec ScanFacts Fixture.


Example first_scan_finds_two :
  fst (run_scan (env_with 100) 1 (world_of db0)) = Ok (ScanDone 1 2)
  /\ map BreachEvent.breach_name
       (breach_events (store (snd (run_scan (env_with 100) 1 (world_of db0)))))
     = [lit "Adobe"; lit "Canva"]
  /\ queue (snd (run_scan (env_with 100) 1 (world_of db0))) = [1%nat; 2%nat].
Proof. vm_compute. repeat split; reflexivity. Qed.

(** C2 fails on the code: the feed lists two new breaches and the broker
    refuses the second job.  The commit inside [generate_remediation] for
    the second breach has already made the first event durable, so the
    failed scan leaves that event in the store next to a scan count and a
    last-scan time that the rollback kept stale. *)
Theorem failed_scan_leaves_committed_event :
  let w := world_of db0 in
  let r := fst (run_scan (env_with 10) 1 w) in
  let w' := snd (run_scan (env_with 10) 1 w) in
  breach_events (store w) = []
  /\ r = Raise BrokerError
  /\ map BreachEvent.breach_name (breach_events (store w')) = [lit "Adobe"]
  /\ map MonitoredEmail.scan_count (monitored_emails (store w')) = [0]
  /\ map MonitoredEmail.last_scanned_at (monitored_emails (store w')) = [None]
  /\ queue w' = [1%nat].
Proof. vm_compute. repeat split; reflexivity. Qed.

(** The same scan run by a worker with retries left: the retry of the
    handler raises the signal of the task queue, and the store is left the
    same. *)
Example failed_scan_in_a_worker :
  let w := world_of db0 in
  let r := fst (run_scan (in_worker (env_with 10)) 1 w) in
  let w' := snd (run_scan (in_worker (env_with 10)) 1 w) in
  r = Raise Retry
  /\ map BreachEvent.breach_name (breach_events (store w')) = [lit "Adobe"]
  /\ map MonitoredEmail.scan_count (monitored_emails (store w')) = [0]
  /\ map MonitoredEmail.last_scanned_at (monitored_emails (store w')) = [None].
Proof. vm_compute. repeat split; reflexivity. Qed.

(** The other face of the same commit discipline: the store refuses the
    cache row of the second breach, [generate_remediation] rolls the shared
    session back, and the first event, flushed but not committed, is lost.
    The scan still finishes and counts two new breaches; the store holds
    one, and the next scan adds the other. *)
Example refused_cache_row_drops_an_event :
  let env := env_refusing 7 in
  let w1 := snd (run_scan env 1 (world_of db0)) in
  let w2 := snd (run_scan env 1 w1) in
  fst (run_scan env 1 (world_of db0)) = Ok (ScanDone 1 2)
  /\ map BreachEvent.breach_name (breach_events (store w1)) = [lit "Canva"]
  /\ queue w1 = [1%nat; 1%nat]
  /\ fst (run_scan env 1 w1) = Ok (ScanDone 1 1)
  /\ map BreachEvent.breach_name (breach_events (store w2)) = [lit "Canva"; lit "Adobe"].
Proof. vm_compute. repeat split; reflexivity. Qed.


End ScanExamples.

(** ** The notification state *)

Module NotificationFacts.
Import ScanTasks RunSpec DispatchSpec ScanSpec NotificationSpec Runs DispatchFacts ScanFacts.




Lemma notified_in_same d d' i :
  breach_events d' = breach_events d -> notified_in d i -> notified_in d' i.
Proof. unfold notified_in. now intros ->. Qed.






Lemma guarded_dispatch env id w :
  breach_event_by_id (store w) id = None
  \/ (exists be, breach_event_by_id (store w) id = Some be
                 /\ BreachEvent.is_notified be = true) ->
  fst (run_dispatch env id w) = Ok (Dispatched id [])
  /\ snd (run_dispatch env id w) = with_pending w (store w).
Proof.
  intros Hguard. pose proof (dispatch_alerts_summary env id w) as H.
  unfold dispatch_post in H.
  destruct Hguard as [Hnone | (be & Hbe & Hn)].
  - rewrite Hnone in H. exact H.
  - rewrite Hbe, Hn in H. exact H.
Qed.

(** C6: dispatching an event that is missing or already notified does
    nothing: the result is the plain dict with no channel, and the store
    (alert logs, notified flags and timestamps), the queue and the two
    outboxes are as before; not even the clock was read. *)
Theorem dispatch_is_noop_when_missing_or_notified env id w :
  breach_event_by_id (store w) id = None
  \/ (exists be, breach_event_by_id (store w) id = Some be
                 /\ BreachEvent.is_notified be = true) ->
  let r := fst (run_dispatch env id w) in
  let w' := snd (run_dispatch env id w) in
  r = Ok (Dispatched id [])
  /\ store w' = store w
  /\ alert_logs (store w') = alert_logs (store w)
  /\ breach_events (store w') = breach_events (store w)
  /\ email_outbox w' = email_outbox w
  /\ sms_outbox w' = sms_outbox w
  /\ queue w' = queue w
  /\ tick w' = tick w.
Proof.
  intros Hguard r w'.
  destruct (guarded_dispatch env id w Hguard) as [Hr Hw].
  subst r w'. rewrite Hw. repeat split; auto.
Qed.

(** After a dispatch of an existing event that ran to its end, a second
    dispatch of the event does nothing, whatever the collaborators do. *)
Lemma second_dispatch_is_noop env env' id w be ch :
  breach_event_by_id (store w) id = Some be ->
  fst (run_dispatch env id w) = Ok (Dispatched id ch) ->
  let w1 := snd (run_dispatch env id w) in
  fst (run_dispatch env' id w1) = Ok (Dispatched id [])
  /\ store (snd (run_dispatch env' id w1)) = store w1.
Proof.
  intros Hbe Hr w1.
  assert (Hfound : exists be', breach_event_by_id (store w1) id = Some be'
                               /\ BreachEvent.is_notified be' = true).
  { pose proof (dispatch_alerts_summary env id w) as H.
    unfold dispatch_post in H. rewrite Hbe in H. fold w1 in H. rewrite Hr in H.
    destruct (BreachEvent.is_notified be) eqn:Hb.
    - destruct H as [_ ->]. cbn [store with_pending]. eauto.
    - destruct H as [(e & Hr' & _) | (ch' & t & _ & He)]; [discriminate|].
      exists (BreachEvent.mark_notified t be). split; [|reflexivity].
      unfold breach_event_by_id in *. rewrite He. cbn [breach_events update_breach_event
        with_breach_events]. clear - Hbe.
      induction (breach_events (store w)) as [|x rows IH]; [discriminate|].
      cbn [find map] in *. destruct (Nat.eqb (BreachEvent.id x) id) eqn:E.
      + injection Hbe as <-. cbn [BreachEvent.id BreachEvent.mark_notified].
        rewrite E. reflexivity.
      + rewrite E. apply IH, Hbe. }
  destruct (guarded_dispatch env' id w1 (or_intror Hfound)) as [H1 H2].
  split; [exact H1 | rewrite H2; reflexivity].
Qed.

End NotificationFacts.

Module NotificationExamples.
Import ScanTasks NotificationSpec NotificationFacts Fixture.


(** The same with an owner who has no phone number on file: the one attempt,
    by mail, fails, and the event is marked notified. *)
Example notified_though_the_mail_failed :
  let w := world_of (mkDb [owner] [identity] [adobe_event false] [] []) in
  let r := fst (run_dispatch env_failing_channels 1 w) in
  let w' := snd (run_dispatch env_failing_channels 1 w) in
  r = Ok (Dispatched 1 [])
  /\ map (fun a => (AlertLog.channel a, AlertLog.status a)) (alert_logs (store w'))
     = [(lit "email", lit "failed")]
  /\ sms_outbox w' = []
  /\ map BreachEvent.is_notified (breach_events (store w')) = [true].
Proof. vm_compute. repeat split; reflexivity. Qed.

Lemma dispatch_is_noop_when_missing_or_notified_witness :
  let w := world_of (db_with_event true) in
  let r := fst (run_dispatch env_failing_channels 1 w) in
  let w' := snd (run_dispatch env_failing_channels 1 w) in
  r = Ok (Dispatched 1 [])
  /\ store w' = store w
  /\ alert_logs (store w') = alert_logs (store w)
  /\ breach_events (store w') = breach_events (store w)
  /\ email_outbox w' = email_outbox w
  /\ sms_outbox w' = sms_outbox w
  /\ queue w' = queue w
  /\ tick w' = tick w.
Proof.
  apply (dispatch_is_noop_when_missing_or_notified env_failing_channels 1
           (world_of (db_with_event true))).
  right. exists (adobe_event true). split; reflexivity.
Defined.

End NotificationExamples.

(** ** The SMS gate *)

Module SmsSenderFacts.
Import Alerts.

Lemma below_threshold (severity : str) :
  severity <> lit "CRITICAL" -> severity <> lit "HIGH" ->
  contains [lit "CRITICAL"; lit "HIGH"] severity = false.
Proof.
  intros Hc Hh. unfold contains. cbn [existsb].
  destruct (str_eqb severity (lit "CRITICAL")) eqn:E1;
    [apply PyFacts.str_eqb_eq in E1; contradiction|].
  destruct (str_eqb severity (lit "HIGH")) eqn:E2;
    [apply PyFacts.str_eqb_eq in E2; contradiction|].
  reflexivity.
Qed.

(** C10: for a severity other than CRITICAL and HIGH, [send_breach_sms]
    returns the skipped result with the reason "severity_below_threshold"
    and leaves the world untouched: the provider is not called (its outbox
    is as before, no instant has passed). *)
Theorem sms_skipped_below_threshold {L} env (to_phone breach_name severity email_preview : str)
    (w : World) (l : L) :
  severity <> lit "CRITICAL" -> severity <> lit "HIGH" ->
  let run := send_breach_sms env to_phone breach_name severity email_preview (w, l) in
  run = (Ok (skipped (lit "severity_below_threshold")), (w, l))
  /\ (forall r, fst run = Ok r ->
        status r = Some (lit "skipped")
        /\ reason r = Some (lit "severity_below_threshold"))
  /\ sms_outbox (fst (snd run)) = sms_outbox w
  /\ tick (fst (snd run)) = tick w.
Proof.
  intros Hc Hh run.
  assert (Hrun : run = (Ok (skipped (lit "severity_below_threshold")), (w, l))).
  { subst run. unfold send_breach_sms.
    rewrite (below_threshold severity Hc Hh). reflexivity. }
  rewrite Hrun. cbn [fst snd].
  split; [reflexivity|]. split; [|split; reflexivity].
  intros r Hr. injection Hr as <-. split; reflexivity.
Qed.

Lemma sms_skipped_below_threshold_witness :
  let run := send_breach_sms (Fixture.env_with 100) (lit "+15550123") (lit "Canva")
               (lit "MEDIUM") (lit "joh***@gmail.com") (Fixture.world_of Fixture.db0, tt) in
  run = (Ok (skipped (lit "severity_below_threshold")), (Fixture.world_of Fixture.db0, tt))
  /\ (forall r, fst run = Ok r ->
        status r = Some (lit "skipped")
        /\ reason r = Some (lit "severity_below_threshold"))
  /\ sms_outbox (fst (snd run)) = sms_outbox (Fixture.world_of Fixture.db0)
  /\ tick (fst (snd run)) = tick (Fixture.world_of Fixture.db0).
Proof.
  apply (sms_skipped_below_threshold (Fixture.env_with 100) (lit "+15550123") (lit "Canva")
           (lit "MEDIUM") (lit "joh***@gmail.com") (Fixture.world_of Fixture.db0) tt);
    discriminate.
Defined.

(** Only CRITICAL and HIGH reach the provider. *)
Lemma sms_reaches_provider_only_when_severe {L} env
    (to_phone breach_name severity email_preview : str) (w : World) (l : L) :
  sms_outbox (fst (snd (send_breach_sms env to_phone breach_name severity email_preview
                          (w, l))))
  <> sms_outbox w ->
  severity = lit "CRITICAL" \/ severity = lit "HIGH".
Proof.
  intro Hcalled.
  destruct (str_eqb severity (lit "CRITICAL")) eqn:E1;
    [left; now apply PyFacts.str_eqb_eq|].
  destruct (str_eqb severity (lit "HIGH")) eqn:E2;
    [right; now apply PyFacts.str_eqb_eq|].
  exfalso. apply Hcalled. unfold send_breach_sms, contains. cbn [existsb].
  rewrite E1, E2. reflexivity.
Qed.

Example sms_critical_is_sent :
  let run := send_breach_sms (Fixture.env_with 100) (lit "+15550123") (lit "Adobe")
               (lit "CRITICAL") (lit "joh***@gmail.com") (Fixture.world_of Fixture.db0, tt) in
  option_map (fun r => status r) (match fst run with Ok r => Some r | Raise _ => None end)
  = Some (Some (lit "sent"))
  /\ length (sms_outbox (fst (snd run))) = 1%nat.
Proof. vm_compute. split; reflexivity. Qed.

End SmsSenderFacts.

(** ** The remediation cache key *)

Module CacheKeyFacts.
Import LLMAdvisor CacheKeySpec.

Lemma str_leb_total (a : str) : forall b, str_leb a b = true \/ str_leb b a = true.
Proof.
  induction a as [|x a IH]; intros [|y b]; simpl; auto.
  destruct (N.ltb_spec x y), (N.ltb_spec y x), (N.eqb_spec x y), (N.eqb_spec y x);
    auto; lia.
Qed.

Lemma str_leb_antisym (a : str) : forall b,
  str_leb a b = true -> str_leb b a = true -> a = b.
Proof.
  induction a as [|x a IH]; intros [|y b]; simpl; try discriminate; auto.
  destruct (N.ltb_spec x y), (N.ltb_spec y x), (N.eqb_spec x y), (N.eqb_spec y x);
    try discriminate; try lia.
  intros H1 H2. subst. f_equal. now apply IH.
Qed.

Lemma str_leb_trans (a : str) : forall b c,
  str_leb a b = true -> str_leb b c = true -> str_leb a c = true.
Proof.
  induction a as [|x a IH]; intros [|y b] [|z c]; simpl; try discriminate; auto.
  destruct (N.ltb_spec x y), (N.ltb_spec y z), (N.ltb_spec x z),
           (N.eqb_spec x y), (N.eqb_spec y z), (N.eqb_spec x z);
    try discriminate; try lia; auto.
  apply IH.
Qed.

(** Closing a case of [insert_sorted_comm]: the tests met contradict each
    other by totality or transitivity, or make two strings equal. *)
Ltac order_close :=
  try reflexivity; try congruence;
  first
    [ match goal with
      | H1 : str_leb ?a ?b = false, H2 : str_leb ?b ?a = false |- _ =>
          destruct (str_leb_total a b); congruence
      end
    | match goal with
      | H1 : str_leb ?a ?b = true, H2 : str_leb ?b ?c = true,
        H3 : str_leb ?a ?c = false |- _ =>
          rewrite (str_leb_trans a b c H1 H2) in H3; discriminate
      end
    | match goal with
      | H1 : str_leb ?a ?b = true, H2 : str_leb ?b ?a = true |- _ =>
          rewrite (str_leb_antisym a b H1 H2); reflexivity
      end ].

Ltac order_facts :=
  repeat match goal with
         | H : str_leb ?a ?b = false |- _ =>
             lazymatch goal with
             | _ : str_leb b a = true |- _ => fail
             | _ => assert (str_leb b a = true)
                      by (destruct (str_leb_total a b); [congruence | assumption])
             end
         end.

Lemma insert_sorted_comm (x y : str) (l : list str) :
  insert_sorted x (insert_sorted y l) = insert_sorted y (insert_sorted x l).
Proof.
  induction l as [|z l IH]; cbn [insert_sorted];
    repeat (match goal with
            | |- context [if str_leb ?a ?b then _ else _] =>
                destruct (str_leb a b) eqn:?
            end; cbn [insert_sorted]);
    try (rewrite IH; reflexivity);
    try order_close; order_facts; order_close.
Qed.

Lemma sorted_permutation (l l' : list str) :
  Permutation l l' -> sorted l = sorted l'.
Proof.
  induction 1 as [| x l l' _ IH | x y l | l l' l'' _ IH1 _ IH2]; cbn [sorted].
  - reflexivity.
  - now rewrite IH.
  - apply insert_sorted_comm.
  - congruence.
Qed.

(** [sorted] does sort: its result is ascending and holds the same strings. *)
Lemma insert_sorted_permutation (x : str) (l : list str) :
  Permutation (x :: l) (insert_sorted x l).
Proof.
  induction l as [|y l IH]; cbn [insert_sorted]; [reflexivity|].
  destruct (str_leb x y); [reflexivity|].
  rewrite perm_swap. now apply perm_skip.
Qed.

Lemma sorted_is_permutation (l : list str) : Permutation l (sorted l).
Proof.
  induction l as [|x l IH]; cbn [sorted]; [reflexivity|].
  rewrite <- insert_sorted_permutation. now apply perm_skip.
Qed.

Lemma insert_sorted_ascending (x : str) (l : list str) :
  ascending l -> ascending (insert_sorted x l).
Proof.
  unfold ascending. induction 1 as [|y l Hl IH Hy]; cbn [insert_sorted].
  - repeat constructor.
  - destruct (str_leb x y) eqn:E.
    + repeat constructor; assumption.
    + constructor; [exact IH|].
      assert (Hyx : str_leb y x = true)
        by (destruct (str_leb_total x y); [congruence | assumption]).
      destruct l as [|z l]; cbn [insert_sorted].
      * now constructor.
      * destruct (str_leb x z); constructor; [assumption|].
        now inversion Hy.
Qed.

Lemma sorted_ascending (l : list str) : ascending (sorted l).
Proof.
  induction l as [|x l IH]; cbn [sorted].
  - constructor.
  - now apply insert_sorted_ascending.
Qed.

(** C8: for every breach name, two category lists that are permutations of
    each other get the same cache key (or both make the encoding raise). *)
Theorem cache_key_permutation_invariant env (breach_name : str)
    (data_classes data_classes' : list str) :
  Permutation data_classes data_classes' ->
  _build_cache_key env breach_name data_classes
  = _build_cache_key env breach_name data_classes'.
Proof.
  intro H. unfold _build_cache_key. rewrite (sorted_permutation _ _ H). reflexivity.
Qed.

Lemma cache_key_permutation_invariant_witness :
  _build_cache_key (Fixture.env_with 100) (lit "Adobe")
    [lit "Passwords"; lit "Email addresses"; lit "Usernames"]
  = _build_cache_key (Fixture.env_with 100) (lit "Adobe")
      [lit "Usernames"; lit "Passwords"; lit "Email addresses"].
Proof.
  apply (cache_key_permutation_invariant (Fixture.env_with 100) (lit "Adobe")
           [lit "Passwords"; lit "Email addresses"; lit "Usernames"]
           [lit "Usernames"; lit "Passwords"; lit "Email addresses"]).
  apply Permutation_sym.
  apply (Permutation_cons_app [lit "Passwords"; lit "Email addresses"] []).
  reflexivity.
Defined.

(** The key is the digest of the name, a bar, and the sorted categories
    joined by commas. *)
Example cache_key_adobe :
  _build_cache_key (Fixture.env_with 100) (lit "Adobe")
    [lit "Passwords"; lit "Email addresses"; lit "Usernames"]
  = Ok (lit "Adobe|Email addresses,Passwords,Usernames").
Proof. vm_compute. reflexivity. Qed.

End CacheKeyFacts.

(** ** The severity ladder and the badge *)

Module SeverityLadderFacts.
Import SeverityEngine SeverityEngineSpec SeverityLadderSpec SeverityBadge PyFacts
       SeverityEngineFacts.

Lemma label_calculate_severity (cs : list str) :
  label (calculate_severity cs) = label_of_score (score (calculate_severity cs)).
Proof.
  destruct cs as [|c cs]; [reflexivity|].
  unfold calculate_severity, label_of_score.
  change (threshold "CRITICAL") with 25.
  change (threshold "HIGH") with 12.
  change (threshold "MEDIUM") with 6.
  set (s := Z.min _ 100).
  destruct (is_critical_breach (c :: cs) || (25 <=? s)) eqn:Ec; cbv beta iota; cbn [label score].
  - destruct (25 <=? Z.max s 25) eqn:E; [reflexivity | apply Z.leb_gt in E; lia].
  - apply orb_false_iff in Ec as [_ E25].
    destruct (12 <=? s) eqn:E2; cbv beta iota; cbn [label score]; rewrite ?E25, ?E2;
      [reflexivity|].
    destruct (6 <=? s) eqn:E3; cbv beta iota; cbn [label score]; rewrite ?E25, ?E2, ?E3;
      reflexivity.
Qed.

(** X1: the label is read off the score by the thresholds: CRITICAL from 25,
    HIGH from 12, MEDIUM from 6, LOW below. *)
Theorem label_follows_score (data_classes : list str) :
  let r := calculate_severity data_classes in
  (label r = lit "CRITICAL" <-> threshold "CRITICAL" <= score r)
  /\ (label r = lit "HIGH" <-> threshold "HIGH" <= score r < threshold "CRITICAL")
  /\ (label r = lit "MEDIUM" <-> threshold "MEDIUM" <= score r < threshold "HIGH")
  /\ (label r = lit "LOW" <-> score r < threshold "MEDIUM").
Proof.
  cbv zeta. rewrite label_calculate_severity. unfold label_of_score.
  change (threshold "CRITICAL") with 25.
  change (threshold "HIGH") with 12.
  change (threshold "MEDIUM") with 6.
  set (s := score _).
  destruct (25 <=? s) eqn:E1; [apply Z.leb_le in E1 | apply Z.leb_gt in E1];
    [|destruct (12 <=? s) eqn:E2; [apply Z.leb_le in E2 | apply Z.leb_gt in E2];
      [|destruct (6 <=? s) eqn:E3; [apply Z.leb_le in E3 | apply Z.leb_gt in E3]]];
    repeat split; intros; try reflexivity; try discriminate; try lia.
Qed.

Lemma matched_fold (cs : list str) (st : scan) :
  matched (fold_left scan_class cs st) = matched st ++ filter recognized cs.
Proof.
  revert st; induction cs as [|c cs IH]; intro st; cbn [fold_left filter].
  - now rewrite app_nil_r.
  - rewrite IH. unfold scan_class, recognized.
    destruct (highest_weight st <? weight_of c), (dict_mem DATA_CLASS_WEIGHTS c);
      cbn [matched]; rewrite <- ?app_assoc; reflexivity.
Qed.

Lemma matched_classes_calculate_severity (cs : list str) :
  matched_classes (calculate_severity cs) = filter recognized cs.
Proof.
  destruct cs as [|c cs]; [reflexivity|].
  assert (H : matched_classes (calculate_severity (c :: cs))
              = matched (fold_left scan_class (c :: cs) scan_init)).
  { unfold calculate_severity.
    destruct (is_critical_breach (c :: cs) || _); [reflexivity|].
    destruct (threshold "HIGH" <=? _); [reflexivity|].
    destruct (threshold "MEDIUM" <=? _); reflexivity. }
  rewrite H, matched_fold. reflexivity.
Qed.

(** X2: the matched categories are the recognized categories of the input (the
    keys of [DATA_CLASS_WEIGHTS]), in the order of the input, repetitions
    kept. *)
Theorem matched_classes_are_the_recognized (data_classes : list str) :
  matched_classes (calculate_severity data_classes)
  = filter (dict_mem DATA_CLASS_WEIGHTS) data_classes.
Proof. apply matched_classes_calculate_severity. Qed.

Lemma total_weight_permutation (a b : list str) :
  Permutation a b -> total_weight a = total_weight b.
Proof. induction 1; simpl; lia. Qed.

Lemma is_critical_breach_permutation (a b : list str) :
  Permutation a b -> is_critical_breach a = is_critical_breach b.
Proof.
  intro H.
  destruct (is_critical_breach a) eqn:Ea, (is_critical_breach b) eqn:Eb; try reflexivity.
  - apply is_critical_breach_true in Ea as [c [Hin Hc]].
    assert (is_critical_breach b = true).
    { apply is_critical_breach_true. exists c. split; [|exact Hc].
      eapply Permutation_in; eauto. }
    congruence.
  - apply is_critical_breach_true in Eb as [c [Hin Hc]].
    assert (is_critical_breach a = true).
    { apply is_critical_breach_true. exists c. split; [|exact Hc].
      eapply Permutation_in; [apply Permutation_sym|]; eauto. }
    congruence.
Qed.

Lemma filter_permutation {A} (f : A -> bool) (a b : list A) :
  Permutation a b -> Permutation (filter f a) (filter f b).
Proof.
  induction 1; cbn [filter].
  - constructor.
  - destruct (f x); [now constructor | assumption].
  - destruct (f x), (f y); try apply Permutation_refl; now constructor.
  - eapply Permutation_trans; eauto.
Qed.

(** X3: the score and the label do not depend on the order of the categories,
    and the matched categories are the same up to their order. *)
Theorem severity_permutation_invariant (a b : list str) :
  Permutation a b ->
  score (calculate_severity a) = score (calculate_severity b)
  /\ label (calculate_severity a) = label (calculate_severity b)
  /\ Permutation (matched_classes (calculate_severity a))
                 (matched_classes (calculate_severity b)).
Proof.
  intro H.
  assert (Hs : score (calculate_severity a) = score (calculate_severity b)).
  { destruct a as [|x a].
    - apply Permutation_nil in H. now subst.
    - destruct b as [|y b]; [apply Permutation_sym, Permutation_nil in H; discriminate|].
      rewrite !score_calculate_severity.
      rewrite (total_weight_permutation _ _ H), (is_critical_breach_permutation _ _ H).
      reflexivity. }
  split; [exact Hs|]. split.
  - rewrite !label_calculate_severity, Hs. reflexivity.
  - rewrite !matched_classes_calculate_severity. now apply filter_permutation.
Qed.

End SeverityLadderFacts.

Module SeverityLadderExamples.
Import SeverityEngine SeverityLadderFacts.

Lemma severity_permutation_invariant_witness :
  score (calculate_severity [lit "Names"; lit "Foo"; lit "Passwords"])
  = score (calculate_severity [lit "Passwords"; lit "Names"; lit "Foo"])
  /\ label (calculate_severity [lit "Names"; lit "Foo"; lit "Passwords"])
     = label (calculate_severity [lit "Passwords"; lit "Names"; lit "Foo"])
  /\ Permutation
       (matched_classes (calculate_severity [lit "Names"; lit "Foo"; lit "Passwords"]))
       (matched_classes (calculate_severity [lit "Passwords"; lit "Names"; lit "Foo"])).
Proof.
  apply (severity_permutation_invariant
           [lit "Names"; lit "Foo"; lit "Passwords"]
           [lit "Passwords"; lit "Names"; lit "Foo"]).
  apply Permutation_sym.
  change [lit "Names"; lit "Foo"; lit "Passwords"]
    with ([lit "Names"; lit "Foo"] ++ [lit "Passwords"]).
  apply Permutation_cons_append.
Defined.

End SeverityLadderExamples.

Module SeverityBadgeFacts.
Import SeverityEngine SeverityLadderSpec SeverityBadge PyFacts SeverityLadderFacts.

Lemma label_of_score_cases (s : Z) :
  In (label_of_score s) [lit "CRITICAL"; lit "HIGH"; lit "MEDIUM"; lit "LOW"].
Proof.
  unfold label_of_score.
  destruct (_ <=? s); [now left|].
  destruct (_ <=? s); [right; now left|].
  destruct (_ <=? s); [right; right; now left | right; right; right; now left].
Qed.

(** X5: the badge of a computed label is never the UNKNOWN one: it is one of
    the four coloured discs, a space and the label itself.  The UNKNOWN
    badge is what every other string gets, a label in lower case
    included. *)
Theorem badge_of_computed_label (data_classes : list str) :
  let l := label (calculate_severity data_classes) in
  (exists disc, In disc [128308%N; 128992%N; 128993%N; 128994%N]
                /\ get_severity_badge l = disc :: lit " " ++ l)
  /\ get_severity_badge l <> 9898%N :: lit " UNKNOWN"
  /\ (forall other,
        ~ In other [lit "CRITICAL"; lit "HIGH"; lit "MEDIUM"; lit "LOW"] ->
        get_severity_badge other = 9898%N :: lit " UNKNOWN").
Proof.
  cbv zeta. rewrite label_calculate_severity.
  split; [|split].
  - destruct (label_of_score_cases (score (calculate_severity data_classes)))
      as [<- | [<- | [<- | [<- | []]]]].
    + exists 128308%N. split; [now left | reflexivity].
    + exists 128992%N. split; [right; now left | reflexivity].
    + exists 128993%N. split; [right; right; now left | reflexivity].
    + exists 128994%N. split; [right; right; right; now left | reflexivity].
  - destruct (label_of_score_cases (score (calculate_severity data_classes)))
      as [<- | [<- | [<- | [<- | []]]]]; discriminate.
  - intros other Hother. unfold get_severity_badge.
    destruct (str_eqb other (lit "CRITICAL")) eqn:E1;
      [apply str_eqb_eq in E1; exfalso; apply Hother; subst; now left|].
    destruct (str_eqb other (lit "HIGH")) eqn:E2;
      [apply str_eqb_eq in E2; exfalso; apply Hother; subst; right; now left|].
    destruct (str_eqb other (lit "MEDIUM")) eqn:E3;
      [apply str_eqb_eq in E3; exfalso; apply Hother; subst; right; right; now left|].
    destruct (str_eqb other (lit "LOW")) eqn:E4;
      [apply str_eqb_eq in E4; exfalso; apply Hother; subst; right; right; right; now left|].
    reflexivity.
Qed.

End SeverityBadgeFacts.

Module UnrecognizedFacts.
Import SeverityEngine SeverityEngineSpec SeverityLadderSpec PyFacts SeverityEngineFacts
       SeverityLadderFacts.

Lemma weight_of_unrecognized (c : str) : recognized c = false -> weight_of c = 2.
Proof.
  unfold recognized, weight_of, dict_mem, dict_get_default.
  destruct (dict_get DATA_CLASS_WEIGHTS c); [discriminate | reflexivity].
Qed.

Lemma critical_types_recognized :
  forallb recognized critical_types = true.
Proof. vm_compute. reflexivity. Qed.

Lemma total_weight_unrecognized (cs : list str) :
  Forall (fun c => recognized c = false) cs -> total_weight cs = 2 * len cs.
Proof.
  induction 1 as [|c cs Hc _ IH]; [reflexivity|].
  cbn [total_weight]. rewrite IH, (weight_of_unrecognized c Hc).
  unfold len. cbn [length]. lia.
Qed.

Lemma is_critical_breach_unrecognized (cs : list str) :
  Forall (fun c => recognized c = false) cs -> is_critical_breach cs = false.
Proof.
  intro H. destruct (is_critical_breach cs) eqn:E; [|reflexivity].
  apply is_critical_breach_true in E as [c [Hin Hc]].
  rewrite Forall_forall in H. specialize (H c Hin).
  pose proof critical_types_recognized as Hr.
  rewrite forallb_forall in Hr. rewrite (Hr c Hc) in H. discriminate.
Qed.

(** X4: categories the weight table does not know are not matched, yet each
    adds the default weight 2 to the score: a list of unrecognized
    categories only has no matched category, scores twice its length (100 at
    most), and has its first category as the top risk. *)
Theorem unrecognized_categories_weigh_two (data_classes : list str) :
  data_classes <> [] ->
  Forall (fun c => dict_mem DATA_CLASS_WEIGHTS c = false) data_classes ->
  let r := calculate_severity data_classes in
  matched_classes r = []
  /\ score r = Z.min (2 * len data_classes) 100
  /\ Some (top_risk r) = hd_error data_classes.
Proof.
  intros Hne Hun r. subst r. split; [|split].
  - rewrite matched_classes_calculate_severity.
    induction Hun as [|c cs Hc _ IH]; [reflexivity|].
    cbn [filter]. unfold recognized at 1. rewrite Hc.
    destruct cs as [|d cs]; [reflexivity|]. apply IH. discriminate.
  - destruct data_classes as [|c cs]; [congruence|].
    rewrite score_calculate_severity, (total_weight_unrecognized _ Hun),
      (is_critical_breach_unrecognized _ Hun).
    unfold final_score. cbn [orb].
    destruct (25 <=? _) eqn:E; [apply Z.leb_le in E; lia | reflexivity].
  - destruct data_classes as [|c cs]; [congruence|].
    rewrite top_risk_calculate_severity. cbn [hd_error]. f_equal.
    destruct (fold_scan_class_top (c :: cs) scan_init)
      as [[Hall _] | [before [after [Hcs [_ [_ [Hb Ha]]]]]]].
    + exfalso. inversion Hall as [|? ? Hc _]; subst.
      pose proof (weight_of_bounds c). simpl in Hc. lia.
    + destruct before as [|b before]; [now injection Hcs|].
      exfalso. injection Hcs as -> Hcs'.
      inversion Hb as [|? ? Hlt _]; subst.
      inversion Hun as [|? ? Hc Hrest]; subst.
      assert (Hin : In (top (fold_left scan_class (b :: cs) scan_init)) cs).
      { rewrite Hcs' at 2. apply in_or_app. right. now left. }
      rewrite Forall_forall in Hrest. specialize (Hrest _ Hin).
      rewrite (weight_of_unrecognized _ Hc) in Hlt.
      unfold recognized in Hrest.
      rewrite (weight_of_unrecognized _ Hrest) in Hlt. lia.
Qed.

Lemma unrecognized_categories_weigh_two_witness :
  let r := calculate_severity [lit "Shoe sizes"; lit "Pet names"] in
  matched_classes r = []
  /\ score r = Z.min (2 * len [lit "Shoe sizes"; lit "Pet names"]) 100
  /\ Some (top_risk r) = hd_error [lit "Shoe sizes"; lit "Pet names"].
Proof.
  apply (unrecognized_categories_weigh_two [lit "Shoe sizes"; lit "Pet names"]).
  - discriminate.
  - repeat constructor.
Defined.

End UnrecognizedFacts.

(** ** The email preview *)

Module CryptoFacts.
Import Crypto PyFacts SmsBodyFacts.

Lemma split_once_app (sep : char) (a b : str) :
  ~ In sep a -> split_once sep (a ++ sep :: b) = Some (a, b).
Proof.
  induction a as [|c a IH]; intro Hn; cbn [app split_once].
  - now rewrite N.eqb_refl.
  - destruct (N.eqb c sep) eqn:E.
    + apply N.eqb_eq in E. exfalso. apply Hn. now left.
    + rewrite IH; [reflexivity|]. intro Hin. apply Hn. now right.
Qed.

Lemma split_once_some (sep : char) (s a b : str) :
  split_once sep s = Some (a, b) -> s = a ++ sep :: b /\ ~ In sep a.
Proof.
  revert a b; induction s as [|c s IH]; intros a b; cbn [split_once]; [discriminate|].
  destruct (N.eqb c sep) eqn:E.
  - apply N.eqb_eq in E. intro H. injection H as <- <-. subst. split; [reflexivity | intros []].
  - destruct (split_once sep s) as [[a' b']|]; [|discriminate].
    intro H. injection H as <- <-. destruct (IH a' b' eq_refl) as [-> Hn].
    split; [reflexivity|]. intros [Hc | Hin]; [|contradiction].
    subst. rewrite N.eqb_refl in E. discriminate.
Qed.

Lemma split_once_none (sep : char) (s : str) :
  split_once sep s = None <-> ~ In sep s.
Proof.
  induction s as [|c s IH]; cbn [split_once].
  - split; [intros _ [] | reflexivity].
  - destruct (N.eqb c sep) eqn:E.
    + apply N.eqb_eq in E. split; [discriminate|]. intro Hn. exfalso. apply Hn. now left.
    + destruct (split_once sep s) as [[a b]|].
      * split; [discriminate|]. intro Hn. exfalso.
        assert (Hs : ~ In sep s) by (intro; apply Hn; now right).
        apply IH in Hs. discriminate.
      * split; [|reflexivity]. intros _ [Hc | Hin].
        -- subst. rewrite N.eqb_refl in E. discriminate.
        -- now apply (proj1 IH).
Qed.

(** X6: the preview of an address keeps the domain as it is and shows of the
    local part (the text before the first [@]) its first character when the
    local part has at most three, its first three otherwise, followed by
    three stars: never more than three characters, and never the whole local
    part once that has two characters or more. *)
Theorem generate_email_preview_masks (local_part domain : str) :
  ~ In at_sign local_part ->
  let shown := firstn (if len local_part <=? 3 then 1 else 3) local_part in
  generate_email_preview (local_part ++ lit "@" ++ domain)
  = Some (shown ++ lit "***@" ++ domain)
  /\ len shown <= 3
  /\ (2 <= len local_part -> len shown < len local_part)
  /\ len (shown ++ lit "***@" ++ domain) = len shown + 4 + len domain.
Proof.
  intros Hn shown. split; [|split; [|split]].
  - unfold generate_email_preview.
    change (lit "@" ++ domain) with (at_sign :: domain).
    rewrite (split_once_app at_sign local_part domain Hn).
    subst shown. unfold slice_to. cbn [Z.leb Z.compare Z.to_nat Pos.to_nat Pos.iter_op Nat.add].
    destruct (len local_part <=? 3); rewrite <- !app_assoc; reflexivity.
  - subst shown. unfold len. rewrite length_firstn.
    destruct (Z.of_nat (length local_part) <=? 3); lia.
  - subst shown. unfold len. rewrite length_firstn. intro H2.
    destruct (Z.of_nat (length local_part) <=? 3) eqn:E;
      [apply Z.leb_le in E | apply Z.leb_gt in E]; lia.
  - rewrite !len_app. change (len (lit "***@")) with 4. lia.
Qed.

Lemma generate_email_preview_masks_witness :
  let shown := firstn (if len (lit "john.doe") <=? 3 then 1 else 3) (lit "john.doe") in
  generate_email_preview (lit "john.doe" ++ lit "@" ++ lit "gmail.com")
  = Some (shown ++ lit "***@" ++ lit "gmail.com")
  /\ len shown <= 3
  /\ (2 <= len (lit "john.doe") -> len shown < len (lit "john.doe"))
  /\ len (shown ++ lit "***@" ++ lit "gmail.com") = len shown + 4 + len (lit "gmail.com").
Proof.
  apply (generate_email_preview_masks (lit "john.doe") (lit "gmail.com")).
  vm_compute. intuition discriminate.
Defined.

(** X7: [generate_email_preview] fails (the ValueError of the unpacking) exactly
    on a string without [@]; on any other string it splits at the first [@]
    only, so a second [@] stays in the domain. *)
Theorem generate_email_preview_needs_at (email : str) :
  (generate_email_preview email = None <-> ~ In at_sign email)
  /\ (forall preview, generate_email_preview email = Some preview ->
        exists local_part domain,
          email = local_part ++ lit "@" ++ domain
          /\ ~ In at_sign local_part
          /\ exists shown, preview = shown ++ lit "***@" ++ domain).
Proof.
  unfold generate_email_preview. split.
  - rewrite <- split_once_none.
    destruct (split_once at_sign email) as [[a b]|]; split; intro H;
      try discriminate; reflexivity.
  - intros preview H.
    destruct (split_once at_sign email) as [[a b]|] eqn:E; [|discriminate].
    apply split_once_some in E as [-> Hn]. exists a, b.
    split; [reflexivity|]. split; [exact Hn|].
    injection H as <-.
    destruct (len a <=? 3);
      [exists (slice_to a 1) | exists (slice_to a 3)];
      rewrite <- app_assoc; reflexivity.
Qed.

End CryptoFacts.

(** ** What reaches the SMS provider *)

Module SmsProviderFacts.
Import Alerts SmsBody SmsBodySpec PyFacts SmsBodyFacts RunSpec Runs.

Lemma gate_open (severity : str) :
  contains [lit "CRITICAL"; lit "HIGH"] severity = true ->
  severity = lit "CRITICAL" \/ severity = lit "HIGH".
Proof. rewrite contains_In. intros [<- | [<- | []]]; auto. Qed.

Lemma build_sms_message_fits (breach_name severity email_preview : str) :
  brace_free severity = true -> brace_free email_preview = true ->
  len severity + len email_preview <= 63 ->
  exists message, build_sms_message breach_name severity email_preview = Ok message.
Proof.
  intros Hs Hp Hroom.
  rewrite build_sms_message_unfold by assumption. cbn zeta.
  rewrite len_boilerplate. unfold shown_name.
  destruct (room severity email_preview <? len breach_name) eqn:E.
  - apply Z.ltb_lt in E. unfold room in *.
    rewrite len_app, len_slice_to_nonneg by lia.
    change (len (lit "...")) with 3.
    destruct (_ <=? 160) eqn:E'; [eauto | apply Z.leb_gt in E'; lia].
  - apply Z.ltb_ge in E. unfold room in *.
    destruct (_ <=? 160) eqn:E'; [eauto | apply Z.leb_gt in E'; lia].
Qed.

(** X8: what reaches the SMS provider: one call of [send_breach_sms] hands it
    at most one message, and only a message of CRITICAL or HIGH severity,
    to a number made of [+] and digits, from the configured sender, whose
    body is the one [build_sms_message] returned, 160 characters at most. *)
Theorem sms_provider_call_is_checked {L} env
    (to_phone breach_name severity email_preview : str) (w : World) (l : L) :
  let w' := fst (snd (send_breach_sms env to_phone breach_name severity email_preview
                        (w, l))) in
  sms_outbox w' = sms_outbox w
  \/ exists body,
       sms_outbox w' = sms_outbox w ++ [mkSmsCall body (TWILIO_FROM_NUMBER env) to_phone]
       /\ build_sms_message breach_name severity email_preview = Ok body
       /\ len body <= 160
       /\ (severity = lit "CRITICAL" \/ severity = lit "HIGH")
       /\ starts_with_plus to_phone = true
       /\ isdigit env (slice_from to_phone 1) = true.
Proof.
  cbv zeta. unfold send_breach_sms.
  destruct (contains _ severity) eqn:Eg; cbn [negb]; [|left; reflexivity].
  destruct (starts_with_plus to_phone) eqn:Ep; cbn [negb orb]; [|left; reflexivity].
  destruct (isdigit env _) eqn:Ed; cbn [negb]; [|left; reflexivity].
  destruct (build_sms_message breach_name severity email_preview) as [body|e] eqn:Eb;
    [|left; reflexivity].
  right. exists body.
  split; [|split; [reflexivity | split; [|split; [|split; reflexivity]]]].
  - exec. destruct (twilio_create _ _ _); reflexivity.
  - apply (build_sms_message_checked _ _ _ _ Eb).
  - apply gate_open, Eg.
Qed.

(** X9: with a preview of 55 characters at most that holds no brace,
    [send_breach_sms] never raises, whatever the breach name, the severity,
    the number and the provider: it returns a result whose status is sent,
    failed or skipped. *)
Theorem send_breach_sms_returns {L} env
    (to_phone breach_name severity email_preview : str) (w : World) (l : L) :
  brace_free email_preview = true -> len email_preview <= 55 ->
  exists r,
    fst (send_breach_sms env to_phone breach_name severity email_preview (w, l)) = Ok r
    /\ In (status r) [Some (lit "sent"); Some (lit "failed"); Some (lit "skipped")].
Proof.
  intros Hb Hlen. unfold send_breach_sms.
  destruct (contains _ severity) eqn:Eg; cbn [negb].
  2:{ eexists. split; [reflexivity|]. right. right. now left. }
  destruct (starts_with_plus to_phone) eqn:Ep; cbn [negb orb].
  2:{ eexists. split; [reflexivity|]. right. now left. }
  destruct (isdigit env _) eqn:Ed; cbn [negb].
  2:{ eexists. split; [reflexivity|]. right. now left. }
  destruct (build_sms_message_fits breach_name severity email_preview) as [body Eb];
    [| exact Hb | |].
  - destruct (gate_open _ Eg) as [-> | ->]; reflexivity.
  - destruct (gate_open _ Eg) as [-> | ->];
      [change (len (lit "CRITICAL")) with 8 | change (len (lit "HIGH")) with 4]; lia.
  - rewrite Eb. exec.
    destruct (twilio_create _ _ _); eexists; (split; [reflexivity|]);
      [now left | right; now left].
Qed.

End SmsProviderFacts.

Module SmsProviderExamples.
Import Alerts SmsBody SmsBodySpec SmsProviderFacts.

Lemma send_breach_sms_returns_witness :
  exists r,
    fst (send_breach_sms (Fixture.env_with 100) (lit "+15550123")
           (lit "Exactis Marketing And Data Aggregation Services") (lit "CRITICAL")
           (lit "joh***@mail.example.org") (Fixture.world_of Fixture.db0, tt)) = Ok r
    /\ In (status r) [Some (lit "sent"); Some (lit "failed"); Some (lit "skipped")].
Proof.
  apply (send_breach_sms_returns (Fixture.env_with 100) (lit "+15550123")
           (lit "Exactis Marketing And Data Aggregation Services") (lit "CRITICAL")
           (lit "joh***@mail.example.org") (Fixture.world_of Fixture.db0) tt).
  - reflexivity.
  - vm_compute. discriminate.
Defined.

End SmsProviderExamples.

(** ** The breach feed *)

Module FeedFacts.
Import HibpClient FeedSpec RunSpec Runs.

(** X10: a lookup asks the feed once, and a second time when the first answer
    is a 429, never more; the deciding answer gives the list on 200, the
    empty list on 404, and a failure otherwise (401, a second 429, any
    other status, a transport error).  Nothing else of the world changes. *)
Theorem get_breaches_for_email_retries_once {L} env (email : str) (w : World) (l : L) :
  let run := get_breaches_for_email env email (w, l) in
  fst run
  = match deciding_reply env (tick w) email with
    | Response c json =>
        if c =? 404 then Ok [] else if c =? 200 then Ok json else Raise FeedError
    | RequestError => Raise FeedError
    end
  /\ snd run
     = (if rate_limited (http_get env (tick w) email) then advance (advance w) else advance w,
        l).
Proof.
  cbv zeta. unfold get_breaches_for_email, session_get, deciding_reply, rate_limited.
  exec.
  destruct (http_get env (tick w) email) as [c json|]; cbn [fst snd]; [|split; reflexivity].
  destruct (c =? 429) eqn:E429; cbn [fst snd tick].
  - destruct (http_get env (S (tick w)) email) as [c2 json2|]; cbn [fst snd];
      [|split; reflexivity].
    destruct (c2 =? 404); [split; reflexivity|].
    destruct (c2 =? 401) eqn:E401; [|destruct (c2 =? 200); split; reflexivity].
    apply Z.eqb_eq in E401. subst c2. split; reflexivity.
  - destruct (c =? 404); [split; reflexivity|].
    destruct (c =? 401) eqn:E401; [|destruct (c =? 200); split; reflexivity].
    apply Z.eqb_eq in E401. subst c. split; reflexivity.
Qed.

End FeedFacts.

(** ** The advisor and its cache *)

Module AdvisorFacts.
Import LLMAdvisor AdvisorSpec RunSpec Runs PyFacts CacheKeyFacts.

Lemma cache_by_key_app_miss (d : Db) (key : str) (r : RemediationCache.row) :
  cache_by_key d key = None -> RemediationCache.cache_key r = key ->
  cache_by_key (with_remediation_cache d (remediation_cache d ++ [r])) key = Some r.
Proof.
  unfold cache_by_key. cbn [remediation_cache with_remediation_cache].
  induction (remediation_cache d) as [|x rows IH]; cbn [find app]; intros Hm Hk.
  - rewrite Hk, str_eqb_refl. reflexivity.
  - destruct (str_eqb (RemediationCache.cache_key x) key); [discriminate|].
    now apply IH.
Qed.

(** X11: [generate_remediation] raises only when the cache key cannot be
    encoded, before anything is done; otherwise it always returns a text,
    whatever the store and the text generator do: the text of the cached
    row, the text the generator gave, or the fixed fallback text. *)
Theorem generate_remediation_always_answers {L} env (breach_name : str)
    (data_classes : list str) (w : World) (l : L) :
  let run := generate_remediation env breach_name data_classes (w, l) in
  match _build_cache_key env breach_name data_classes with
  | Raise e => run = (Raise e, (w, l))
  | Ok key =>
      exists text,
        fst run = Ok text
        /\ (text = fallback_text
            \/ (exists t, claude_create env t breach_name data_classes = Some text)
            \/ (exists row, cache_by_key (pending w) key = Some row
                            /\ RemediationCache.remediation_text row = text))
  end.
Proof.
  cbv zeta. unfold generate_remediation.
  destruct (_build_cache_key env breach_name data_classes) as [key|e]; [|reflexivity].
  exec.
  destruct (cache_by_key (pending w) key) as [row|] eqn:Hc; cbn [fst snd tick].
  - destruct (store_accepts env (tick w)); cbn [fst snd tick].
    + eexists. split; [reflexivity|]. right. right. eauto.
    + destruct (claude_create env (S (tick w)) breach_name data_classes) as [text|] eqn:Hg;
        cbn [fst snd tick].
      * destruct (store_accepts env (S (S (tick w)))); cbn [fst snd];
          (eexists; split; [reflexivity|]; right; left; eauto).
      * eexists. split; [reflexivity|]. now left.
  - destruct (claude_create env (tick w) breach_name data_classes) as [text|] eqn:Hg;
      cbn [fst snd tick].
    + destruct (store_accepts env (S (tick w))); cbn [fst snd];
        (eexists; split; [reflexivity|]; right; left; eauto).
    + eexists. split; [reflexivity|]. now left.
Qed.

Lemma generate_remediation_hit_run {L} env (breach_name : str)
    (data_classes : list str) (w : World) (l : L) (key : str) (row : RemediationCache.row) :
  _build_cache_key env breach_name data_classes = Ok key ->
  cache_by_key (pending w) key = Some row ->
  store_accepts env (tick w) = true ->
  generate_remediation env breach_name data_classes (w, l)
  = (Ok (RemediationCache.remediation_text row),
     (with_store
        (advance (with_pending w
           (update_cache (pending w) (RemediationCache.id row) RemediationCache.hit)))
        (update_cache (pending w) (RemediationCache.id row) RemediationCache.hit), l)).
Proof.
  intros Hk Hc Ha. unfold generate_remediation.
  rewrite Hk. exec. rewrite Hc. cbn [fst snd tick]. rewrite Ha. reflexivity.
Qed.


(** X13: when the text generator fails on a cache miss, the call returns the
    fixed fallback text and writes nothing: the fallback is not cached, and
    the session and the store are as they were. *)
Theorem generate_remediation_fallback_is_not_cached {L} env (breach_name : str)
    (data_classes : list str) (w : World) (l : L) (key : str) :
  _build_cache_key env breach_name data_classes = Ok key ->
  cache_by_key (pending w) key = None ->
  claude_create env (tick w) breach_name data_classes = None ->
  generate_remediation env breach_name data_classes (w, l)
  = (Ok fallback_text, (advance w, l)).
Proof.
  intros Hk Hc Hg. unfold generate_remediation. rewrite Hk. exec.
  rewrite Hc. cbn [fst snd tick]. rewrite Hg. reflexivity.
Qed.

Lemma build_cache_key_permutation env env' (breach_name : str) (a b : list str) :
  sha256_hexdigest env' = sha256_hexdigest env -> Permutation a b ->
  _build_cache_key env' breach_name b = _build_cache_key env breach_name a.
Proof.
  intros Hsha Hp. unfold _build_cache_key.
  rewrite Hsha, (sorted_permutation a b Hp). reflexivity.
Qed.

(** X14: what is generated once is served from the cache afterwards: after a
    miss that the generator answered and the store took, a call for the same
    breach name and the same data classes, in any order, returns the same
    text, whatever the generator would say now, provided the store takes
    the one commit this second call makes (that of the hit count). *)
Theorem generate_remediation_then_cached {L} env (breach_name : str)
    (data_classes data_classes' : list str) (w : World) (l : L) (key text : str) :
  _build_cache_key env breach_name data_classes = Ok key ->
  cache_by_key (pending w) key = None ->
  claude_create env (tick w) breach_name data_classes = Some text ->
  store_accepts env (S (tick w)) = true ->
  Permutation data_classes data_classes' ->
  let first := generate_remediation env breach_name data_classes (w, l) in
  let w1 := fst (snd first) in
  fst first = Ok text
  /\ cache_by_key (store w1) key
     = Some (RemediationCache.mk
               (next_id (map RemediationCache.id (remediation_cache (pending w))))
               key breach_name data_classes text 1)
  /\ forall env',
       sha256_hexdigest env' = sha256_hexdigest env ->
       store_accepts env' (tick w1) = true ->
       let second := generate_remediation env' breach_name data_classes' (w1, l) in
       fst second = Ok text /\ tick (fst (snd second)) = S (tick w1).
Proof.
  intros Hk Hc Hg Ha Hp. cbv zeta.
  set (row := RemediationCache.mk
                (next_id (map RemediationCache.id (remediation_cache (pending w))))
                key breach_name data_classes text 1).
  set (d1 := with_remediation_cache (pending w) (remediation_cache (pending w) ++ [row])).
  assert (Hfirst : generate_remediation env breach_name data_classes (w, l)
                   = (Ok text,
                      (with_store (advance (with_pending (advance w) d1)) d1, l))).
  { unfold generate_remediation. rewrite Hk. exec. rewrite Hc. cbn [fst snd tick].
    rewrite Hg. cbn [fst snd tick]. rewrite Ha. reflexivity. }
  rewrite Hfirst. cbn [fst snd store pending tick with_store advance with_pending].
  assert (Hd1 : cache_by_key d1 key = Some row)
    by (apply cache_by_key_app_miss; [exact Hc | reflexivity]).
  split; [reflexivity|]. split; [exact Hd1|].
  intros env' Hsha Ha'.
  pose proof (generate_remediation_hit_run env' breach_name data_classes'
                (with_store (advance (with_pending (advance w) d1)) d1) l key row) as H.
  cbn [fst snd store pending tick with_store advance with_pending] in H.
  rewrite H; [split; reflexivity | | exact Hd1 | exact Ha'].
  rewrite (build_cache_key_permutation env env' breach_name data_classes data_classes'
             Hsha Hp).
  exact Hk.
Qed.

End AdvisorFacts.

Module AdvisorExamples.
Import LLMAdvisor AdvisorSpec AdvisorFacts Fixture AdvisorFixture.


Lemma generate_remediation_fallback_is_not_cached_witness :
  generate_remediation env_generator_down (lit "Canva") [lit "Names"; lit "Usernames"]
    (world_of db_with_advice, tt)
  = (Ok fallback_text, (advance (world_of db_with_advice), tt)).
Proof.
  apply (generate_remediation_fallback_is_not_cached env_generator_down (lit "Canva")
           [lit "Names"; lit "Usernames"] (world_of db_with_advice) tt
           (lit "Canva|Names,Usernames"));
    vm_compute; reflexivity.
Defined.

Lemma generate_remediation_then_cached_witness :
  let w := world_of db0 in
  let first := generate_remediation (env_with 100) (lit "Adobe")
                 [lit "Passwords"; lit "Email addresses"] (w, tt) in
  let w1 := fst (snd first) in
  fst first = Ok (lit "1. Change your password.")
  /\ cache_by_key (store w1) (lit "Adobe|Email addresses,Passwords")
     = Some (RemediationCache.mk
               (next_id (map RemediationCache.id (remediation_cache (pending w))))
               (lit "Adobe|Email addresses,Passwords") (lit "Adobe")
               [lit "Passwords"; lit "Email addresses"] (lit "1. Change your password.") 1)
  /\ forall env',
       sha256_hexdigest env' = sha256_hexdigest (env_with 100) ->
       store_accepts env' (tick w1) = true ->
       let second := generate_remediation env' (lit "Adobe")
                       [lit "Email addresses"; lit "Passwords"] (w1, tt) in
       fst second = Ok (lit "1. Change your password.")
       /\ tick (fst (snd second)) = S (tick w1).
Proof.
  apply (generate_remediation_then_cached (env_with 100) (lit "Adobe")
           [lit "Passwords"; lit "Email addresses"]
           [lit "Email addresses"; lit "Passwords"] (world_of db0) tt
           (lit "Adobe|Email addresses,Passwords") (lit "1. Change your password."));
    try (vm_compute; reflexivity).
  apply perm_swap.
Defined.

End AdvisorExamples.

(** ** What a scan leaves behind *)

Module ScanFrameFacts.
Import ScanTasks RunSpec ScanFrameSpec Runs PyFacts SmsBodyFacts.

Lemma wp_for_each_raising {L A} (body : A -> M L unit) (Inv E : World -> L -> Prop) :
  (forall x w l, Inv w l ->
     wp (body x) (fun r w' l' => match r with
                                 | Ok _ => Inv w' l'
                                 | Raise _ => E w' l'
                                 end) w l) ->
  forall xs w l, Inv w l ->
    wp (for_each xs body) (fun r w' l' => match r with
                                          | Ok _ => Inv w' l'
                                          | Raise _ => E w' l'
                                          end) w l.
Proof.
  intros Hbody. induction xs as [|x xs IH]; intros w l HI.
  - exact HI.
  - cbn [for_each]. apply wp_bind.
    eapply wp_mono; [apply (Hbody x w l HI)|].
    intros [[]|e] w' l' HI'; [apply IH; exact HI' | exact HI'].
Qed.

Lemma generate_remediation_step {L} env n dc (w : World) (l : L) :
  wp (LLMAdvisor.generate_remediation env n dc)
     (fun r w' l' => l' = l /\ advisor_step env w w') w l.
Proof.
  unfold LLMAdvisor.generate_remediation, advisor_step, channels_kept, same_but_cache.
  exec.
  repeat branch;
    cbv [update_cache with_remediation_cache];
    cbn [fst snd store pending users monitored_emails breach_events alert_logs
         queue email_outbox sms_outbox];
    (split; [reflexivity|]; split; [reflexivity|]; split; [split; reflexivity|]);
    first [ solve [left; split;
                     [repeat split; reflexivity
                     | first [left; reflexivity | right; reflexivity]]]
          | right; split; [reflexivity|]; split; [reflexivity|]; eauto ].
Qed.

Lemma next_id_fresh (ids : list nat) : ~ In (next_id ids) ids.
Proof.
  assert (H : forall x, In x ids -> (x <= fold_right Nat.max 0 ids)%nat).
  { induction ids as [|y ids IH]; intros x []; cbn [fold_right].
    - subst. lia.
    - specialize (IH x H). lia. }
  intro Hin. specialize (H _ Hin). unfold next_id in H. lia.
Qed.

Lemma scan_frame_start env (w : World) : scan_frame env w (with_pending w (store w)) 0.
Proof.
  unfold scan_frame, tables_kept, channels_kept. cbn [store pending with_pending
    queue email_outbox sms_outbox].
  repeat (split; [solve [auto]|]). exists [], [], []. rewrite !app_nil_r.
  repeat split; try constructor. reflexivity.
Qed.

Lemma scan_frame_moved env w0 w w' count :
  scan_frame env w0 w count ->
  store w' = store w -> pending w' = pending w -> queue w' = queue w ->
  email_outbox w' = email_outbox w -> sms_outbox w' = sms_outbox w ->
  scan_frame env w0 w' count.
Proof.
  unfold scan_frame, channels_kept. intros H Es Ep Eq Ee Em.
  rewrite Es, Ep, Eq, Ee, Em. exact H.
Qed.

Lemma scan_frame_advisor env w0 w w' count :
  scan_frame env w0 w count -> advisor_step env w w' -> scan_frame env w0 w' count.
Proof.
  intros (Hts & Htp & [Hce Hcs] & Hk & jobs & c & u
          & Hq & Hj & Hes & Hep & Hsc & Hlen & Hall)
         (Eq & [Ee Em] & Hstep).
  unfold scan_frame, channels_kept, keys_distinct in *. rewrite Eq, Ee, Em.
  destruct Htp as (Hpu & Hpm & Hpa).
  destruct Hstep as [[(Eu & Emo & Eev & Eal) [Es | Es]] | (Es & Ep & t & Ht)].
  - split; [rewrite Es; exact Hts|].
    split; [unfold tables_kept; rewrite Eu, Emo, Eal; auto|].
    split; [auto|]. split; [rewrite Es, Eev; exact Hk|].
    exists jobs, c, u. rewrite Es, Eev. auto 10.
  - split; [unfold tables_kept; rewrite Es, Eu, Emo, Eal; auto|].
    split; [unfold tables_kept; rewrite Eu, Emo, Eal; auto|].
    split; [auto|]. split; [rewrite Es, Eev; intro H0; split; apply Hk, H0|].
    exists jobs, (c ++ u), [].
    rewrite Es, Eev, Hep, !app_nil_r. auto 10.
  - split; [rewrite Es; exact Hts|].
    split; [rewrite Ep; exact Hts|].
    split; [auto|]. split; [rewrite Es, Ep; intro H0; split; apply Hk, H0|].
    exists jobs, c, [].
    rewrite Es, Ep, Hes, !app_nil_r.
    apply Forall_app in Hsc as [Hc _].
    rewrite len_app in Hlen. pose proof (len_nonneg u).
    repeat split; auto; try lia.
    intro Hnever. rewrite (Hnever t) in Ht. discriminate.
Qed.

Lemma scan_frame_insert env w0 w w' count (row : BreachEvent.row) :
  scan_frame env w0 w count -> scored row ->
  BreachEvent.id row = next_id (map BreachEvent.id (breach_events (pending w))) ->
  store w' = store w ->
  pending w' = with_breach_events (pending w) (breach_events (pending w) ++ [row]) ->
  queue w' = queue w ++ [BreachEvent.id row] ->
  email_outbox w' = email_outbox w -> sms_outbox w' = sms_outbox w ->
  scan_frame env w0 w' (count + 1).
Proof.
  intros (Hts & Htp & [Hce Hcs] & Hk & jobs & c & u
          & Hq & Hj & Hes & Hep & Hsc & Hlen & Hall)
         Hrow Hid Es Ep Eq Ee Em.
  unfold scan_frame, channels_kept, tables_kept, keys_distinct in *.
  rewrite Es, Ep, Eq, Ee, Em. cbn [users monitored_emails alert_logs breach_events
    with_breach_events].
  repeat (split; [tauto|]).
  split.
  { intro H0. destruct (Hk H0) as [Hks Hkp]. split; [exact Hks|].
    rewrite map_app. apply NoDup_app; [exact Hkp | repeat constructor; intros [] |].
    intros a Ha [<- | []]. rewrite Hid in Ha. exact (next_id_fresh _ Ha). }
  exists (jobs ++ [BreachEvent.id row]), c, (u ++ [row]).
  rewrite Hq, Hep, <- !app_assoc. rewrite !len_app in *.
  change (len [BreachEvent.id row]) with 1. change (len [row]) with 1.
  repeat split; auto; try lia.
  - rewrite app_assoc. apply Forall_app. split; [exact Hsc|].
    constructor; [exact Hrow | constructor].
  - intro Hnever. rewrite (Hall Hnever), !map_app, <- app_assoc. reflexivity.
Qed.

Lemma scan_frame_raise env w0 w w' count :
  scan_frame env w0 w count ->
  store w' = store w -> queue w' = queue w ->
  email_outbox w' = email_outbox w -> sms_outbox w' = sms_outbox w ->
  scan_frame_raised w0 w'.
Proof.
  intros (Hts & Htp & [Hce Hcs] & Hk & jobs & c & u
          & Hq & Hj & Hes & Hep & Hsc & Hlen & Hall)
         Es Eq Ee Em.
  unfold scan_frame_raised, channels_kept, keys_distinct in *. rewrite Es, Eq, Ee, Em.
  split; [exact Hts|]. split; [auto|]. split; [intro H0; apply Hk, H0|].
  exists jobs, c.
  apply Forall_app in Hsc as [Hsc _].
  rewrite len_app in Hlen. pose proof (len_nonneg u).
  repeat split; auto; lia.
Qed.

Lemma ingest_breach_frame env w0 id raw (w : World) (count : Z) :
  scan_frame env w0 w count ->
  wp (ingest_breach env id raw)
     (fun r w' count' => match r with
                         | Ok _ => scan_frame env w0 w' count'
                         | Raise _ => scan_frame_raised w0 w'
                         end) w count.
Proof.
  intro HI. unfold ingest_breach.
  do 2 wp_step.
  destruct (breach_event_by_name (pending w) id _) eqn:Hex; cbv beta iota.
  { wp_step. exact HI. }
  wp_step. eapply wp_mono; [apply generate_remediation_step | cbv beta].
  intros [remediation|e] w1 l1 (-> & Hstep);
    pose proof (scan_frame_advisor _ _ _ _ _ HI Hstep) as HI1.
  2:{ apply (scan_frame_raise _ _ _ _ _ HI1); reflexivity. }
  repeat wp_step; simpl_world.
  - eapply (scan_frame_insert env w0 w1); [exact HI1 | | | reflexivity ..];
      [|reflexivity].
    unfold scored. cbn [BreachEvent.severity BreachEvent.severity_score
      BreachEvent.is_notified BreachEvent.notified_at BreachEvent.remediation_text
      BreachEvent.data_classes].
    repeat split; discriminate.
  - apply (scan_frame_raise _ _ _ _ _ HI1); reflexivity.
  - apply (scan_frame_raise _ _ _ _ _ HI1); reflexivity.
Qed.

Lemma get_breaches_for_email_moves {L} env email (w : World) (l : L) :
  wp (HibpClient.get_breaches_for_email env email)
     (fun r w' l' => l' = l /\ store w' = store w /\ pending w' = pending w
                     /\ queue w' = queue w /\ email_outbox w' = email_outbox w
                     /\ sms_outbox w' = sms_outbox w) w l.
Proof.
  unfold HibpClient.get_breaches_for_email, HibpClient.session_get. exec.
  repeat branch; repeat split; reflexivity.
Qed.

Lemma scan_loop_frame env w0 id breaches (w : World) (count : Z) :
  scan_frame env w0 w count ->
  wp (for_each breaches (ingest_breach env id))
     (fun r w' count' => match r with
                         | Ok _ => scan_frame env w0 w' count'
                         | Raise _ => scan_frame_raised w0 w'
                         end) w count.
Proof.
  apply (wp_for_each_raising (ingest_breach env id)
           (fun w' c => scan_frame env w0 w' c) (fun w' _ => scan_frame_raised w0 w')).
  intros x w1 l1. apply ingest_breach_frame.
Qed.

(** What a scan leaves behind, whatever the collaborators do. *)
Lemma process_single_email_frame env id w :
  scan_post env id w (fst (run_scan env id w)) (snd (run_scan env id w)).
Proof.
  unfold run_scan.
  apply (wp_run (process_single_email env id) 0 w (scan_post env id w)).
  unfold process_single_email.
  pose proof (scan_frame_start env w) as H0.
  assert (Hhandler : forall e w' l',
             scan_frame_raised w w' ->
             wp (rollback ;; retry env e)
                (fun r w'' (_ : Z) => scan_post env id w r (with_pending w'' (store w'')))
                w' l').
  { intros e w' l' ((Hu & Hm & Ha) & [Hce Hcs] & Hk & jobs & c
                     & Hq & Hes & Hsc & Hlen).
    repeat wp_step. unfold scan_post, channels_kept.
    cbn [store pending queue email_outbox sms_outbox with_pending].
    repeat (split; [solve [auto]|]).
    exists jobs, c. repeat (split; [assumption|]).
    right. eexists. auto. }
  assert (Hskip : (match monitored_email_by_id (store w) id with
                   | None => True
                   | Some me => MonitoredEmail.is_active me = false
                   end) ->
                  scan_post env id w (Ok (ScanDone id 0))
                    (with_pending (with_pending w (store w)) (store w))).
  { intro Hno. unfold scan_post, channels_kept.
    cbn [store pending queue email_outbox sms_outbox with_pending].
    repeat (split; [solve [auto]|]).
    exists [], []. rewrite !app_nil_r. repeat (split; [reflexivity || constructor|]).
    left. exists 0. repeat (split; [reflexivity || (cbn; lia)|]).
    destruct (monitored_email_by_id (store w) id) as [me|]; [|auto].
    rewrite Hno. auto. }
  do 4 wp_step. simpl_world.
  destruct (monitored_email_by_id (store w) id) as [me|] eqn:Hme; cbv beta iota.
  2:{ wp_step. apply Hskip. exact I. }
  destruct (MonitoredEmail.is_active me) eqn:Hact; cbn [negb]; cbv beta iota.
  2:{ wp_step. apply Hskip. reflexivity. }
  wp_step.
  destruct (decrypt_email env (MonitoredEmail.email_encrypted me)); cbv beta iota.
  2:{ wp_step. apply Hhandler.
      apply (scan_frame_raise _ _ _ _ _ H0); reflexivity. }
  wp_step. wp_step.
  eapply wp_mono; [apply get_breaches_for_email_moves | cbv beta].
  intros [breaches|e] w1 l1 (-> & Hs & Hp & Hq & He & Hm).
  2:{ apply Hhandler.
      apply (scan_frame_raise _ _ _ _ _ H0); assumption. }
  wp_step.
  eapply wp_mono;
    [apply (scan_loop_frame env w id breaches w1);
     apply (scan_frame_moved _ _ _ _ _ H0); assumption | cbv beta].
  intros [[]|e] w2 l2 HI2.
  2:{ apply Hhandler, HI2. }
  repeat wp_step.
  - destruct HI2 as (Hts & (Hpu & Hpm & Hpa) & [Hce Hcs] & Hk & jobs & c & u
                     & Hq2 & Hj & Hes & Hep & Hsc & Hlen & Hall).
    unfold scan_post, channels_kept, keys_distinct in *.
    cbn [store pending queue email_outbox sms_outbox with_pending with_store advance
         update_monitored_email with_monitored_emails users alert_logs breach_events
         monitored_emails].
    repeat (split; [solve [auto]|]).
    split; [intro Hk0; apply Hk, Hk0|].
    exists jobs, (c ++ u). repeat (split; [assumption|]).
    left. exists l2. repeat (split; [solve [auto]|]).
    rewrite Hme, Hact. eexists. rewrite Hpm. reflexivity.
  - apply (Hhandler DatabaseError _ l2).
    apply (scan_frame_raise _ _ _ _ _ HI2); reflexivity.
Qed.

Lemma score_in_range (cs : list str) :
  0 <= SeverityEngine.score (SeverityEngine.calculate_severity cs) <= 100.
Proof.
  destruct cs as [|c cs]; [cbn; lia|].
  rewrite SeverityEngineFacts.score_calculate_severity.
  apply SeverityEngineFacts.final_score_bounds, SeverityEngineFacts.total_weight_nonneg.
Qed.

Lemma label_in_ladder (cs : list str) :
  In (SeverityEngine.label (SeverityEngine.calculate_severity cs))
     [lit "CRITICAL"; lit "HIGH"; lit "MEDIUM"; lit "LOW"].
Proof.
  rewrite SeverityLadderFacts.label_calculate_severity.
  apply SeverityBadgeFacts.label_of_score_cases.
Qed.

(** X15: a scan alerts nobody itself.  Whether it returns or raises, it has
    handed nothing to the mail provider and nothing to the SMS provider, it
    has written neither the users nor the delivery records, and it leaves
    no transaction open.  When it returns, the dict is that of the scanned
    identity, and its count is not negative. *)
Theorem scan_alerts_nobody env id w :
  let r := fst (run_scan env id w) in
  let w' := snd (run_scan env id w) in
  users (store w') = users (store w)
  /\ alert_logs (store w') = alert_logs (store w)
  /\ email_outbox w' = email_outbox w
  /\ sms_outbox w' = sms_outbox w
  /\ pending w' = store w'
  /\ (forall i n, r = Ok (ScanDone i n) -> i = id /\ 0 <= n).
Proof.
  cbv zeta.
  destruct (process_single_email_frame env id w)
    as (Hu & Ha & [He Hs] & Hp & _ & jobs & added & _ & _ & _ & Hr).
  repeat (split; [assumption|]).
  intros i n Hres.
  destruct Hr as [(n' & Hr & Hj & _) | (e & Hr & _)]; rewrite Hr in Hres;
    [|discriminate].
  injection Hres as <- <-. split; [reflexivity|].
  rewrite <- Hj. apply len_nonneg.
Qed.


(** X17: whether a scan returns or raises, the events it added to the store
    are no more than the dispatch jobs it enqueued.  The count a finished
    scan returns is the number of those jobs; while the store refuses no
    write, a finished scan enqueued exactly one job per event it added,
    carrying the key of the event, in the order of the events. *)
Theorem scan_counts_its_dispatch_jobs env id w :
  let r := fst (run_scan env id w) in
  let w' := snd (run_scan env id w) in
  exists jobs added,
    queue w' = queue w ++ jobs
    /\ breach_events (store w') = breach_events (store w) ++ added
    /\ len added <= len jobs
    /\ (forall n, r = Ok (ScanDone id n) ->
          len jobs = n
          /\ (store_never_refuses env ->
              jobs = map BreachEvent.id added /\ len added = n)).
Proof.
  cbv zeta.
  destruct (process_single_email_frame env id w)
    as (_ & _ & _ & _ & _ & jobs & added & Hq & He & _ & Hr).
  exists jobs, added. split; [exact Hq|]. split; [exact He|].
  destruct Hr as [(n & Hr & Hj & Hl & Hall & _) | (e & Hr & Hl & _)].
  - split; [lia|]. intros n' Hres. rewrite Hr in Hres. injection Hres as <-.
    split; [exact Hj|]. intro Hnever.
    specialize (Hall Hnever). split; [exact Hall|].
    rewrite <- Hj, Hall. unfold len. rewrite length_map. reflexivity.
  - split; [exact Hl|]. intros n Hres. rewrite Hr in Hres. discriminate.
Qed.

(** X18: every event a scan adds to the store belongs to the scanned identity
    and carries the severity [calculate_severity] gives its own data
    classes: one of the four labels, with a score between 0 and 100; it is
    not notified yet and has a remediation text. *)
Theorem scan_events_are_scored env id w :
  exists added,
    breach_events (store (snd (run_scan env id w))) = breach_events (store w) ++ added
    /\ Forall (fun row =>
                 BreachEvent.monitored_email_id row = id
                 /\ scored row
                 /\ 0 <= BreachEvent.severity_score row <= 100
                 /\ In (BreachEvent.severity row)
                       [lit "CRITICAL"; lit "HIGH"; lit "MEDIUM"; lit "LOW"])
              added.
Proof.
  destruct (process_single_email_frame env id w)
    as (_ & _ & _ & _ & _ & jobs & added & _ & He & Hsc & _).
  destruct (ScanFacts.process_single_email_summary env id w) as (added' & He' & [Hf _]).
  exists added. split; [exact He|].
  assert (added' = added) by (rewrite He in He'; now apply app_inv_head in He').
  subst added'. rewrite Forall_forall in *. intros row Hin.
  destruct (Hf row Hin) as (Hid & _). pose proof (Hsc row Hin) as Hrow.
  split; [exact Hid|]. split; [exact Hrow|].
  destruct Hrow as (Hl & Hs & _). rewrite Hl, Hs.
  split; [apply score_in_range | apply label_in_ladder].
Qed.

Lemma breach_event_by_key (d : Db) (b : BreachEvent.row) :
  keys_distinct d -> In b (breach_events d) ->
  breach_event_by_id d (BreachEvent.id b) = Some b.
Proof.
  unfold keys_distinct, breach_event_by_id.
  induction (breach_events d) as [|x rows IH]; cbn [map find In]; [intros _ []|].
  intros Hnd [-> | Hin].
  - rewrite Nat.eqb_refl. reflexivity.
  - inversion Hnd as [|? ? Hx Hnd']; subst.
    destruct (Nat.eqb (BreachEvent.id x) (BreachEvent.id b)) eqn:E.
    + apply Nat.eqb_eq in E. exfalso. apply Hx. rewrite E. now apply in_map.
    + now apply IH.
Qed.

Lemma keys_distinct_apart (old added : list BreachEvent.row) (row : BreachEvent.row) :
  NoDup (map BreachEvent.id (old ++ added)) -> In row added -> ~ In row old.
Proof.
  induction old as [|x old IH]; cbn [app map]; intros Hnd Hadd; [intros []|].
  inversion Hnd as [|? ? Hx Hnd']; subst.
  intros [-> | Hin]; [|exact (IH Hnd' Hadd Hin)].
  apply Hx. apply in_map. apply in_or_app. now right.
Qed.

(** X19: the keys of the events stay distinct under a scan.  While the store
    refuses no write, every dispatch job a finished scan enqueued carries
    the key of an event the scan added: looked up by that key, the store
    gives a new event of the scanned identity that is not notified yet. *)
Theorem scan_jobs_find_their_events env id w :
  keys_distinct (store w) ->
  let r := fst (run_scan env id w) in
  let w' := snd (run_scan env id w) in
  keys_distinct (store w')
  /\ (store_never_refuses env ->
      forall n, r = Ok (ScanDone id n) ->
        exists jobs,
          queue w' = queue w ++ jobs /\ len jobs = n
          /\ Forall (fun job =>
                       exists row,
                         breach_event_by_id (store w') job = Some row
                         /\ BreachEvent.is_notified row = false
                         /\ BreachEvent.monitored_email_id row = id
                         /\ ~ In row (breach_events (store w))) jobs).
Proof.
  intros Hkeys. cbv zeta.
  destruct (process_single_email_frame env id w)
    as (_ & _ & _ & _ & Hk & jobs & added & Hq & He & Hsc & Hr).
  specialize (Hk Hkeys). split; [exact Hk|].
  intros Hnever n Hres.
  destruct Hr as [(n' & Hr & Hj & _ & Hall & _) | (e & Hr & _)];
    rewrite Hr in Hres; [|discriminate].
  injection Hres as <-. exists jobs. split; [exact Hq|]. split; [exact Hj|].
  rewrite (Hall Hnever).
  destruct (ScanFacts.process_single_email_summary env id w) as (added' & He' & [Hf _]).
  assert (added' = added) by (rewrite He in He'; now apply app_inv_head in He').
  subst added'. rewrite Forall_forall in *. intros job Hjob.
  apply in_map_iff in Hjob as (row & <- & Hrow). exists row.
  split; [|split; [|split]].
  - apply breach_event_by_key; [exact Hk|]. rewrite He. apply in_or_app. now right.
  - apply (Hsc row Hrow).
  - apply (Hf row Hrow).
  - unfold keys_distinct in Hk. rewrite He in Hk.
    apply (keys_distinct_apart _ _ _ Hk Hrow).
Qed.

End ScanFrameFacts.

Module ScanFrameExamples.
Import ScanTasks ScanFrameSpec ScanFrameFacts Fixture.

Lemma scan_jobs_find_their_events_witness :
  let w := world_of db0 in
  let r := fst (run_scan (env_with 100) 1 w) in
  let w' := snd (run_scan (env_with 100) 1 w) in
  keys_distinct (store w')
  /\ (RunSpec.store_never_refuses (env_with 100) ->
      forall n, r = Ok (ScanDone 1 n) ->
        exists jobs,
          queue w' = queue w ++ jobs /\ len jobs = n
          /\ Forall (fun job =>
                       exists row,
                         breach_event_by_id (store w') job = Some row
                         /\ BreachEvent.is_notified row = false
                         /\ BreachEvent.monitored_email_id row = 1%nat
                         /\ ~ In row (breach_events (store w))) jobs).
Proof.
  apply (scan_jobs_find_their_events (env_with 100) 1 (world_of db0)).
  constructor.
Defined.

(** The first scan of the test identity: two events, two jobs, keyed 1
    and 2. *)
Example first_scan_enqueues_two_jobs :
  let w' := snd (run_scan (env_with 100) 1 (world_of db0)) in
  fst (run_scan (env_with 100) 1 (world_of db0)) = Ok (ScanDone 1 2)
  /\ queue w' = [1%nat; 2%nat]
  /\ map BreachEvent.id (breach_events (store w')) = [1%nat; 2%nat]
  /\ map BreachEvent.severity (breach_events (store w')) = [lit "CRITICAL"; lit "MEDIUM"].
Proof. vm_compute. repeat split; reflexivity. Qed.

End ScanFrameExamples.

(** ** What a dispatch leaves behind *)

Module DispatchFrameFacts.
Import ScanTasks RunSpec DispatchFrameSpec Runs PyFacts.

Lemma send_breach_alert_effect {L} env to_email n sev dc rem prev date (w : World) (l : L) :
  wp (Alerts.send_breach_alert env to_email n sev dc rem prev date)
     (fun r w' l' =>
        l' = l /\ store w' = store w /\ pending w' = pending w /\ queue w' = queue w
        /\ sms_outbox w' = sms_outbox w
        /\ exists res call,
             r = Ok res /\ Runtime.to_email call = to_email
             /\ email_outbox w' = email_outbox w ++ [call]) w l.
Proof.
  unfold Alerts.send_breach_alert. exec.
  repeat branch; repeat (split; [reflexivity|]); do 2 eexists;
    (split; [reflexivity|]; split; [|reflexivity]); reflexivity.
Qed.

Lemma send_breach_sms_effect {L} env to_phone n sev prev (w : World) (l : L) :
  wp (Alerts.send_breach_sms env to_phone n sev prev)
     (fun r w' l' =>
        l' = l /\ store w' = store w /\ pending w' = pending w /\ queue w' = queue w
        /\ email_outbox w' = email_outbox w
        /\ exists texts,
             sms_outbox w' = sms_outbox w ++ texts /\ (length texts <= 1)%nat
             /\ Forall (fun t => to t = to_phone) texts) w l.
Proof.
  unfold Alerts.send_breach_sms.
  destruct (negb (contains _ sev));
    [exec; repeat (split; [reflexivity|]); exists []; rewrite app_nil_r; auto|].
  destruct (_ || _);
    [exec; repeat (split; [reflexivity|]); exists []; rewrite app_nil_r; auto|].
  exec. destruct (SmsBody.build_sms_message n sev prev);
    cbn [fst snd store pending queue email_outbox sms_outbox];
    [|repeat (split; [reflexivity|]); exists []; rewrite app_nil_r; auto].
  destruct (twilio_create _ _ _); cbn [fst snd store pending queue email_outbox sms_outbox];
    repeat (split; [reflexivity|]); eexists; (split; [reflexivity|]);
    (split; [cbn; lia | repeat constructor]).
Qed.

Lemma log_status_sent (r : Alerts.send_result) :
  str_eqb (HibpClient.get_or (Alerts.status r) (lit "failed")) (lit "sent") = sent r.
Proof. unfold sent. destruct (Alerts.status r); reflexivity. Qed.

Lemma truthy_some (s : option str) (p : str) : truthy s = Some p -> s = Some p.
Proof. destruct s as [[|c rest]|]; cbn; intro H; try discriminate; exact H. Qed.

Lemma handed_over_nothing (w w' : World) :
  email_outbox w' = email_outbox w -> sms_outbox w' = sms_outbox w ->
  handed_over w w' [] [].
Proof.
  intros He Hs. unfold handed_over. rewrite He, Hs, !app_nil_r.
  repeat split; auto.
Qed.

Lemma handed_over_moved (w w1 w2 : World) mails texts :
  handed_over w w1 mails texts ->
  email_outbox w2 = email_outbox w1 -> sms_outbox w2 = sms_outbox w1 ->
  handed_over w w2 mails texts.
Proof. unfold handed_over. intros H He Hs. rewrite He, Hs. exact H. Qed.

Lemma dispatch_alerts_frame env id w :
  dispatch_frame id w (fst (run_dispatch env id w)) (snd (run_dispatch env id w)).
Proof.
  unfold run_dispatch.
  apply (wp_run (dispatch_alerts env id) [] w (dispatch_frame id w)).
  unfold dispatch_alerts.
  assert (Hhandler : forall e w1 (ch : list str) mails texts,
             store w1 = store w -> queue w1 = queue w ->
             handed_over w w1 mails texts ->
             wp (rollback ;; retry env e)
                (fun r w'' (_ : list str) =>
                   dispatch_frame id w r (with_pending w'' (store w'')))
                w1 ch).
  { intros e w1 ch mails texts Hs Hq Hover. repeat wp_step.
    unfold dispatch_frame, handed_over in *.
    cbn [store pending queue email_outbox sms_outbox with_pending].
    rewrite Hs. repeat (split; [solve [auto]|]).
    exists mails, texts, []. rewrite app_nil_r.
    split; [exact Hover|]. split; [reflexivity|]. split; [constructor|].
    right. eexists. auto. }
  assert (Hguard : match breach_event_by_id (store w) id with
                   | None => True
                   | Some be => BreachEvent.is_notified be = true
                   end ->
                   dispatch_frame id w (Ok (Dispatched id []))
                     (with_pending (with_pending w (store w)) (store w))).
  { intro Hg. unfold dispatch_frame.
    cbn [store pending queue email_outbox sms_outbox with_pending].
    repeat (split; [solve [auto]|]).
    exists [], [], []. rewrite app_nil_r.
    split; [apply handed_over_nothing; reflexivity|].
    split; [reflexivity|]. split; [constructor|].
    left. exists []. split; [reflexivity|]. split; [reflexivity|].
    destruct (breach_event_by_id (store w) id) as [be|]; [rewrite Hg|]; auto. }
  do 4 wp_step. simpl_world.
  destruct (breach_event_by_id (store w) id) as [be|] eqn:Hbe; cbv beta iota.
  2:{ do 3 wp_step. apply Hguard. exact I. }
  destruct (BreachEvent.is_notified be) eqn:Hn; cbv beta iota.
  { do 3 wp_step. apply Hguard. reflexivity. }
  clear Hguard.
  do 3 wp_step. simpl_world.
  destruct (monitored_email_by_id (store w) (BreachEvent.monitored_email_id be))
    as [me|] eqn:Hme; cbv beta iota.
  2:{ wp_step. apply (Hhandler _ _ _ [] []); try reflexivity.
      apply handed_over_nothing; reflexivity. }
  wp_step. do 3 wp_step. simpl_world.
  destruct (user_by_id (store w) (MonitoredEmail.user_id me)) as [owner|] eqn:Hown;
    cbv beta iota.
  2:{ wp_step. apply (Hhandler _ _ _ [] []); try reflexivity.
      apply handed_over_nothing; reflexivity. }
  assert (Hin : In owner (users (store w))).
  { unfold user_by_id in Hown. apply find_some in Hown. tauto. }
  wp_step. wp_step.
  eapply wp_mono; [apply send_breach_alert_effect | cbv beta].
  intros r1 w1 l1 (-> & Hs1 & Hp1 & Hq1 & Hm1 & email_result & call & -> & Hto & He1).
  cbn [store pending queue email_outbox sms_outbox with_pending] in Hs1, Hp1, Hq1, Hm1, He1.
  assert (Hfinish : forall w3 ch logs mails texts,
             store w3 = store w ->
             users (pending w3) = users (store w) ->
             monitored_emails (pending w3) = monitored_emails (store w) ->
             remediation_cache (pending w3) = remediation_cache (store w) ->
             alert_logs (pending w3) = alert_logs (store w) ++ logs ->
             queue w3 = queue w ->
             handed_over w w3 mails texts ->
             Forall (fun a => AlertLog.breach_event_id a = id) logs ->
             ch = sent_channels logs ->
             map addressed logs = attempts_for owner ->
             length mails = 1%nat ->
             wp (notified <- now env ;;
                 change (fun d => update_breach_event d id
                                    (BreachEvent.mark_notified notified)) ;;
                 commit env ;;
                 channels <- get_local ;;
                 ret (Dispatched id channels))
                (fun r w' l' =>
                   match r with
                   | Ok a => dispatch_frame id w (Ok a) (with_pending w' (store w'))
                   | Raise e =>
                       wp (rollback ;; retry env e)
                          (fun r0 w'0 (_ : list str) =>
                             dispatch_frame id w r0 (with_pending w'0 (store w'0)))
                          w' l'
                   end) w3 ch).
  { intros w3 ch logs mails texts Hs3 Hu3 Hm3 Hc3 Ha3 Hq3 Hover Hlogs Hch Haddr Hlen.
    repeat wp_step.
    - unfold dispatch_frame.
      cbn [store pending queue email_outbox sms_outbox with_pending with_store advance
           update_breach_event with_breach_events users monitored_emails
           remediation_cache alert_logs].
      repeat (split; [solve [auto]|]).
      exists mails, texts, logs.
      split; [apply (handed_over_moved _ _ _ _ _ Hover); reflexivity|].
      split; [exact Ha3|]. split; [exact Hlogs|].
      left. exists ch. split; [reflexivity|]. split; [exact Hch|].
      rewrite Hbe, Hn. exists owner. auto.
    - apply (Hhandler DatabaseError _ ch mails texts); assumption. }
  assert (Hover1 : handed_over w w1 [call] []).
  { unfold handed_over. rewrite He1, Hm1, app_nil_r.
    repeat split; auto.
    constructor; [|constructor]. exists owner. auto. }
  unfold add_alert_log, channels_append.
  wp_step. wp_step. rewrite Hp1.
  set (log1 := AlertLog.mk _ id (lit "email") _ _ _).
  set (w2 := with_pending w1 _).
  assert (Hlog1 : sent_channels [log1] = if sent email_result then [lit "email"] else []).
  { unfold sent_channels. cbn [filter AlertLog.status log1].
    rewrite log_status_sent. destruct (sent email_result); reflexivity. }
  wp_step.
  assert (Hemail : wp (if sent email_result
                       then channels <- get_local ;; put_local (channels ++ [lit "email"])
                       else ret tt)
                      (fun r w' l' => r = Ok tt /\ w' = w2 /\ l' = sent_channels [log1])
                      w2 []).
  { rewrite Hlog1. destruct (sent email_result); repeat wp_step; auto. }
  eapply wp_mono; [exact Hemail | cbv beta]. clear Hemail.
  intros r w' l' (-> & -> & ->).
  wp_step.
  destruct (truthy (User.phone_number owner)) as [phone_number|] eqn:Hphone; cbv beta iota.
  2:{ wp_step.
      apply (Hfinish w2 _ [log1] [call] []); try reflexivity; try assumption.
      - repeat constructor.
      - unfold attempts_for. rewrite Hphone. reflexivity. }
  wp_step.
  eapply wp_mono; [apply send_breach_sms_effect | cbv beta].
  intros r3 w3 l3 (-> & Hs3 & Hp3 & Hq3 & He3 & texts & Hm3 & Hlen3 & Hto3).
  subst w2. cbn [store pending queue email_outbox sms_outbox with_pending]
    in Hs3, Hp3, Hq3, He3, Hm3.
  assert (Hover3 : handed_over w w3 [call] texts).
  { unfold handed_over. rewrite He3, He1, Hm3, Hm1.
    repeat split; auto.
    - constructor; [|constructor]. exists owner. auto.
    - rewrite Forall_forall in *. intros t Ht. exists owner. split; [exact Hin|].
      rewrite (Hto3 t Ht). apply truthy_some, Hphone. }
  destruct r3 as [sms_result|e].
  2:{ apply (Hhandler _ _ _ [call] texts); congruence. }
  wp_step. wp_step. rewrite Hp3. cbn [alert_logs with_alert_logs].
  set (log2 := AlertLog.mk _ id (lit "sms") _ _ _).
  set (w4 := with_pending w3 _).
  assert (Hlog2 : sent_channels [log1; log2]
                  = sent_channels [log1]
                    ++ (if sent sms_result then [lit "sms"] else [])).
  { unfold sent_channels. cbn [filter AlertLog.status log1 log2].
    rewrite !log_status_sent.
    destruct (sent email_result), (sent sms_result); reflexivity. }
  assert (Hdone : wp (notified <- now env ;;
                      change (fun d => update_breach_event d id
                                         (BreachEvent.mark_notified notified)) ;;
                      commit env ;;
                      channels <- get_local ;;
                      ret (Dispatched id channels))
                     (fun r w' l' =>
                        match r with
                        | Ok a => dispatch_frame id w (Ok a) (with_pending w' (store w'))
                        | Raise e =>
                            wp (rollback ;; retry env e)
                               (fun r0 w'0 (_ : list str) =>
                                  dispatch_frame id w r0 (with_pending w'0 (store w'0)))
                               w' l'
                        end) w4 (sent_channels [log1; log2])).
  { apply (Hfinish w4 _ [log1; log2] [call] texts); subst w4;
      cbn [store pending queue email_outbox sms_outbox with_pending
           users monitored_emails remediation_cache alert_logs with_alert_logs];
      try reflexivity; try assumption; try congruence.
    - rewrite <- app_assoc. reflexivity.
    - repeat constructor.
    - unfold attempts_for. rewrite Hphone. reflexivity. }
  rewrite Hlog2 in Hdone.
  destruct (sent sms_result); [do 3 wp_step | wp_step; rewrite app_nil_r in Hdone];
    exact Hdone.
Qed.




(** X22: a dispatch hands the mail provider one mail at most and the SMS
    provider one message at most; the mail goes to the address of a user
    and the message to the phone number of a user.  A dispatch of an event
    that was not notified, when it runs to its end, has handed over exactly
    one mail. *)
Theorem dispatch_contacts_users_only env id w :
  let r := fst (run_dispatch env id w) in
  let w' := snd (run_dispatch env id w) in
  exists mails texts,
    email_outbox w' = email_outbox w ++ mails /\ (length mails <= 1)%nat
    /\ sms_outbox w' = sms_outbox w ++ texts /\ (length texts <= 1)%nat
    /\ Forall (fun m => exists u, In u (users (store w)) /\ to_email m = User.email u) mails
    /\ Forall (fun t => exists u, In u (users (store w))
                                  /\ User.phone_number u = Some (to t)) texts
    /\ (forall ch be,
          r = Ok (Dispatched id ch) ->
          breach_event_by_id (store w) id = Some be ->
          BreachEvent.is_notified be = false ->
          length mails = 1%nat).
Proof.
  cbv zeta.
  destruct (dispatch_alerts_frame env id w)
    as (_ & _ & _ & _ & _ & mails & texts & logs & Hover & _ & _ & Hr).
  exists mails, texts. destruct Hover as (He & Hle & Hs & Hls & Hm & Ht).
  repeat (split; [assumption|]).
  intros ch be Hres Hbe Hn.
  destruct Hr as [(ch' & _ & _ & Hcase) | (e & Hr & _)]; [|congruence].
  rewrite Hbe, Hn in Hcase. destruct Hcase as (owner & _ & _ & Hlen). exact Hlen.
Qed.

End DispatchFrameFacts.

(** ** The periodic tasks *)

Module PeriodicFacts.
Import PeriodicTasks PeriodicSpec RunSpec Runs PyFacts SmsBodyFacts.

Lemma sweep_loop env (emails : list MonitoredEmail.row) : forall (w : World),
  wp (for_each emails (fun email => delay env (MonitoredEmail.id email)))
     (fun r w' (_ : unit) =>
        store w' = store w /\ pending w' = pending w
        /\ email_outbox w' = email_outbox w /\ sms_outbox w' = sms_outbox w
        /\ exists jobs rest,
             queue w' = queue w ++ jobs
             /\ map MonitoredEmail.id emails = jobs ++ rest
             /\ match r with
                | Ok _ => rest = []
                | Raise e => e = BrokerError /\ rest <> []
                             /\ ~ broker_never_refuses env
                end) w tt.
Proof.
  induction emails as [|x xs IH]; intro w; cbn [for_each].
  - wp_step. repeat (split; [reflexivity|]). exists [], []. rewrite app_nil_r. auto.
  - do 2 wp_step.
    + eapply wp_mono; [apply IH | cbv beta].
      intros r w' [] (Hs & Hp & He & Hm & jobs & rest & Hq & Hsplit & Hr).
      cbn [store pending queue email_outbox sms_outbox enqueue advance] in *.
      repeat (split; [assumption|]).
      exists (MonitoredEmail.id x :: jobs), rest.
      rewrite Hq, <- app_assoc. cbn [map app]. rewrite Hsplit. auto.
    + cbn [store pending queue email_outbox sms_outbox enqueue advance] in *.
      repeat (split; [reflexivity|]).
      exists [], (map MonitoredEmail.id (x :: xs)). rewrite app_nil_r.
      repeat split; try reflexivity; try discriminate.
      intro Hnever. rewrite (Hnever (tick w)) in H. discriminate.
Qed.

(** X23: a sweep hands the task queue scan jobs for the active identities
    only, by their keys and in the order of the table: whether it returns
    or raises, the jobs it handed over are the first of the active
    identities, with none left out in between and none for an inactive one;
    when it returns it has handed over all of them and reports their
    number.  It writes nothing to the store and alerts nobody. *)
Theorem scan_all_enqueues_the_active env w :
  let r := fst (ScanTasks.run (scan_all_monitored_emails env) tt w) in
  let w' := snd (ScanTasks.run (scan_all_monitored_emails env) tt w) in
  store w' = store w /\ pending w' = store w'
  /\ email_outbox w' = email_outbox w /\ sms_outbox w' = sms_outbox w
  /\ exists jobs rest,
       queue w' = queue w ++ jobs
       /\ active_ids (store w) = jobs ++ rest
       /\ (forall n, r = Ok (SweepDispatched n) ->
             rest = [] /\ n = len (active_ids (store w))).
Proof.
  cbv zeta.
  apply (wp_run (scan_all_monitored_emails env) tt w
           (fun r w' =>
              store w' = store w /\ pending w' = store w'
              /\ email_outbox w' = email_outbox w /\ sms_outbox w' = sms_outbox w
              /\ exists jobs rest,
                   queue w' = queue w ++ jobs
                   /\ active_ids (store w) = jobs ++ rest
                   /\ (forall n, r = Ok (SweepDispatched n) ->
                         rest = [] /\ n = len (active_ids (store w))))).
  unfold scan_all_monitored_emails, active_ids.
  do 4 wp_step. simpl_world. wp_step.
  eapply wp_mono; [apply sweep_loop | cbv beta].
  intros r w' [] (Hs & Hp & He & Hm & jobs & rest & Hq & Hsplit & Hr).
  simpl_world.
  destruct r as [[]|e]; repeat wp_step; simpl_world;
    (split; [assumption|]); (split; [reflexivity|]);
    (split; [assumption|]); (split; [assumption|]);
    exists jobs, rest; (split; [assumption|]); (split; [assumption|]).
  - intros n Hn. injection Hn as <-. split; [exact Hr|].
    unfold len. rewrite length_map. reflexivity.
  - intros n Hn. discriminate Hn.
Qed.

Lemma tally_fold (ago : datetime) (l : list BreachEvent.row) : forall t,
  fold_left (tally_breach ago) l t
  = mkTally (breaches_seen t + len l)
            (new_seen t + len (filter (detected_since ago) l))
            (fold_left Z.max (map BreachEvent.severity_score l) (highest_score t)).
Proof.
  induction l as [|b l IH]; intro t; cbn [fold_left filter map].
  - destruct t. cbn. f_equal; lia.
  - rewrite IH. unfold tally_breach, detected_since.
    cbn [breaches_seen new_seen highest_score].
    f_equal.
    + unfold len. cbn [length]. lia.
    + destruct (Nat.leb ago (BreachEvent.detected_at b)); unfold len; cbn [length]; lia.
    + f_equal. destruct (highest_score t <? BreachEvent.severity_score b) eqn:E;
        [apply Z.ltb_lt in E | apply Z.ltb_ge in E]; lia.
Qed.

Lemma tally_accounts (d : Db) (ago : datetime) (accounts : list MonitoredEmail.row) :
  forall t,
  fold_left (fun t account =>
               fold_left (tally_breach ago) (breach_events_of d account) t) accounts t
  = fold_left (tally_breach ago) (flat_map (breach_events_of d) accounts) t.
Proof.
  induction accounts as [|a accounts IH]; intro t; cbn [fold_left flat_map]; [reflexivity|].
  rewrite IH, fold_left_app. reflexivity.
Qed.

Lemma tally_user_digest (d : Db) (ago : datetime) (user : User.row) :
  let t := tally_user d ago (monitored_emails_of d user) in
  mkDigest (User.email user) (len (monitored_emails_of d user))
           (breaches_seen t) (new_seen t) (highest_score t)
  = digest_of d ago user.
Proof.
  cbv zeta. unfold tally_user, digest_of, events_of_user, highest_of.
  rewrite tally_accounts, tally_fold. reflexivity.
Qed.

Section Weekly.
Variable env : Env.
Variable sendgrid_send_digest : nat -> Digest -> mail_reply.
Variable seven_days_before : datetime -> datetime.

Lemma world_kept_refl w : world_kept w w.
Proof. repeat split. Qed.

Lemma world_kept_trans w1 w2 w3 : world_kept w1 w2 -> world_kept w2 w3 -> world_kept w1 w3.
Proof.
  unfold world_kept. intros (A & B & C & D & E) (A' & B' & C' & D' & E').
  repeat split; congruence.
Qed.

Lemma send_weekly_summary_effect (digest : Digest) (w : World) (f : weekly_frame) :
  wp (send_weekly_summary sendgrid_send_digest digest)
     (fun r w' f' =>
        (exists res, r = Ok res) /\ world_kept w w'
        /\ f' = mkWeekly (total_users_notified f) (digest_outbox f ++ [digest])) w f.
Proof.
  unfold send_weekly_summary, world_kept. exec.
  repeat branch; (split; [eauto|]); repeat split; reflexivity.
Qed.

Lemma summarize_user_effect (ago : datetime) (user : User.row) (w : World)
    (f : weekly_frame) :
  wp (summarize_user sendgrid_send_digest ago user)
     (fun r w' f' =>
        r = Ok tt /\ world_kept w w'
        /\ f' = if has_monitored (pending w) user
                then mkWeekly (total_users_notified f + 1)
                              (digest_outbox f ++ [digest_of (pending w) ago user])
                else f) w f.
Proof.
  unfold summarize_user, has_monitored. do 2 wp_step.
  destruct (len (monitored_emails_of (pending w) user) =? 0); cbn [negb].
  - wp_step. split; [reflexivity|]. split; [apply world_kept_refl | reflexivity].
  - rewrite tally_user_digest. wp_step.
    eapply wp_mono; [apply send_weekly_summary_effect | cbv beta].
    intros r w' f' ([res ->] & Hk & ->).
    repeat wp_step. split; [reflexivity|]. split; [exact Hk | reflexivity].
Qed.

Lemma summarize_loop (ago : datetime) (users : list User.row) :
  forall (w : World) (f : weekly_frame),
  wp (for_each users (summarize_user sendgrid_send_digest ago))
     (fun r w' f' =>
        r = Ok tt /\ world_kept w w'
        /\ f' = mkWeekly
                  (total_users_notified f
                   + len (filter (has_monitored (pending w)) users))
                  (digest_outbox f
                   ++ map (digest_of (pending w) ago)
                          (filter (has_monitored (pending w)) users))) w f.
Proof.
  induction users as [|u users IH]; intros w f; cbn [for_each filter].
  - wp_step. split; [reflexivity|]. split; [apply world_kept_refl|].
    cbn [map]. rewrite app_nil_r. change (len []) with 0. rewrite Z.add_0_r.
    destruct f; reflexivity.
  - wp_step. eapply wp_mono; [apply summarize_user_effect | cbv beta].
    intros r w1 f1 (-> & Hk1 & ->).
    eapply wp_mono; [apply IH | cbv beta].
    intros r w2 f2 (-> & Hk2 & ->).
    split; [reflexivity|]. split; [apply (world_kept_trans _ _ _ Hk1 Hk2)|].
    destruct Hk1 as (_ & Hp & _). rewrite Hp.
    destruct (has_monitored (pending w) u);
      cbn [total_users_notified digest_outbox map]; f_equal.
    + unfold len. cbn [length]. lia.
    + rewrite <- app_assoc. reflexivity.
Qed.

Lemma send_weekly_summaries_run (w : World) :
  let run := send_weekly_summaries env sendgrid_send_digest seven_days_before
               (w, mkWeekly 0 []) in
  let w' := fst (snd run) in
  fst run = Ok (WeeklyDone (len (digest_recipients (store w))))
  /\ digest_outbox (snd (snd run))
     = map (digest_of (store w) (seven_days_before (utcnow env (tick w))))
           (digest_recipients (store w))
  /\ store w' = store w /\ pending w' = store w' /\ queue w' = queue w
  /\ email_outbox w' = email_outbox w /\ sms_outbox w' = sms_outbox w.
Proof.
  cbv zeta.
  set (Q := fun (r : outcome weekly_result) (w' : World) (f' : weekly_frame) =>
              r = Ok (WeeklyDone (len (digest_recipients (store w))))
              /\ digest_outbox f'
                 = map (digest_of (store w) (seven_days_before (utcnow env (tick w))))
                       (digest_recipients (store w))
              /\ store w' = store w /\ pending w' = store w' /\ queue w' = queue w
              /\ email_outbox w' = email_outbox w /\ sms_outbox w' = sms_outbox w).
  change (wp (send_weekly_summaries env sendgrid_send_digest seven_days_before) Q
             w (mkWeekly 0 [])).
  unfold send_weekly_summaries. do 4 wp_step. simpl_world. do 3 wp_step.
  eapply wp_mono; [apply summarize_loop | cbv beta].
  intros r w2 f2 (-> & (Hs & Hp & Hq & He & Hm) & ->).
  repeat wp_step. unfold Q, digest_recipients.
  cbn [store pending tick queue email_outbox sms_outbox with_pending advance
       total_users_notified digest_outbox] in *.
  rewrite Hs, Hq, He, Hm. repeat split; reflexivity.
Qed.

End Weekly.

Lemma highest_of_bounds (scores : list Z) : forall a,
  a <= fold_left Z.max scores a
  /\ Forall (fun s => s <= fold_left Z.max scores a) scores.
Proof.
  induction scores as [|s scores IH]; intro a; cbn [fold_left].
  - split; [lia | constructor].
  - destruct (IH (Z.max a s)) as [Hge Hall]. split; [lia|].
    constructor; [lia | exact Hall].
Qed.

Lemma digest_of_figures (d : Db) (ago : datetime) (user : User.row) :
  let g := digest_of d ago user in
  0 <= new_this_week g <= total_breaches g
  /\ 0 <= risk_score g
  /\ Forall (fun b => BreachEvent.severity_score b <= risk_score g) (events_of_user d user).
Proof.
  cbv zeta. unfold digest_of. cbn [new_this_week total_breaches risk_score].
  split; [|split].
  - split; [apply len_nonneg|]. unfold len.
    pose proof (filter_length_le (detected_since ago) (events_of_user d user)). lia.
  - apply (highest_of_bounds _ 0).
  - destruct (highest_of_bounds (map BreachEvent.severity_score (events_of_user d user)) 0)
      as [_ H].
    rewrite Forall_forall in *. intros b Hb. apply H. now apply in_map.
Qed.

(** X24: a weekly run writes one digest to every active user who has a
    monitored email, in the order of the users table, and to nobody else;
    it reports the number of digests it handed to the mail provider,
    whatever the provider answered.  The figures of a digest are those of
    the tables: the monitored emails of the user, active or not, their
    events, those of them detected since seven days before the run, and the
    greatest severity score.  The run writes nothing to the store. *)
Theorem weekly_summaries_reach_the_monitored env
    (sendgrid_send_digest : nat -> Digest -> mail_reply)
    (seven_days_before : datetime -> datetime) (w : World) :
  let run := send_weekly_summaries env sendgrid_send_digest seven_days_before
               (w, mkWeekly 0 []) in
  let w' := fst (snd run) in
  fst run = Ok (WeeklyDone (len (digest_recipients (store w))))
  /\ digest_outbox (snd (snd run))
     = map (digest_of (store w) (seven_days_before (utcnow env (tick w))))
           (digest_recipients (store w))
  /\ store w' = store w /\ pending w' = store w' /\ queue w' = queue w
  /\ email_outbox w' = email_outbox w /\ sms_outbox w' = sms_outbox w.
Proof. apply send_weekly_summaries_run. Qed.

(** X25: in every digest of a weekly run the user has at least one monitored
    email, the breaches of the week are no more than the breaches in all,
    and the risk score is no less than 0 and than the severity score of
    every event of the user. *)
Theorem weekly_digest_figures env
    (sendgrid_send_digest : nat -> Digest -> mail_reply)
    (seven_days_before : datetime -> datetime) (w : World) :
  let run := send_weekly_summaries env sendgrid_send_digest seven_days_before
               (w, mkWeekly 0 []) in
  Forall (fun g =>
            1 <= total_monitored g
            /\ 0 <= new_this_week g <= total_breaches g
            /\ 0 <= risk_score g
            /\ exists user,
                 In user (users (store w)) /\ User.is_active user = true
                 /\ digest_to g = User.email user
                 /\ total_monitored g = len (monitored_emails_of (store w) user)
                 /\ total_breaches g = len (events_of_user (store w) user)
                 /\ Forall (fun b => BreachEvent.severity_score b <= risk_score g)
                           (events_of_user (store w) user))
         (digest_outbox (snd (snd run))).
Proof.
  cbv zeta.
  destruct (send_weekly_summaries_run env sendgrid_send_digest seven_days_before w)
    as (_ & -> & _).
  rewrite Forall_forall. intros g Hg.
  apply in_map_iff in Hg as (user & <- & Hu).
  unfold digest_recipients in Hu.
  apply filter_In in Hu as [Hu Hhas]. apply filter_In in Hu as [Hin Hact].
  destruct (digest_of_figures (store w) (seven_days_before (utcnow env (tick w))) user)
    as (Hnew & Hrisk & Hall).
  split; [|split; [exact Hnew | split; [exact Hrisk|]]].
  - unfold has_monitored in Hhas. cbn [digest_of total_monitored].
    apply negb_true_iff, Z.eqb_neq in Hhas.
    pose proof (len_nonneg (monitored_emails_of (store w) user)). lia.
  - exists user. repeat split; assumption.
Qed.

End PeriodicFacts.

(** ** The routes *)

Module StatsFacts.
Import Routes PyFacts SmsBodyFacts.

Lemma count_severity_cons (label : string) (b : BreachEvent.row) (l : list BreachEvent.row) :
  count_severity label (b :: l)
  = (if str_eqb (BreachEvent.severity b) (lit label) then 1 else 0)
    + count_severity label l.
Proof.
  unfold count_severity, len. cbn [filter].
  destruct (str_eqb _ _); cbn [length]; lia.
Qed.

Lemma severity_counts (l : list BreachEvent.row) :
  0 <= count_severity "CRITICAL" l /\ 0 <= count_severity "HIGH" l
  /\ 0 <= count_severity "MEDIUM" l /\ 0 <= count_severity "LOW" l
  /\ count_severity "CRITICAL" l + count_severity "HIGH" l
     + count_severity "MEDIUM" l + count_severity "LOW" l <= len l
  /\ (Forall (fun b => In (BreachEvent.severity b)
                          [lit "CRITICAL"; lit "HIGH"; lit "MEDIUM"; lit "LOW"]) l ->
      count_severity "CRITICAL" l + count_severity "HIGH" l
      + count_severity "MEDIUM" l + count_severity "LOW" l = len l).
Proof.
  induction l as [|b l (Hc & Hh & Hm & Hl & Hsum & Hall)].
  - cbn. repeat split; lia.
  - rewrite !count_severity_cons.
    replace (len (b :: l)) with (1 + len l) by (unfold len; cbn [length]; lia).
    destruct (str_eqb (BreachEvent.severity b) (lit "CRITICAL")) eqn:E1;
    destruct (str_eqb (BreachEvent.severity b) (lit "HIGH")) eqn:E2;
    destruct (str_eqb (BreachEvent.severity b) (lit "MEDIUM")) eqn:E3;
    destruct (str_eqb (BreachEvent.severity b) (lit "LOW")) eqn:E4;
      try (apply str_eqb_eq in E1); try (apply str_eqb_eq in E2);
      try (apply str_eqb_eq in E3); try (apply str_eqb_eq in E4);
      try (exfalso;
           match goal with
           | H1 : ?x = lit ?a, H2 : ?x = lit ?b |- _ =>
               rewrite H1 in H2; vm_compute in H2; discriminate H2
           end);
      (repeat split; try lia;
       intro HF; pose proof (Forall_inv HF) as Hb; cbv beta in Hb;
       specialize (Hall (Forall_inv_tail HF)); try lia).
    exfalso. destruct Hb as [Hb | [Hb | [Hb | [Hb | []]]]]; symmetry in Hb;
      apply str_eqb_eq in Hb; congruence.
Qed.

Lemma latest_is_latest (l : list BreachEvent.row) : forall best,
  (BreachEvent.detected_at best <= BreachEvent.detected_at (latest best l))%nat
  /\ Forall (fun b => (BreachEvent.detected_at b
                       <= BreachEvent.detected_at (latest best l))%nat) l
  /\ In (latest best l) (best :: l).
Proof.
  induction l as [|b l IH]; intro best; cbn [latest].
  - repeat split; [lia | constructor | now left].
  - destruct (Nat.ltb (BreachEvent.detected_at best) (BreachEvent.detected_at b)) eqn:E;
      [apply Nat.ltb_lt in E | apply Nat.ltb_ge in E].
    + destruct (IH b) as (Hge & Hall & Hin).
      repeat split; [lia | constructor; assumption |].
      destruct Hin as [<- | Hin]; [right; now left | right; now right].
    + destruct (IH best) as (Hge & Hall & Hin).
      repeat split; [lia | constructor; [lia | assumption] |].
      destruct Hin as [<- | Hin]; [now left | right; now right].
Qed.

(** X30: the figures of the dashboard: the risk score lies between 0 and 100,
    the four severity counts add up to the number of breaches at most, and
    to exactly that number when every event carries one of the four labels;
    the newest breach date is missing exactly when the user has no breach,
    and is otherwise the detection time of one of the user's events, no
    earlier than any other. *)
Theorem breach_stats_figures (d : Db) (user_id : nat) :
  let s := breach_stats d user_id in
  let breaches := breaches_of_user d user_id in
  0 <= risk_score s <= 100
  /\ total_breaches s = len breaches
  /\ critical_count s + high_count s + medium_count s + low_count s <= total_breaches s
  /\ (Forall (fun b => In (BreachEvent.severity b)
                          [lit "CRITICAL"; lit "HIGH"; lit "MEDIUM"; lit "LOW"]) breaches ->
      critical_count s + high_count s + medium_count s + low_count s = total_breaches s)
  /\ (newest_breach_date s = None <-> breaches = [])
  /\ (forall t, newest_breach_date s = Some t ->
        Forall (fun b => (BreachEvent.detected_at b <= t)%nat) breaches
        /\ exists b, In b breaches /\ BreachEvent.detected_at b = t).
Proof.
  cbv zeta. unfold breach_stats.
  cbn [risk_score total_breaches critical_count high_count medium_count low_count
       newest_breach_date].
  set (breaches := breaches_of_user d user_id).
  destruct (severity_counts breaches) as (Hc & Hh & Hm & Hl & Hsum & Hall).
  split; [lia|]. split; [reflexivity|]. split; [exact Hsum|]. split; [exact Hall|].
  destruct breaches as [|b rest].
  - split; [split; reflexivity|]. discriminate.
  - split; [split; discriminate|].
    intros t Ht. injection Ht as <-.
    destruct (latest_is_latest rest b) as (Hge & Hrest & Hin).
    split; [constructor; assumption|]. eauto.
Qed.

End StatsFacts.

Module RouteFacts.
Import Routes ScanTasks RunSpec Runs PyFacts PeriodicSpec.

Lemma owned_breach_found (d : Db) (breach_id user_id : nat) (b : BreachEvent.row) :
  owned_breach d breach_id user_id = Some b ->
  In b (breach_events d) /\ BreachEvent.id b = breach_id.
Proof.
  unfold owned_breach. intro H. apply find_some in H as [Hin Hb].
  apply andb_true_iff in Hb as [Hid _]. apply Nat.eqb_eq in Hid. auto.
Qed.

Lemma resend_breach_alert_keeps {L} env (breach_id : nat) (w : World) (l : L) :
  let w' := fst (snd (resend_breach_alert env breach_id (w, l))) in
  store w' = store w /\ pending w' = store w'
  /\ email_outbox w' = email_outbox w /\ sms_outbox w' = sms_outbox w.
Proof.
  cbv zeta. unfold resend_breach_alert, with_get_db_session, with_get_db.
  exec. repeat branch; repeat split; reflexivity.
Qed.

(** X26: a resend enqueues a dispatch job for the event only when the event
    belongs, through its monitored email, to the current user; otherwise it
    answers 404 and enqueues nothing.  The route itself writes nothing to
    the store and alerts nobody; when its closing commit is refused, the job
    it enqueued stays in the queue. *)
Theorem resend_requeues_owned_events_only {L} env (breach_id : nat) (w : World) (l : L) :
  let run := resend_breach_alert env breach_id (w, l) in
  let w' := fst (snd run) in
  store w' = store w /\ pending w' = store w'
  /\ email_outbox w' = email_outbox w /\ sms_outbox w' = sms_outbox w
  /\ match owned_breach (store w) breach_id get_current_user with
     | None => fst run = Ok (HTTPException 404) /\ queue w' = queue w
     | Some _ =>
         if broker_accepts env (tick w)
         then queue w' = queue w ++ [breach_id]
              /\ (if store_accepts env (S (tick w))
                  then fst run = Ok (Returned (lit "Alert dispatch queued successfully."))
                  else fst run = Raise DatabaseError)
         else fst run = Raise BrokerError /\ queue w' = queue w
     end.
Proof.
  cbv zeta. unfold resend_breach_alert, with_get_db_session, with_get_db.
  exec.
  destruct (owned_breach (store w) breach_id get_current_user) as [b|] eqn:Hb;
    cbn [fst snd store pending tick queue email_outbox sms_outbox].
  - destruct (owned_breach_found _ _ _ _ Hb) as [_ ->].
    destruct (broker_accepts env (tick w));
      cbn [fst snd store pending tick queue email_outbox sms_outbox];
      [destruct (store_accepts env (S (tick w)));
       cbn [fst snd store pending tick queue email_outbox sms_outbox]|];
      repeat split; reflexivity.
  - repeat split; reflexivity.
Qed.

(** X27: resending the alert of an event that was notified delivers nothing:
    the job the route enqueues finds the event notified and returns without
    a mail, a text message or a delivery record, whatever the collaborators
    do.  The keys of the events are taken to be distinct. *)
Theorem resend_of_notified_event_delivers_nothing {L} env env' (breach_id : nat)
    (w : World) (l : L) (b : BreachEvent.row) :
  NoDup (map BreachEvent.id (breach_events (store w))) ->
  owned_breach (store w) breach_id get_current_user = Some b ->
  BreachEvent.is_notified b = true ->
  let w1 := fst (snd (resend_breach_alert env breach_id (w, l))) in
  let w2 := snd (run_dispatch env' breach_id w1) in
  fst (run_dispatch env' breach_id w1) = Ok (Dispatched breach_id [])
  /\ store w2 = store w
  /\ email_outbox w2 = email_outbox w
  /\ sms_outbox w2 = sms_outbox w.
Proof.
  intros Hnd Hb Hn. cbv zeta.
  destruct (resend_breach_alert_keeps env breach_id w l) as (Hs & _ & He & Hm).
  destruct (owned_breach_found _ _ _ _ Hb) as [Hin Hid].
  destruct (NotificationFacts.guarded_dispatch env' breach_id
              (fst (snd (resend_breach_alert env breach_id (w, l))))) as [Hr Hw].
  { right. exists b. split; [|exact Hn].
    rewrite Hs, <- Hid. apply ScanFrameFacts.breach_event_by_key; assumption. }
  rewrite Hr, Hw. cbn [store email_outbox sms_outbox with_pending].
  rewrite Hs, He, Hm. repeat split; reflexivity.
Qed.

Lemma active_ids_deactivated (d : Db) (email_id : nat) :
  ~ In email_id (active_ids (update_monitored_email d email_id deactivate)).
Proof.
  unfold active_ids, update_monitored_email, with_monitored_emails.
  cbn [monitored_emails].
  induction (monitored_emails d) as [|r rows IH]; cbn [map filter]; [intros []|].
  destruct (Nat.eqb (MonitoredEmail.id r) email_id) eqn:E.
  - cbn [deactivate MonitoredEmail.is_active]. exact IH.
  - destruct (MonitoredEmail.is_active r); [|exact IH].
    cbn [map In]. intros [Hid | Hin]; [|exact (IH Hin)].
    subst. rewrite Nat.eqb_refl in E. discriminate.
Qed.

Lemma not_scanned_deactivated (d : Db) (email_id : nat) :
  ScanSpec.not_scanned (update_monitored_email d email_id deactivate) email_id.
Proof.
  unfold ScanSpec.not_scanned, monitored_email_by_id, update_monitored_email,
    with_monitored_emails.
  cbn [monitored_emails].
  induction (monitored_emails d) as [|r rows IH]; cbn [map find]; [exact I|].
  destruct (Nat.eqb (MonitoredEmail.id r) email_id) eqn:E.
  - cbn [deactivate MonitoredEmail.id]. rewrite E. reflexivity.
  - rewrite E. exact IH.
Qed.

Lemma owned_email_found (d : Db) (email_id user_id : nat) (m : MonitoredEmail.row) :
  owned_email d email_id user_id = Some m -> MonitoredEmail.id m = email_id.
Proof.
  unfold owned_email. intro H. apply find_some in H as [_ Hb].
  apply andb_true_iff in Hb as [Hid _]. now apply Nat.eqb_eq in Hid.
Qed.

(** X28: stopping the monitoring of an identity is a soft delete that the scans
    respect: the route answers 404 and changes nothing unless the identity
    belongs to the current user; when it returns, the identity is inactive
    while its events are kept, the sweep has no job for it any more, and a
    scan of it does nothing, whatever the collaborators do. *)
Theorem stopped_identity_is_not_scanned {L} env env' (email_id : nat) (w : World) (l : L) :
  let run := stop_monitoring_email env email_id (w, l) in
  let w1 := fst (snd run) in
  match owned_email (store w) email_id get_current_user with
  | None => run = (Ok (HTTPException 404), (with_pending w (store w), l))
  | Some _ =>
      forall r, fst run = Ok r ->
        r = Returned tt
        /\ store w1 = update_monitored_email (store w) email_id deactivate
        /\ breach_events (store w1) = breach_events (store w)
        /\ ~ In email_id (active_ids (store w1))
        /\ run_scan env' email_id w1
           = (Ok (ScanDone email_id 0), with_pending w1 (store w1))
  end.
Proof.
  cbv zeta.
  destruct (owned_email (store w) email_id get_current_user) as [m|] eqn:Hm.
  - assert (Hrun : forall r,
               fst (stop_monitoring_email env email_id (w, l)) = Ok r ->
               r = Returned tt
               /\ store (fst (snd (stop_monitoring_email env email_id (w, l))))
                  = update_monitored_email (store w) email_id deactivate).
    { unfold stop_monitoring_email, with_get_db_session, with_get_db. exec.
      rewrite Hm. cbn [fst snd store pending tick].
      rewrite (owned_email_found _ _ _ _ Hm).
      repeat branch; intros r Hr; try discriminate;
        injection Hr as <-; split; reflexivity. }
    intros r Hr. destruct (Hrun r Hr) as [-> Hs].
    split; [reflexivity|]. split; [exact Hs|].
    split; [rewrite Hs; reflexivity|].
    split; [rewrite Hs; apply active_ids_deactivated|].
    apply ScanFacts.run_scan_not_scanned. rewrite Hs. apply not_scanned_deactivated.
  - unfold stop_monitoring_email, with_get_db_session, with_get_db. exec.
    rewrite Hm. reflexivity.
Qed.



End RouteFacts.

Module RouteExamples.
Import Routes ScanTasks RouteFacts Fixture RouteFixture.

Lemma resend_of_notified_event_delivers_nothing_witness :
  let w := world_of db_with_notified_event in
  let w1 := fst (snd (resend_breach_alert (env_with 100) 1 (w, tt))) in
  let w2 := snd (run_dispatch env_failing_channels 1 w1) in
  fst (run_dispatch env_failing_channels 1 w1) = Ok (Dispatched 1 [])
  /\ store w2 = store w
  /\ email_outbox w2 = email_outbox w
  /\ sms_outbox w2 = sms_outbox w.
Proof.
  apply (resend_of_notified_event_delivers_nothing (env_with 100) env_failing_channels 1
           (world_of db_with_notified_event) tt (adobe_event true)).
  - repeat constructor. intros [].
  - reflexivity.
  - reflexivity.
Defined.


End RouteExamples.
